(** * SPDY connection multiplexer: server [connection] and [clientConnection]

    A shallow embedding of the two connection types of package [spdy]
    (connection.go: the server side; the client side: [clientConnection])
    and the proofs of the properties of their ingress loops.

    Conventions of the embedding.
    - Go's [uint32] and [uint16] values are integers of [Z]; every
      addition the source performs on them is wrapped explicitly with
      [wrap32] / [wrap16].  The parity test [x & 1] is [Z.land x 1].
    - Go maps are [gmap]s.  The only operations the source performs on its
      tables are lookup, [range], [delete] and (server only) assignment;
      for lookup, [range] and [delete] a nil map behaves as the empty map,
      so [conn.streams = nil] is modelled as [streams := ∅].
    - Channels and stream objects are reference values in Go.  They live
      in a store indexed by references ([ref]); the tables hold
      references, so that an object can still be observed after its table
      entry is deleted.
    - A handler is a function in the state-and-exit monad [M]: it either
      completes ([Ok]) or ends the goroutine ([Exit]) by returning from the
      loop, by [runtime.Goexit], by a run-time panic, or by parking on a
      channel operation.
    - Locks, logging, deadlines and the 100 ms grace sleep have no effect on
      the protocol state and are left out. *)

From Stdlib Require Import ZArith Bool List Lia.
From stdpp Require Import base option list functions gmap fin_maps.

Local Open Scope Z_scope.

(** ** Machine integers *)

Definition wrap16 (x : Z) : Z := x mod 2 ^ 16.
Definition wrap32 (x : Z) : Z := x mod 2 ^ 32.

(** The conversion of a constant expression to [uint32].  Constant
    expressions are evaluated exactly, and the conversion exists only when
    the value is in range: a constant does not wrap around. *)
Definition constUint32 (c : Z) : option Z :=
  if (0 <=? c) && (c <? 2 ^ 32) then Some c else None.

(** ** Wire-format constants *)

(** Modelled from the spec: the constant [MAX_STREAM_ID] is declared outside
    src/; the spec gives 2^31 - 1. *)
Definition MAX_STREAM_ID : Z := 2 ^ 31 - 1.

(** Modelled from the spec: the constant [MAX_DELTA_WINDOW_SIZE] is declared
    outside src/; the spec gives 2^31 - 1. *)
Definition MAX_DELTA_WINDOW_SIZE : Z := 2 ^ 31 - 1.

(** Modelled from the spec: the constant [FLAG_FIN] is declared outside src/;
    the spec gives 0x01. *)
Definition FLAG_FIN : Z := 1.

(** Modelled from the spec: the RST_STREAM status codes are declared outside
    src/; the spec lists their values. *)
Definition RST_STREAM_PROTOCOL_ERROR : Z := 1.
Definition RST_STREAM_INVALID_STREAM : Z := 2.
Definition RST_STREAM_REFUSED_STREAM : Z := 3.
Definition RST_STREAM_UNSUPPORTED_VERSION : Z := 4.
Definition RST_STREAM_CANCEL : Z := 5.
Definition RST_STREAM_INTERNAL_ERROR : Z := 6.
Definition RST_STREAM_FLOW_CONTROL_ERROR : Z := 7.
Definition RST_STREAM_STREAM_IN_USE : Z := 8.
Definition RST_STREAM_STREAM_ALREADY_CLOSED : Z := 9.
Definition RST_STREAM_INVALID_CREDENTIALS : Z := 10.

(** ** Frames

    The frame structs are declared outside src/; each record keeps the
    fields the two connection types read or write. *)

Record SynStreamFrame := mkSynStream
  { ss_version : Z; ss_streamID : Z; ss_Flags : Z }.
Record SynReplyFrame := mkSynReply
  { sr_version : Z; sr_streamID : Z; sr_Flags : Z }.
Record RstStreamFrame := mkRstStream
  { rs_version : Z; rs_streamID : Z; rs_StatusCode : Z }.
Record Setting := mkSetting
  { set_Flags : Z; set_ID : Z; set_Value : Z }.
Record SettingsFrame := mkSettings
  { sf_version : Z; sf_Settings : list Setting }.
Record PingFrame := mkPing
  { pf_version : Z; pf_PingID : Z }.
Record GoawayFrame := mkGoaway
  { ga_version : Z; ga_LastGoodStreamID : Z }.
Record HeadersFrame := mkHeaders
  { hf_version : Z; hf_streamID : Z; hf_Flags : Z }.
Record WindowUpdateFrame := mkWindowUpdate
  { wu_version : Z; wu_streamID : Z; wu_DeltaWindowSize : Z }.
Record CredentialFrame := mkCredential
  { cf_version : Z }.
Record DataFrame := mkData
  { df_streamID : Z; df_Flags : Z; df_Data : list Z }.

(** The [Frame] interface: one constructor per implementing struct, and
    [FOther] for any further implementation (the [default] case of the type
    switches). *)
Inductive Frame :=
| FSynStream (f : SynStreamFrame)
| FSynReply (f : SynReplyFrame)
| FRstStream (f : RstStreamFrame)
| FSettings (f : SettingsFrame)
| FPing (f : PingFrame)
| FGoaway (f : GoawayFrame)
| FHeaders (f : HeadersFrame)
| FWindowUpdate (f : WindowUpdateFrame)
| FCredential (f : CredentialFrame)
| FData (f : DataFrame)
| FOther (version streamID : Z).

(** [frame.Version()]; DATA frames carry no version. *)
Definition Frame_Version (frame : Frame) : Z :=
  match frame with
  | FSynStream f => ss_version f
  | FSynReply f => sr_version f
  | FRstStream f => rs_version f
  | FSettings f => sf_version f
  | FPing f => pf_version f
  | FGoaway f => ga_version f
  | FHeaders f => hf_version f
  | FWindowUpdate f => wu_version f
  | FCredential f => cf_version f
  | FData _ => 0
  | FOther v _ => v
  end.

(** [frame.StreamID()]; 0 for the frames that reference no stream. *)
Definition Frame_StreamID (frame : Frame) : Z :=
  match frame with
  | FSynStream f => ss_streamID f
  | FSynReply f => sr_streamID f
  | FRstStream f => rs_streamID f
  | FHeaders f => hf_streamID f
  | FWindowUpdate f => wu_streamID f
  | FData f => df_streamID f
  | FOther _ sid => sid
  | FSettings _ | FPing _ | FGoaway _ | FCredential _ => 0
  end.

(** ** The state-and-exit monad *)

Inductive exit := Returned | Goexited | Panicked | Blocked.

Inductive res (A : Type) :=
| Ok (a : A)
| Exit (e : exit).
Arguments Ok {A} a.
Arguments Exit {A} e.

Section Monad.
Context {St : Type}.

Definition M (A : Type) : Type := St -> res A * St.

Definition ret {A} (a : A) : M A := fun s => (Ok a, s).

Definition bind {A B} (m : M A) (k : A -> M B) : M B := fun s =>
  match m s with
  | (Ok a, s') => k a s'
  | (Exit e, s') => (Exit e, s')
  end.

Definition stop {A} (e : exit) : M A := fun s => (Exit e, s).

Definition modify (f : St -> St) : M unit := fun s => (Ok tt, f s).
End Monad.
Arguments M St A : clear implicits.

Declare Scope go_scope.
Delimit Scope go_scope with go.
Notation "m1 >> m2" := (bind m1 (fun _ => m2))
  (at level 60, right associativity) : go_scope.
Local Open Scope go_scope.


(** Whether a run of a handler ended the goroutine. *)
Definition exited {A St} (r : res A * St) : bool :=
  match r.1 with Ok _ => false | Exit _ => true end.

(** Package-level declarations of [spdy] that lie outside src/ and whose
    value the spec leaves open: the highest supported protocol version, the
    benign-error budget (a variable, default 10), the identifier of the
    initial-window-size setting, and the helper that classifies RST_STREAM
    status codes as fatal. *)
Class PackageDecls := {
  SPDY_VERSION : Z;
  MaxBenignErrors : Z;
  SETTINGS_INITIAL_WINDOW_SIZE : Z;
  StatusCodeIsFatal : Z -> bool
}.

(** * The server connection (connection.go) *)

Module Server.

(** Modelled from the spec: [newStream] and [stream.run] are declared outside
    src/.  A stream is created from the SYN_STREAM frame that opened it, and
    [go s.run()] launches its actor, recorded in [running]. *)
Record stream := mkStream { syn : SynStreamFrame; running : bool }.

Definition newStream (frame : SynStreamFrame) : stream :=
  {| syn := frame; running := false |}.

Definition run (s : stream) : stream :=
  {| syn := syn s; running := true |}.

(** [tls.ConnectionState]; its content is not modelled. *)
Inductive ConnectionState : Set := connectionState.

(** The protocol fields of [connection], and of the transport fields the
    pointer [tlsState], through which [newConn] stores ([None] is nil); the
    other transport fields ([remoteAddr], [server], [conn], [buf],
    [tlsConfig]) are not modelled. *)
Record connection := mkConnection {
  tlsState : option ConnectionState;
  streams : gmap Z stream;
  buffer : list Frame;
  queue : list Frame;
  nextServerStreamID : Z;
  nextClientStreamID : Z;
  goaway : bool;
  version : Z
}.

Definition set_tlsState (p : option ConnectionState) (conn : connection)
  : connection :=
  {| tlsState := p;
     streams := streams conn; buffer := buffer conn; queue := queue conn;
     nextServerStreamID := nextServerStreamID conn;
     nextClientStreamID := nextClientStreamID conn;
     goaway := goaway conn; version := version conn |}.

Definition set_streams (m : gmap Z stream) (conn : connection) : connection :=
  {| tlsState := tlsState conn;
     streams := m; buffer := buffer conn; queue := queue conn;
     nextServerStreamID := nextServerStreamID conn;
     nextClientStreamID := nextClientStreamID conn;
     goaway := goaway conn; version := version conn |}.

Definition set_buffer (b : list Frame) (conn : connection) : connection :=
  {| tlsState := tlsState conn;
     streams := streams conn; buffer := b; queue := queue conn;
     nextServerStreamID := nextServerStreamID conn;
     nextClientStreamID := nextClientStreamID conn;
     goaway := goaway conn; version := version conn |}.

Definition set_queue (q : list Frame) (conn : connection) : connection :=
  {| tlsState := tlsState conn;
     streams := streams conn; buffer := buffer conn; queue := q;
     nextServerStreamID := nextServerStreamID conn;
     nextClientStreamID := nextClientStreamID conn;
     goaway := goaway conn; version := version conn |}.

Definition set_nextServerStreamID (x : Z) (conn : connection) : connection :=
  {| tlsState := tlsState conn;
     streams := streams conn; buffer := buffer conn; queue := queue conn;
     nextServerStreamID := x;
     nextClientStreamID := nextClientStreamID conn;
     goaway := goaway conn; version := version conn |}.

Definition set_nextClientStreamID (x : Z) (conn : connection) : connection :=
  {| tlsState := tlsState conn;
     streams := streams conn; buffer := buffer conn; queue := queue conn;
     nextServerStreamID := nextServerStreamID conn;
     nextClientStreamID := x;
     goaway := goaway conn; version := version conn |}.

Definition set_version (v : Z) (conn : connection) : connection :=
  {| tlsState := tlsState conn;
     streams := streams conn; buffer := buffer conn; queue := queue conn;
     nextServerStreamID := nextServerStreamID conn;
     nextClientStreamID := nextClientStreamID conn;
     goaway := goaway conn; version := v |}.

(** Modelled from the spec: [connection.WriteFrame] is declared outside src/;
    internally generated frames are ordinary enqueues on the outbound FIFO. *)
Definition WriteFrame (frame : Frame) : M connection unit :=
  modify (fun conn => set_queue (queue conn ++ [frame]) conn).

Section WithDecls.
Context `{PackageDecls}.

(** The reply built by each rejecting branch of the SYN_STREAM case. *)
Definition rstReply (frame : SynStreamFrame) (status : Z) : Frame :=
  FRstStream {| rs_version := SPDY_VERSION;
                rs_streamID := ss_streamID frame;
                rs_StatusCode := status |}.

(** [case SynStreamFrame:] of [readFrames]; every [break FrameHandling]
    completes the case. *)
Definition caseSynStream (frame : SynStreamFrame) : M connection unit :=
  fun conn =>
  (* Check stream creation is allowed. *)
  if goaway conn then ret tt conn
  (* Check version. *)
  else if negb (ss_version frame =? version conn)
          && (SPDY_VERSION <? ss_version frame)
  then WriteFrame (rstReply frame RST_STREAM_UNSUPPORTED_VERSION) conn
  (* Check Stream ID is odd. *)
  else if Z.land (ss_streamID frame) 1 =? 0
  then WriteFrame (rstReply frame RST_STREAM_PROTOCOL_ERROR) conn
  (* Check Stream ID is the right number. *)
  else if negb (ss_streamID frame =? wrap32 (nextClientStreamID conn + 2))
  then WriteFrame (rstReply frame RST_STREAM_PROTOCOL_ERROR) conn
  (* Check Stream ID is not too large. *)
  else if MAX_STREAM_ID <? ss_streamID frame
  then WriteFrame (rstReply frame RST_STREAM_PROTOCOL_ERROR) conn
  (* Create and start new stream. *)
  else (modify (fun c => set_streams
                  (<[ss_streamID frame := newStream frame]> (streams c)) c)
        >> modify (fun c => set_streams
                  (alter run (ss_streamID frame) (streams c)) c)) conn.

(** The type switch of [readFrames]. *)
Definition handleFrame (frame : Frame) : M connection unit :=
  match frame with
  | FSynStream f => caseSynStream f
  | FSynReply _ | FRstStream _ | FSettings _ | FPing _ | FGoaway _
  | FHeaders _ | FWindowUpdate _ | FCredential _ | FData _ => ret tt
  | FOther _ _ => stop Panicked
  end.

(** One result of [ReadFrame(conn.buf)]. *)
Inductive input := InFrame (frame : Frame) | InError.

(** The body of the [for] loop of [readFrames]. *)
Definition iteration (i : input) : M connection unit :=
  match i with
  | InError => stop Panicked
  | InFrame frame => handleFrame frame
  end.

(** [readFrames] on the frames the transport delivers; [Ok] when the loop
    has consumed them all and waits for the next one. *)
Fixpoint readFrames (inputs : list input) : M connection unit :=
  match inputs with
  | [] => ret tt
  | i :: rest => iteration i >> readFrames rest
  end.

End WithDecls.

(** [new(connection)]: the zero value of the struct.  Every pointer, map
    and slice is nil, every number 0. *)
Definition new_connection : connection :=
  {| tlsState := None;
     streams := ∅; buffer := []; queue := [];
     nextServerStreamID := 0; nextClientStreamID := 0;
     goaway := false; version := 0 |}.

(** [*conn.tlsState = state]: a store through the pointer held in
    [tlsState], which panics when the pointer is nil. *)
Definition storeTlsState (state : ConnectionState) : M connection unit :=
  fun conn =>
  match tlsState conn with
  | None => stop Panicked conn
  | Some _ => (Ok tt, set_tlsState (Some state) conn)
  end.

(** The statements of [newConn] after [conn := new(connection)], for the
    state [state] of the TLS connection and the value [next] of the constant
    in the last assignment.  The three assignments before the store through
    [tlsState] set transport fields that are not modelled ([remoteAddr],
    [conn], [buf]). *)
Definition newConnBody (state : ConnectionState) (next : Z)
  : M connection unit :=
  storeTlsState state
  >> modify (set_streams ∅)
  >> modify (set_buffer [])
  >> modify (set_queue [])
  >> modify (set_nextServerStreamID 0)
  >> modify (set_nextClientStreamID next).

(** [newConn].  The last assignment stores the constant expression [1 - 2]
    in a [uint32] field, so the function has a meaning only if that constant
    converts to [uint32]; it is then the run of [newConnBody] on
    [new(connection)]. *)
Definition newConn (state : ConnectionState)
  : option (res unit * connection) :=
  match constUint32 (1 - 2) with
  | Some next => Some (newConnBody state next new_connection)
  | None => None
  end.

End Server.

(** * The client connection ([clientConnection]) *)

Module Client.

(** References to the Go objects the connection points to. *)
Abbreviation ref := nat (only parsing).

(** A [chan Frame]: the frames sent and not yet received, and whether the
    channel has been closed.  The receiver is another goroutine; the
    capacity of a stream inbox is fixed where the stream is created (outside
    src/), so a send to an open inbox is modelled as an enqueue. *)
Record Chan := mkChan { ch_buf : list Frame; ch_closed : bool }.

(** A [chan bool] made by [Ping] with capacity 1. *)
Record BoolChan := mkBoolChan { bc_buf : list bool; bc_closed : bool }.

(** Modelled from the spec: the [Stream] interface is declared outside src/.
    The connection requests a stream to stop ([Stop]), to cancel ([Cancel]),
    closes its state ([State().Close()]) or marks its remote half closed
    ([State().CloseThere()]); each request is recorded in a flag. *)
Record StreamObj := mkStreamObj {
  stopped : bool;
  cancelled : bool;
  closed : bool;
  closedThere : bool
}.

Definition Stop (s : StreamObj) : StreamObj :=
  {| stopped := true; cancelled := cancelled s;
     closed := closed s; closedThere := closedThere s |}.
Definition Cancel (s : StreamObj) : StreamObj :=
  {| stopped := stopped s; cancelled := true;
     closed := closed s; closedThere := closedThere s |}.
Definition State_Close (s : StreamObj) : StreamObj :=
  {| stopped := stopped s; cancelled := cancelled s;
     closed := true; closedThere := closedThere s |}.
Definition State_CloseThere (s : StreamObj) : StreamObj :=
  {| stopped := stopped s; cancelled := cancelled s;
     closed := closed s; closedThere := true |}.

(** The protocol fields of [clientConnection] in the order of the source
    (the transport fields [remoteAddr], [client], [conn], [buf], [tlsState]
    and the two header codecs are not modelled), followed by the store of
    the objects the tables refer to: stream objects, stream inboxes, ping
    notifiers, and the next reference [make] hands out.  [dataOutput] holds
    the frames handed to the sender goroutine, oldest first. *)
Record clientConnection := mkClientConnection {
  streams : gmap Z ref;
  streamInputs : gmap Z ref;
  dataOutput : list Frame;
  pings : gmap Z ref;
  pingID : Z;
  receivedSettings : gmap Z Setting;
  nextServerStreamID : Z;
  nextClientStreamID : Z;
  initialWindowSize : Z;
  goaway : bool;
  version : Z;
  numBenignErrors : Z;
  done : Z;
  streamStore : ref -> StreamObj;
  chanStore : ref -> Chan;
  pingStore : ref -> BoolChan;
  nextRef : ref
}.

Definition set_streams (x : gmap Z ref) (conn : clientConnection) : clientConnection :=
  {| streams := x;
     streamInputs := streamInputs conn;
     dataOutput := dataOutput conn;
     pings := pings conn;
     pingID := pingID conn;
     receivedSettings := receivedSettings conn;
     nextServerStreamID := nextServerStreamID conn;
     nextClientStreamID := nextClientStreamID conn;
     initialWindowSize := initialWindowSize conn;
     goaway := goaway conn;
     version := version conn;
     numBenignErrors := numBenignErrors conn;
     done := done conn;
     streamStore := streamStore conn;
     chanStore := chanStore conn;
     pingStore := pingStore conn;
     nextRef := nextRef conn |}.

Definition set_streamInputs (x : gmap Z ref) (conn : clientConnection) : clientConnection :=
  {| streams := streams conn;
     streamInputs := x;
     dataOutput := dataOutput conn;
     pings := pings conn;
     pingID := pingID conn;
     receivedSettings := receivedSettings conn;
     nextServerStreamID := nextServerStreamID conn;
     nextClientStreamID := nextClientStreamID conn;
     initialWindowSize := initialWindowSize conn;
     goaway := goaway conn;
     version := version conn;
     numBenignErrors := numBenignErrors conn;
     done := done conn;
     streamStore := streamStore conn;
     chanStore := chanStore conn;
     pingStore := pingStore conn;
     nextRef := nextRef conn |}.

Definition set_dataOutput (x : list Frame) (conn : clientConnection) : clientConnection :=
  {| streams := streams conn;
     streamInputs := streamInputs conn;
     dataOutput := x;
     pings := pings conn;
     pingID := pingID conn;
     receivedSettings := receivedSettings conn;
     nextServerStreamID := nextServerStreamID conn;
     nextClientStreamID := nextClientStreamID conn;
     initialWindowSize := initialWindowSize conn;
     goaway := goaway conn;
     version := version conn;
     numBenignErrors := numBenignErrors conn;
     done := done conn;
     streamStore := streamStore conn;
     chanStore := chanStore conn;
     pingStore := pingStore conn;
     nextRef := nextRef conn |}.

Definition set_pings (x : gmap Z ref) (conn : clientConnection) : clientConnection :=
  {| streams := streams conn;
     streamInputs := streamInputs conn;
     dataOutput := dataOutput conn;
     pings := x;
     pingID := pingID conn;
     receivedSettings := receivedSettings conn;
     nextServerStreamID := nextServerStreamID conn;
     nextClientStreamID := nextClientStreamID conn;
     initialWindowSize := initialWindowSize conn;
     goaway := goaway conn;
     version := version conn;
     numBenignErrors := numBenignErrors conn;
     done := done conn;
     streamStore := streamStore conn;
     chanStore := chanStore conn;
     pingStore := pingStore conn;
     nextRef := nextRef conn |}.

Definition set_pingID (x : Z) (conn : clientConnection) : clientConnection :=
  {| streams := streams conn;
     streamInputs := streamInputs conn;
     dataOutput := dataOutput conn;
     pings := pings conn;
     pingID := x;
     receivedSettings := receivedSettings conn;
     nextServerStreamID := nextServerStreamID conn;
     nextClientStreamID := nextClientStreamID conn;
     initialWindowSize := initialWindowSize conn;
     goaway := goaway conn;
     version := version conn;
     numBenignErrors := numBenignErrors conn;
     done := done conn;
     streamStore := streamStore conn;
     chanStore := chanStore conn;
     pingStore := pingStore conn;
     nextRef := nextRef conn |}.

Definition set_receivedSettings (x : gmap Z Setting) (conn : clientConnection) : clientConnection :=
  {| streams := streams conn;
     streamInputs := streamInputs conn;
     dataOutput := dataOutput conn;
     pings := pings conn;
     pingID := pingID conn;
     receivedSettings := x;
     nextServerStreamID := nextServerStreamID conn;
     nextClientStreamID := nextClientStreamID conn;
     initialWindowSize := initialWindowSize conn;
     goaway := goaway conn;
     version := version conn;
     numBenignErrors := numBenignErrors conn;
     done := done conn;
     streamStore := streamStore conn;
     chanStore := chanStore conn;
     pingStore := pingStore conn;
     nextRef := nextRef conn |}.

Definition set_nextServerStreamID (x : Z) (conn : clientConnection) : clientConnection :=
  {| streams := streams conn;
     streamInputs := streamInputs conn;
     dataOutput := dataOutput conn;
     pings := pings conn;
     pingID := pingID conn;
     receivedSettings := receivedSettings conn;
     nextServerStreamID := x;
     nextClientStreamID := nextClientStreamID conn;
     initialWindowSize := initialWindowSize conn;
     goaway := goaway conn;
     version := version conn;
     numBenignErrors := numBenignErrors conn;
     done := done conn;
     streamStore := streamStore conn;
     chanStore := chanStore conn;
     pingStore := pingStore conn;
     nextRef := nextRef conn |}.

Definition set_nextClientStreamID (x : Z) (conn : clientConnection) : clientConnection :=
  {| streams := streams conn;
     streamInputs := streamInputs conn;
     dataOutput := dataOutput conn;
     pings := pings conn;
     pingID := pingID conn;
     receivedSettings := receivedSettings conn;
     nextServerStreamID := nextServerStreamID conn;
     nextClientStreamID := x;
     initialWindowSize := initialWindowSize conn;
     goaway := goaway conn;
     version := version conn;
     numBenignErrors := numBenignErrors conn;
     done := done conn;
     streamStore := streamStore conn;
     chanStore := chanStore conn;
     pingStore := pingStore conn;
     nextRef := nextRef conn |}.

Definition set_initialWindowSize (x : Z) (conn : clientConnection) : clientConnection :=
  {| streams := streams conn;
     streamInputs := streamInputs conn;
     dataOutput := dataOutput conn;
     pings := pings conn;
     pingID := pingID conn;
     receivedSettings := receivedSettings conn;
     nextServerStreamID := nextServerStreamID conn;
     nextClientStreamID := nextClientStreamID conn;
     initialWindowSize := x;
     goaway := goaway conn;
     version := version conn;
     numBenignErrors := numBenignErrors conn;
     done := done conn;
     streamStore := streamStore conn;
     chanStore := chanStore conn;
     pingStore := pingStore conn;
     nextRef := nextRef conn |}.

Definition set_goaway (x : bool) (conn : clientConnection) : clientConnection :=
  {| streams := streams conn;
     streamInputs := streamInputs conn;
     dataOutput := dataOutput conn;
     pings := pings conn;
     pingID := pingID conn;
     receivedSettings := receivedSettings conn;
     nextServerStreamID := nextServerStreamID conn;
     nextClientStreamID := nextClientStreamID conn;
     initialWindowSize := initialWindowSize conn;
     goaway := x;
     version := version conn;
     numBenignErrors := numBenignErrors conn;
     done := done conn;
     streamStore := streamStore conn;
     chanStore := chanStore conn;
     pingStore := pingStore conn;
     nextRef := nextRef conn |}.

Definition set_version (x : Z) (conn : clientConnection) : clientConnection :=
  {| streams := streams conn;
     streamInputs := streamInputs conn;
     dataOutput := dataOutput conn;
     pings := pings conn;
     pingID := pingID conn;
     receivedSettings := receivedSettings conn;
     nextServerStreamID := nextServerStreamID conn;
     nextClientStreamID := nextClientStreamID conn;
     initialWindowSize := initialWindowSize conn;
     goaway := goaway conn;
     version := x;
     numBenignErrors := numBenignErrors conn;
     done := done conn;
     streamStore := streamStore conn;
     chanStore := chanStore conn;
     pingStore := pingStore conn;
     nextRef := nextRef conn |}.

Definition set_numBenignErrors (x : Z) (conn : clientConnection) : clientConnection :=
  {| streams := streams conn;
     streamInputs := streamInputs conn;
     dataOutput := dataOutput conn;
     pings := pings conn;
     pingID := pingID conn;
     receivedSettings := receivedSettings conn;
     nextServerStreamID := nextServerStreamID conn;
     nextClientStreamID := nextClientStreamID conn;
     initialWindowSize := initialWindowSize conn;
     goaway := goaway conn;
     version := version conn;
     numBenignErrors := x;
     done := done conn;
     streamStore := streamStore conn;
     chanStore := chanStore conn;
     pingStore := pingStore conn;
     nextRef := nextRef conn |}.

Definition set_done (x : Z) (conn : clientConnection) : clientConnection :=
  {| streams := streams conn;
     streamInputs := streamInputs conn;
     dataOutput := dataOutput conn;
     pings := pings conn;
     pingID := pingID conn;
     receivedSettings := receivedSettings conn;
     nextServerStreamID := nextServerStreamID conn;
     nextClientStreamID := nextClientStreamID conn;
     initialWindowSize := initialWindowSize conn;
     goaway := goaway conn;
     version := version conn;
     numBenignErrors := numBenignErrors conn;
     done := x;
     streamStore := streamStore conn;
     chanStore := chanStore conn;
     pingStore := pingStore conn;
     nextRef := nextRef conn |}.

Definition set_streamStore (x : ref -> StreamObj) (conn : clientConnection) : clientConnection :=
  {| streams := streams conn;
     streamInputs := streamInputs conn;
     dataOutput := dataOutput conn;
     pings := pings conn;
     pingID := pingID conn;
     receivedSettings := receivedSettings conn;
     nextServerStreamID := nextServerStreamID conn;
     nextClientStreamID := nextClientStreamID conn;
     initialWindowSize := initialWindowSize conn;
     goaway := goaway conn;
     version := version conn;
     numBenignErrors := numBenignErrors conn;
     done := done conn;
     streamStore := x;
     chanStore := chanStore conn;
     pingStore := pingStore conn;
     nextRef := nextRef conn |}.

Definition set_chanStore (x : ref -> Chan) (conn : clientConnection) : clientConnection :=
  {| streams := streams conn;
     streamInputs := streamInputs conn;
     dataOutput := dataOutput conn;
     pings := pings conn;
     pingID := pingID conn;
     receivedSettings := receivedSettings conn;
     nextServerStreamID := nextServerStreamID conn;
     nextClientStreamID := nextClientStreamID conn;
     initialWindowSize := initialWindowSize conn;
     goaway := goaway conn;
     version := version conn;
     numBenignErrors := numBenignErrors conn;
     done := done conn;
     streamStore := streamStore conn;
     chanStore := x;
     pingStore := pingStore conn;
     nextRef := nextRef conn |}.

Definition set_pingStore (x : ref -> BoolChan) (conn : clientConnection) : clientConnection :=
  {| streams := streams conn;
     streamInputs := streamInputs conn;
     dataOutput := dataOutput conn;
     pings := pings conn;
     pingID := pingID conn;
     receivedSettings := receivedSettings conn;
     nextServerStreamID := nextServerStreamID conn;
     nextClientStreamID := nextClientStreamID conn;
     initialWindowSize := initialWindowSize conn;
     goaway := goaway conn;
     version := version conn;
     numBenignErrors := numBenignErrors conn;
     done := done conn;
     streamStore := streamStore conn;
     chanStore := chanStore conn;
     pingStore := x;
     nextRef := nextRef conn |}.

Definition set_nextRef (x : ref) (conn : clientConnection) : clientConnection :=
  {| streams := streams conn;
     streamInputs := streamInputs conn;
     dataOutput := dataOutput conn;
     pings := pings conn;
     pingID := pingID conn;
     receivedSettings := receivedSettings conn;
     nextServerStreamID := nextServerStreamID conn;
     nextClientStreamID := nextClientStreamID conn;
     initialWindowSize := initialWindowSize conn;
     goaway := goaway conn;
     version := version conn;
     numBenignErrors := numBenignErrors conn;
     done := done conn;
     streamStore := streamStore conn;
     chanStore := chanStore conn;
     pingStore := pingStore conn;
     nextRef := x |}.

(** ** Channel and stream primitives *)

(** [conn.dataOutput <- frame]. *)
Definition WriteFrame (frame : Frame) : M clientConnection unit :=
  modify (fun conn => set_dataOutput (dataOutput conn ++ [frame]) conn).

(** [c <- frame] on a stream inbox; [c] is [None] for the nil channel a
    missing table entry yields.  A send on a nil channel parks the goroutine
    for good, a send on a closed channel panics. *)
Definition send (c : option ref) (frame : Frame) : M clientConnection unit :=
  fun conn =>
  match c with
  | None => (Exit Blocked, conn)
  | Some r =>
      if ch_closed (chanStore conn r) then (Exit Panicked, conn)
      else (Ok tt, set_chanStore
                     (alter (fun ch => mkChan (ch_buf ch ++ [frame]) false)
                            r (chanStore conn)) conn)
  end.

(** [close(c)] on a stream inbox; closing a nil or a closed channel
    panics. *)
Definition close (c : option ref) : M clientConnection unit :=
  fun conn =>
  match c with
  | None => (Exit Panicked, conn)
  | Some r =>
      if ch_closed (chanStore conn r) then (Exit Panicked, conn)
      else (Ok tt, set_chanStore
                     (alter (fun ch => mkChan (ch_buf ch) true)
                            r (chanStore conn)) conn)
  end.

(** [c <- b] on a ping notifier of capacity 1: the send parks the goroutine
    while the buffer holds a value. *)
Definition sendBool (r : ref) (b : bool) : M clientConnection unit :=
  fun conn =>
  if bc_closed (pingStore conn r) then (Exit Panicked, conn)
  else match bc_buf (pingStore conn r) with
       | [] => (Ok tt, set_pingStore
                         (alter (fun ch => mkBoolChan [b] false)
                                r (pingStore conn)) conn)
       | _ :: _ => (Exit Blocked, conn)
       end.

(** [close(c)] on a ping notifier. *)
Definition closeBool (r : ref) : M clientConnection unit :=
  fun conn =>
  if bc_closed (pingStore conn r) then (Exit Panicked, conn)
  else (Ok tt, set_pingStore
                 (alter (fun ch => mkBoolChan (bc_buf ch) true)
                        r (pingStore conn)) conn).

(** A method call [s.method()] on a [Stream] interface value; [s] is [None]
    for the nil interface a missing table entry yields, on which the call
    panics. *)
Definition call (s : option ref) (method : StreamObj -> StreamObj)
  : M clientConnection unit :=
  fun conn =>
  match s with
  | None => (Exit Panicked, conn)
  | Some r => (Ok tt, set_streamStore (alter method r (streamStore conn)) conn)
  end.

(** [conn.numBenignErrors++].  Go's [int] has at least 32 bits, and the
    loop of [readFrames] ends as soon as the counter exceeds
    [MaxBenignErrors], so that the counter never passes
    [MaxBenignErrors + 1] ([reachable_invariant]); the increment is taken
    without wrap-around. *)
Definition benignError : M clientConnection unit :=
  modify (fun conn => set_numBenignErrors (numBenignErrors conn + 1) conn).

(** ** Teardown *)

(** The [range] loop of [cleanup] over the entries of [streamInputs].  Go
    visits the entries of a map in no fixed order; the loop is run here on
    the entries as [map_to_list] lists them, and on consistent tables the
    order makes no difference ([cleanupLoop_order]). *)
Fixpoint cleanupLoop (entries : list (Z * ref)) : M clientConnection unit :=
  match entries with
  | [] => ret tt
  | (streamID, c) :: rest =>
      close (Some c)
      >> (fun conn => call (streams conn !! streamID) Stop conn)
      >> cleanupLoop rest
  end.

Definition cleanup : M clientConnection unit :=
  (fun conn => cleanupLoop (map_to_list (streamInputs conn)) conn)
  >> modify (set_streamInputs ∅)
  >> modify (set_streams ∅).

(** The [reply] that [PROTOCOL_ERROR] builds. *)
Definition protocolErrorFrame (conn : clientConnection) (streamID : Z)
  : Frame :=
  FRstStream {| rs_version := wrap16 (version conn);
                rs_streamID := streamID;
                rs_StatusCode := RST_STREAM_PROTOCOL_ERROR |}.

Definition PROTOCOL_ERROR (streamID : Z) : M clientConnection unit :=
  (fun conn => WriteFrame (protocolErrorFrame conn streamID) conn)
  >> cleanup
  >> stop Goexited.

Definition closeStream (streamID : Z) : M clientConnection unit :=
  if streamID =? 0 then ret tt
  else
    (fun conn => call (streams conn !! streamID) Stop conn)
    >> (fun conn => call (streams conn !! streamID) State_Close conn)
    >> (fun conn => close (streamInputs conn !! streamID) conn)
    >> modify (fun conn => set_streams (delete streamID (streams conn)) conn).

(** ** Frame handlers *)

Definition handleSynStream (frame : SynStreamFrame)
  : M clientConnection unit :=
  fun conn =>
  (* Check stream creation is allowed. *)
  if goaway conn then ret tt conn
  else
    let sid := ss_streamID frame in
    (* Check Stream ID is even. *)
    if negb (Z.land sid 1 =? 0) then benignError conn
    else
      (* Check Stream ID is the right number. *)
      let nsid := wrap32 (nextServerStreamID conn + 2) in
      if negb (sid =? nsid) then benignError conn
      else
        (* Check Stream ID is not out of bounds. *)
        ((if MAX_STREAM_ID <? sid then PROTOCOL_ERROR sid else ret tt)
         (* conn.done.Add(1) *)
         >> modify (fun c => set_done (done c + 1) c)) conn.

Definition handleRstStream (frame : RstStreamFrame)
  : M clientConnection unit :=
  let sid := rs_streamID frame in
  let code := rs_StatusCode frame in
  if code =? RST_STREAM_INVALID_STREAM then benignError
  else if code =? RST_STREAM_REFUSED_STREAM then closeStream sid
  else if code =? RST_STREAM_CANCEL then
    if Z.land sid 1 =? 0 then benignError else closeStream sid
  else if code =? RST_STREAM_FLOW_CONTROL_ERROR then benignError
  else if code =? RST_STREAM_STREAM_IN_USE then benignError
  else if code =? RST_STREAM_STREAM_ALREADY_CLOSED then benignError
  else if code =? RST_STREAM_INVALID_CREDENTIALS then benignError
  else PROTOCOL_ERROR sid.

(** The condition of the "Check stream is open" test that the DATA, HEADERS
    and WINDOW_UPDATE handlers share:
    [sid != nsid && sid != 1 && conn.nextClientStreamID != 0]. *)
Definition notOpen (conn : clientConnection) (sid : Z) : bool :=
  let nsid := wrap32 (nextClientStreamID conn + 2) in
  negb (sid =? nsid) && negb (sid =? 1)
  && negb (nextClientStreamID conn =? 0).

Definition handleDataFrame (frame : DataFrame) : M clientConnection unit :=
  fun conn =>
  let sid := df_streamID frame in
  (* Check Stream ID is odd. *)
  if Z.land sid 1 =? 0 then benignError conn
  (* Check stream is open. *)
  else if notOpen conn sid then benignError conn
  else
    (* Send data to stream. *)
    ((fun c => send (streamInputs c !! sid) (FData frame) c)
     (* Handle flags. *)
     >> (if negb (Z.land (df_Flags frame) FLAG_FIN =? 0)
         then fun c => call (streams c !! sid) State_CloseThere c
         else ret tt)) conn.

Definition handleHeadersFrame (frame : HeadersFrame)
  : M clientConnection unit :=
  fun conn =>
  let sid := hf_streamID frame in
  if Z.land sid 1 =? 0 then benignError conn
  else if notOpen conn sid then benignError conn
  else
    ((fun c => send (streamInputs c !! sid) (FHeaders frame) c)
     >> (if negb (Z.land (hf_Flags frame) FLAG_FIN =? 0)
         then fun c => call (streams c !! sid) State_CloseThere c
         else ret tt)) conn.

Definition handleWindowUpdateFrame (frame : WindowUpdateFrame)
  : M clientConnection unit :=
  fun conn =>
  let sid := wu_streamID frame in
  if Z.land sid 1 =? 0 then benignError conn
  else if notOpen conn sid then benignError conn
  else
    (* Check delta window size is valid. *)
    let delta := wu_DeltaWindowSize frame in
    ((if (MAX_DELTA_WINDOW_SIZE <? delta) || (delta <? 1)
      then PROTOCOL_ERROR sid else ret tt)
     (* Send update to stream. *)
     >> (fun c => send (streamInputs c !! sid) (FWindowUpdate frame) c)) conn.

(** ** The ingress loop *)

(** The loop of the GOAWAY case over the entries of [streams]. *)
Fixpoint cancelLoop (lastProcessed : Z) (entries : list (Z * ref))
  : M clientConnection unit :=
  match entries with
  | [] => ret tt
  | (streamID, stream) :: rest =>
      (if negb (Z.land streamID 1 =? 0) && (lastProcessed <? streamID)
       then call (Some stream) Cancel   (* client-sent and not processed *)
       else ret tt)
      >> cancelLoop lastProcessed rest
  end.

(** [validFrameVersion]: DATA frames have no version and are always valid. *)
Definition validFrameVersion (frame : Frame) (conn : clientConnection)
  : bool :=
  match frame with
  | FData _ => true
  | _ => Frame_Version frame =? wrap16 (version conn)
  end.

(** One result of [ReadFrame(conn.buf)] followed by [frame.ReadHeaders]:
    a frame, with whether its header block decompressed, end of input, or
    a read or parse error. *)
Inductive input :=
| InFrame (frame : Frame) (headersOk : bool)
| InEOF
| InError.

Section WithDecls.
Context `{PackageDecls}.

(** The loop of the SETTINGS case over [frame.Settings]. *)
Fixpoint settingsLoop (settings : list Setting) : M clientConnection unit :=
  match settings with
  | [] => ret tt
  | setting :: rest =>
      modify (fun conn =>
        set_receivedSettings
          (<[set_ID setting := setting]> (receivedSettings conn)) conn)
      >> (fun conn =>
            if (set_ID setting =? SETTINGS_INITIAL_WINDOW_SIZE)
               && (2 <? version conn)
            then modify (set_initialWindowSize (set_Value setting)) conn
            else ret tt conn)
      >> settingsLoop rest
  end.

(** The PING case: a reply to one of our pings when the ID is odd, a ping
    of the peer otherwise. *)
Definition casePing (frame : PingFrame) : M clientConnection unit :=
  fun conn =>
  (* Check whether Ping ID is client-sent. *)
  if negb (Z.land (pf_PingID frame) 1 =? 0) then
    match pings conn !! pf_PingID frame with
    | None => benignError conn
    | Some c =>
        (sendBool c true
         >> closeBool c
         >> modify (fun k => set_pings (delete (pf_PingID frame) (pings k)) k))
        conn
    end
  else WriteFrame (FPing frame) conn.

(** The type switch of [readFrames] (label [FrameHandling]). *)
Definition handleFrame (frame : Frame) : M clientConnection unit :=
  match frame with
  | FSynStream _ => ret tt                        (* [UNIMPLEMENTED] *)
  | FSynReply _ => ret tt                         (* [UNIMPLEMENTED] *)
  | FRstStream f =>
      if StatusCodeIsFatal (rs_StatusCode f) then stop Returned
      else handleRstStream f
  | FSettings f => settingsLoop (sf_Settings f)
  | FPing f => casePing f
  | FGoaway f =>
      (fun conn =>
         cancelLoop (ga_LastGoodStreamID f) (map_to_list (streams conn)) conn)
      >> modify (set_goaway true)
  | FHeaders f => handleHeadersFrame f
  | FWindowUpdate f => handleWindowUpdateFrame f
  | FCredential _ => ret tt                       (* [UNIMPLEMENTED] *)
  | FData f => handleDataFrame f
  | FOther _ _ => ret tt
  end.

(** The head of the loop body: the mechanism for handling too many benign
    errors. *)
Definition checkBenignErrors : M clientConnection unit :=
  fun conn =>
  if MaxBenignErrors <? numBenignErrors conn then PROTOCOL_ERROR 0 conn
  else ret tt conn.

(** The rest of the loop body, from [ReadFrame] on. *)
Definition receive (i : input) : M clientConnection unit :=
  match i with
  | InEOF => stop Returned
  | InError => stop Panicked
  | InFrame _ false => stop Panicked
  | InFrame frame true =>
      fun conn =>
      if negb (validFrameVersion frame conn) then
        WriteFrame (FRstStream
                      {| rs_version := SPDY_VERSION;
                         rs_streamID := Frame_StreamID frame;
                         rs_StatusCode := RST_STREAM_UNSUPPORTED_VERSION |})
                   conn
      else handleFrame frame conn
  end.

(** One turn of the [for] loop of [readFrames]. *)
Definition iteration (i : input) : M clientConnection unit :=
  checkBenignErrors >> receive i.

(** [readFrames] on the inputs the transport delivers.  With the inputs
    consumed the loop still runs the head of its next turn, and then waits
    in [ReadFrame] ([Ok]). *)
Fixpoint readFrames (inputs : list input) : M clientConnection unit :=
  match inputs with
  | [] => checkBenignErrors
  | i :: rest => iteration i >> readFrames rest
  end.

End WithDecls.

(** [Ping]: sends a PING with the next ping ID and registers a fresh
    notifier of capacity 1 under that ID; the notifier is returned. *)
Definition Ping : M clientConnection ref :=
  fun conn =>
  let ping := {| pf_version := wrap16 (version conn);
                 pf_PingID := pingID conn |} in
  let c := nextRef conn in
  (WriteFrame (FPing ping)
   >> modify (fun k => set_nextRef (S c)
                (set_pingStore (<[c := mkBoolChan [] false]> (pingStore k)) k))
   >> modify (fun k => set_pings (<[pingID k := c]> (pings k)) k)
   >> modify (fun k => set_pingID (wrap32 (pingID k + 2)) k)
   >> ret c) conn.

(** Modelled from the spec: the constant [DEFAULT_INITIAL_CLIENT_WINDOW_SIZE]
    is declared outside src/; the spec gives a default initial window of
    64 KiB. *)
Definition DEFAULT_INITIAL_CLIENT_WINDOW_SIZE : Z := 65536.

(** [newClientConn]: the protocol fields as the constructor leaves them; no
    object is in the store yet. *)
Definition newClientConn : clientConnection :=
  {| streams := ∅; streamInputs := ∅; dataOutput := []; pings := ∅;
     pingID := 1; receivedSettings := ∅;
     nextServerStreamID := 0; nextClientStreamID := 0;
     initialWindowSize := DEFAULT_INITIAL_CLIENT_WINDOW_SIZE;
     goaway := false; version := 0; numBenignErrors := 0; done := 0;
     streamStore := fun _ => mkStreamObj false false false false;
     chanStore := fun _ => mkChan [] false;
     pingStore := fun _ => mkBoolChan [] false;
     nextRef := 0%nat |}.

(** ** Consistency of the stream tables

    The state in which [cleanup] finds the tables when every stream was
    registered with an inbox of its own: every inbox in [streamInputs] is
    open and belongs to a stream of [streams], no inbox is registered
    twice, and every stream of [streams] has an inbox. *)

Definition inboxOk (conn : clientConnection) (e : Z * ref) : bool :=
  negb (ch_closed (chanStore conn e.2))
  && bool_decide (is_Some (streams conn !! e.1)).

Definition hasInbox (conn : clientConnection) (e : Z * ref) : bool :=
  bool_decide (is_Some (streamInputs conn !! e.1)).

Definition tablesOk (conn : clientConnection) : bool :=
  forallb (inboxOk conn) (map_to_list (streamInputs conn))
  && bool_decide (NoDup (map_to_list (streamInputs conn)).*2)
  && forallb (hasInbox conn) (map_to_list (streams conn)).

(** The stores after closing the inboxes [cs] and stopping the streams
    [ss], in that order. *)
Definition closeAll (store : ref -> Chan) (cs : list ref) : ref -> Chan :=
  foldl (fun st c => alter (fun ch => mkChan (ch_buf ch) true) c st) store cs.

Definition stopAll (store : ref -> StreamObj) (ss : list ref)
  : ref -> StreamObj :=
  foldl (fun st s => alter Stop s st) store ss.

(** The streams the [cleanup] loop stops: those registered under the keys
    of the inbox entries it ranges over. *)
Definition streamsOf (conn : clientConnection) (entries : list (Z * ref))
  : list ref :=
  omap (fun e => streams conn !! e.1) entries.

End Client.

(** * Concrete connections used in the examples *)

(** Values for the declarations outside src/: SPDY/3 as the highest
    version, the default budget of 10 benign errors, setting ID 7 for the
    initial window size, and PROTOCOL_ERROR and UNSUPPORTED_VERSION as the
    fatal status codes. *)
Definition exampleDecls : PackageDecls :=
  {| SPDY_VERSION := 3;
     MaxBenignErrors := 10;
     SETTINGS_INITIAL_WINDOW_SIZE := 7;
     StatusCodeIsFatal := fun code =>
       (code =? RST_STREAM_PROTOCOL_ERROR)
       || (code =? RST_STREAM_UNSUPPORTED_VERSION) |}.

(** A server connection that has counted remote streams up to
    [MAX_STREAM_ID]. *)
Definition serverAtLimit : Server.connection :=
  {| Server.tlsState := Some Server.connectionState;
     Server.streams := ∅; Server.buffer := []; Server.queue := [];
     Server.nextServerStreamID := 0;
     Server.nextClientStreamID := MAX_STREAM_ID;
     Server.goaway := false; Server.version := 3 |}.

(** A server connection whose next remote stream is [MAX_STREAM_ID]. *)
Definition serverBelowLimit : Server.connection :=
  {| Server.tlsState := Some Server.connectionState;
     Server.streams := ∅; Server.buffer := []; Server.queue := [];
     Server.nextServerStreamID := 0;
     Server.nextClientStreamID := MAX_STREAM_ID - 2;
     Server.goaway := false; Server.version := 3 |}.

(** The SPDY/3 server connection [newConn] and [acceptSPDYVersion3] are
    written to set up: no stream, nothing buffered or queued, and the
    counter of remote streams at 2^32 - 1, one step before stream 1.  The
    code itself does not build it (the store through [tlsState] in
    [newConn] panics first); it is a connection put together by hand. *)
Definition serverIntended3 : Server.connection :=
  {| Server.tlsState := Some Server.connectionState;
     Server.streams := ∅; Server.buffer := []; Server.queue := [];
     Server.nextServerStreamID := 0;
     Server.nextClientStreamID := 2 ^ 32 - 1;
     Server.goaway := false; Server.version := 3 |}.

(** A fresh SPDY/3 client connection. *)
Definition client3 : Client.clientConnection :=
  Client.set_version 3 Client.newClientConn.

(** A SPDY/3 client connection with the streams 1, 2 and 3 open: stream
    objects 0, 1, 2 and inboxes 10, 11, 12. *)
Definition clientWithStreams : Client.clientConnection :=
  Client.set_streams {[1 := 0%nat; 2 := 1%nat; 3 := 2%nat]}
    (Client.set_streamInputs {[1 := 10%nat; 2 := 11%nat; 3 := 12%nat]}
       client3).

(** The same connection with the benign-error budget of [exampleDecls]
    exhausted. *)
Definition clientOverBudget : Client.clientConnection :=
  Client.set_numBenignErrors 11 clientWithStreams.

(** A fresh SPDY/3 client after one call of [Ping]: ping 1 is pending on
    notifier 0. *)
Definition clientPinged : Client.clientConnection :=
  (Client.Ping client3).2.

(** A SPDY/3 client connection that has counted remote streams up to
    [MAX_STREAM_ID - 1], the last even ID within the limit. *)
Definition clientAtLimit : Client.clientConnection :=
  Client.set_nextServerStreamID (MAX_STREAM_ID - 1) clientWithStreams.

(** A SPDY/3 server connection after GOAWAY. *)
Definition serverGoneAway : Server.connection :=
  {| Server.tlsState := Some Server.connectionState;
     Server.streams := ∅; Server.buffer := []; Server.queue := [];
     Server.nextServerStreamID := 0;
     Server.nextClientStreamID := wrap32 (1 - 2);
     Server.goaway := true; Server.version := 3 |}.

(** ** Runs of the client

    The connections a client can be in: a new connection of some version,
    and what a call of [Ping] or a completed turn of the ingress loop makes
    of such a connection. *)
Inductive reachable `{PackageDecls} : Client.clientConnection -> Prop :=
| reachable_new (v : Z) :
    reachable (Client.set_version v Client.newClientConn)
| reachable_Ping (conn : Client.clientConnection) :
    reachable conn -> reachable (Client.Ping conn).2
| reachable_iteration (conn : Client.clientConnection) (i : Client.input) :
    reachable conn ->
    (Client.iteration i conn).1 = Ok tt ->
    reachable (Client.iteration i conn).2.

(** The ping registry is in order: every registered notifier is pending
    (open and empty), was handed out by [make], and is registered under one
    ID only. *)
Definition pingsPending (conn : Client.clientConnection) : Prop :=
  (forall id c, Client.pings conn !! id = Some c ->
     Client.pingStore conn c = Client.mkBoolChan [] false
     /\ (c < Client.nextRef conn)%nat)
  /\ (forall id1 id2 c, Client.pings conn !! id1 = Some c ->
        Client.pings conn !! id2 = Some c -> id1 = id2).

(** Both stream tables are empty. *)
Definition noStreams (conn : Client.clientConnection) : Prop :=
  Client.streams conn = ∅ /\ Client.streamInputs conn = ∅.

(** A run of a handler that leaves the ping registry and the error count
    as they were, and registers no stream. *)
Definition quiet (conn : Client.clientConnection)
    (r : res unit * Client.clientConnection) : Prop :=
  Client.pings r.2 = Client.pings conn
  /\ Client.pingStore r.2 = Client.pingStore conn
  /\ Client.nextRef r.2 = Client.nextRef conn
  /\ Client.numBenignErrors r.2 = Client.numBenignErrors conn
  /\ (noStreams conn -> noStreams r.2).

(** What a handler other than the PING case does about the ping registry
    and the error count: nothing, or it counts one error and does nothing
    else. *)
Definition counts (conn : Client.clientConnection)
    (r : res unit * Client.clientConnection) : Prop :=
  quiet conn r
  \/ r = (Ok tt,
          Client.set_numBenignErrors (Client.numBenignErrors conn + 1) conn).


(** * Further notions used in the properties of the two loops *)

(** An input the server loop handles without panicking: a frame of one of
    the ten kinds of the type switch. *)
Definition serverKnown (i : Server.input) : bool :=
  match i with
  | Server.InError => false
  | Server.InFrame (FOther _ _) => false
  | Server.InFrame _ => true
  end.

(** The replies the server loop writes: RST_STREAM frames of version
    [SPDY_VERSION] with status PROTOCOL_ERROR or UNSUPPORTED_VERSION. *)
Definition serverReply `{PackageDecls} (frame : Frame) : Prop :=
  exists sid status,
    frame = FRstStream {| rs_version := SPDY_VERSION; rs_streamID := sid;
                          rs_StatusCode := status |}
    /\ (status = RST_STREAM_PROTOCOL_ERROR
        \/ status = RST_STREAM_UNSUPPORTED_VERSION).

(** A SYN_STREAM frame with its version replaced. *)
Definition withVersion (v : Z) (frame : SynStreamFrame) : SynStreamFrame :=
  {| ss_version := v; ss_streamID := ss_streamID frame;
     ss_Flags := ss_Flags frame |}.

(** The requests recorded on a stream object are never taken back. *)
Definition flagsLe (a b : Client.StreamObj) : Prop :=
  (Client.stopped a = true -> Client.stopped b = true)
  /\ (Client.cancelled a = true -> Client.cancelled b = true)
  /\ (Client.closed a = true -> Client.closed b = true)
  /\ (Client.closedThere a = true -> Client.closedThere b = true).

(** How the ingress loop lets a client connection evolve: from [a] to [b]
    the counters and the version stand still, the outbound queue and the
    inboxes are only appended to, the tables only lose entries, the error
    count does not decrease, GOAWAY is not taken back, a closed inbox or
    notifier is frozen, and no request to a stream is taken back. *)
Record evolves (a b : Client.clientConnection) : Prop := mkEvolves {
  ev_version : Client.version b = Client.version a;
  ev_nextServer : Client.nextServerStreamID b = Client.nextServerStreamID a;
  ev_nextClient : Client.nextClientStreamID b = Client.nextClientStreamID a;
  ev_pingID : Client.pingID b = Client.pingID a;
  ev_nextRef : Client.nextRef b = Client.nextRef a;
  ev_done : Client.done b = Client.done a;
  ev_dataOutput : Client.dataOutput a `prefix_of` Client.dataOutput b;
  ev_streams : Client.streams b ⊆ Client.streams a;
  ev_streamInputs : Client.streamInputs b ⊆ Client.streamInputs a;
  ev_pings : Client.pings b ⊆ Client.pings a;
  ev_errors : Client.numBenignErrors a <= Client.numBenignErrors b;
  ev_goaway : Client.goaway a = true -> Client.goaway b = true;
  ev_buf : forall c,
    Client.ch_buf (Client.chanStore a c)
    `prefix_of` Client.ch_buf (Client.chanStore b c);
  ev_closed : forall c,
    Client.ch_closed (Client.chanStore a c) = true ->
    Client.chanStore b c = Client.chanStore a c;
  ev_flags : forall s,
    flagsLe (Client.streamStore a s) (Client.streamStore b s);
  ev_notifier : forall c,
    Client.bc_closed (Client.pingStore a c) = true ->
    Client.pingStore b c = Client.pingStore a c
}.

(** A handler every run of which lets the connection evolve. *)
Definition evolving {A} (m : M Client.clientConnection A) : Prop :=
  forall conn, evolves conn (m conn).2.

(** The inbox table is fit for [cleanup]: every inbox in it is open and
    registered once, and its key has a stream in [streams]. *)
Definition inboxesOk (conn : Client.clientConnection) : bool :=
  forallb (Client.inboxOk conn) (map_to_list (Client.streamInputs conn))
  && bool_decide (NoDup (map_to_list (Client.streamInputs conn)).*2).

(** The last setting of a SETTINGS frame that carries the ID [id], if any. *)
Definition lastSetting (id : Z) (settings : list Setting) : option Setting :=
  last (filter (fun s => set_ID s = id) settings).

(** The streams the GOAWAY case cancels among the entries of [streams]:
    those under an odd ID above the last good stream ID. *)
Definition cancelTargets (lastProcessed : Z) (entries : list (Z * nat))
  : list nat :=
  (filter (fun e : Z * nat => Z.land e.1 1 <> 0 /\ lastProcessed < e.1)
          entries).*2.

(** The stream store after cancelling the streams [ss]. *)
Definition cancelAll (store : nat -> Client.StreamObj) (ss : list nat)
  : nat -> Client.StreamObj :=
  foldl (fun st s => alter Client.Cancel s st) store ss.





(** The client with the streams 1, 2 and 3, where the inbox of stream 1
    has been closed behind the back of the tables. *)
Definition clientStaleInbox : Client.clientConnection :=
  Client.set_chanStore
    (<[10%nat := Client.mkChan [] true]> (Client.chanStore clientWithStreams))
    clientWithStreams.

(** The two SYN_STREAM inputs used in the examples of the server loop. *)
Definition synInput (sid : Z) : Server.input :=
  Server.InFrame (FSynStream (mkSynStream 3 sid 0)).
(** * Properties of the server connection *)

Section ServerProperties.
Context `{PackageDecls}.

(** The SYN_STREAM case on a frame that passes every check: the stream is
    stored under the frame's ID and started, and nothing is written. *)
Lemma server_caseSynStream_accept (conn : Server.connection)
    (frame : SynStreamFrame) :
  Server.goaway conn = false ->
  (ss_version frame = Server.version conn \/ ss_version frame <= SPDY_VERSION) ->
  Z.land (ss_streamID frame) 1 <> 0 ->
  ss_streamID frame = wrap32 (Server.nextClientStreamID conn + 2) ->
  ss_streamID frame <= MAX_STREAM_ID ->
  Server.caseSynStream frame conn
  = (Ok tt,
     Server.set_streams
       (<[ss_streamID frame := Server.run (Server.newStream frame)]>
          (Server.streams conn)) conn).
Proof.
  intros Hgo Hver Hodd Hseq Hmax.
  unfold Server.caseSynStream. rewrite Hgo.
  assert (negb (ss_version frame =? Server.version conn)
          && (SPDY_VERSION <? ss_version frame) = false) as ->.
  { destruct Hver as [-> | Hle].
    - by rewrite Z.eqb_refl.
    - apply andb_false_iff. right. by apply Z.ltb_ge. }
  apply Z.eqb_neq in Hodd. rewrite Hodd.
  rewrite <- Hseq, Z.eqb_refl. simpl negb. cbv iota.
  apply Z.ltb_ge in Hmax. rewrite Hmax.
  unfold bind, modify. simpl.
  f_equal. unfold Server.set_streams. simpl. f_equal.
  by rewrite alter_insert_eq.
Qed.

(** The SYN_STREAM case never touches the counter of remote streams. *)
Lemma server_caseSynStream_next (conn : Server.connection)
    (frame : SynStreamFrame) :
  Server.nextClientStreamID (Server.caseSynStream frame conn).2
  = Server.nextClientStreamID conn.
Proof.
  unfold Server.caseSynStream.
  repeat (case_match; try reflexivity).
Qed.

End ServerProperties.

(** * Properties of the client connection *)

Section ClientTeardown.
Import Client.

(** A handler that ended the goroutine is not followed by anything. *)
Lemma bind_exited {St} (m : M St unit) (k : unit -> M St unit) (s : St) :
  exited (m s) = true -> bind m k s = m s.
Proof.
  unfold exited, bind. by destruct (m s) as [[[]|e] s'].
Qed.

Lemma exited_Exit {St A} (e : exit) (s : St) : exited (@Exit A e, s) = true.
Proof. reflexivity. Qed.

(** One turn of the [cleanup] loop. *)
Lemma cleanupLoop_cons (sid : Z) (c : nat) (rest : list (Z * nat))
    (conn : clientConnection) :
  cleanupLoop ((sid, c) :: rest) conn
  = if ch_closed (chanStore conn c) then (Exit Panicked, conn)
    else
      let conn1 :=
        set_chanStore
          (alter (fun ch => mkChan (ch_buf ch) true) c (chanStore conn)) conn in
      match streams conn !! sid with
      | None => (Exit Panicked, conn1)
      | Some st =>
          cleanupLoop rest
            (set_streamStore (alter Stop st (streamStore conn1)) conn1)
      end.
Proof.
  simpl. unfold bind, close, call.
  destruct (ch_closed (chanStore conn c)); [done|]. simpl.
  by destruct (streams conn !! sid).
Qed.

(** What no run of the [cleanup] loop changes: the tables it ranges over,
    the frames handed to the sender, the error count, and the frames
    queued in any inbox. *)
Lemma cleanupLoop_frame (entries : list (Z * nat)) (conn : clientConnection) :
  let r := cleanupLoop entries conn in
  dataOutput r.2 = dataOutput conn
  /\ numBenignErrors r.2 = numBenignErrors conn
  /\ streams r.2 = streams conn
  /\ streamInputs r.2 = streamInputs conn
  /\ forall c, ch_buf (chanStore r.2 c) = ch_buf (chanStore conn c).
Proof.
  cbv zeta. revert conn. induction entries as [|[sid c] rest IH]; intros conn.
  - done.
  - rewrite cleanupLoop_cons.
    destruct (ch_closed (chanStore conn c)) eqn:Hc; [done|]. cbv zeta.
    destruct (streams conn !! sid) as [st|]; simpl.
    + match goal with |- context [cleanupLoop rest ?k] =>
        destruct (IH k) as (H1 & H2 & H3 & H4 & H5) end.
      simpl in H1, H2, H3, H4, H5.
      rewrite H1, H2, H3, H4. repeat split; try done.
      intros c'. rewrite H5.
      unfold alter, fn_alter. by destruct (decide (c = c')) as [->|].
    + repeat split; try done. intros c'.
      unfold alter, fn_alter. by destruct (decide (c = c')) as [->|].
Qed.

Lemma cleanup_eq (conn : clientConnection) :
  cleanup conn
  = match cleanupLoop (map_to_list (streamInputs conn)) conn with
    | (Ok _, conn') => (Ok tt, set_streams ∅ (set_streamInputs ∅ conn'))
    | (Exit e, conn') => (Exit e, conn')
    end.
Proof.
  unfold cleanup, bind, modify.
  by destruct (cleanupLoop _ conn) as [[[]|e] conn'].
Qed.

Lemma cleanup_frame (conn : clientConnection) :
  let r := cleanup conn in
  dataOutput r.2 = dataOutput conn
  /\ numBenignErrors r.2 = numBenignErrors conn
  /\ forall c, ch_buf (chanStore r.2 c) = ch_buf (chanStore conn c).
Proof.
  cbv zeta. rewrite cleanup_eq.
  destruct (cleanupLoop_frame (map_to_list (streamInputs conn)) conn)
    as (H1 & H2 & _ & _ & H5).
  by destruct (cleanupLoop _ conn) as [[[]|e] conn'].
Qed.

Lemma PROTOCOL_ERROR_eq (streamID : Z) (conn : clientConnection) :
  PROTOCOL_ERROR streamID conn
  = match cleanup (set_dataOutput
                     (dataOutput conn ++ [protocolErrorFrame conn streamID])
                     conn) with
    | (Ok _, conn') => (Exit Goexited, conn')
    | (Exit e, conn') => (Exit e, conn')
    end.
Proof.
  unfold PROTOCOL_ERROR, bind, WriteFrame, modify, stop.
  by destruct (cleanup _) as [[[]|e] conn'].
Qed.

(** [PROTOCOL_ERROR] always ends the goroutine, after enqueuing its
    RST_STREAM; it queues nothing in any inbox and counts no error. *)
Lemma PROTOCOL_ERROR_exits (streamID : Z) (conn : clientConnection) :
  let r := PROTOCOL_ERROR streamID conn in
  exited r = true
  /\ dataOutput r.2 = dataOutput conn ++ [protocolErrorFrame conn streamID]
  /\ numBenignErrors r.2 = numBenignErrors conn
  /\ forall c, ch_buf (chanStore r.2 c) = ch_buf (chanStore conn c).
Proof.
  cbv zeta. rewrite PROTOCOL_ERROR_eq.
  match goal with |- context [cleanup ?k] =>
    destruct (cleanup_frame k) as (H1 & H2 & H3);
    destruct (cleanup k) as [[[]|e] conn'] end; done.
Qed.

End ClientTeardown.

Section ClientCleanup.
Import Client.

Lemma closeAll_buf (cs : list nat) (store : nat -> Chan) (c : nat) :
  ch_buf (closeAll store cs c) = ch_buf (store c).
Proof.
  revert store. induction cs as [|a cs IH]; intros store; [done|].
  simpl. rewrite IH. unfold alter, fn_alter.
  by destruct (decide (a = c)) as [->|].
Qed.

Lemma closeAll_mono (cs : list nat) (store : nat -> Chan) (c : nat) :
  ch_closed (store c) = true -> ch_closed (closeAll store cs c) = true.
Proof.
  revert store. induction cs as [|a cs IH]; intros store Hc; [done|].
  simpl. apply IH. unfold alter, fn_alter.
  by destruct (decide (a = c)) as [->|].
Qed.

Lemma closeAll_closed (cs : list nat) (store : nat -> Chan) (c : nat) :
  c ∈ cs -> ch_closed (closeAll store cs c) = true.
Proof.
  revert store. induction cs as [|a cs IH]; intros store Hin.
  - by apply elem_of_nil in Hin.
  - apply elem_of_cons in Hin as [->|Hin]; simpl.
    + apply closeAll_mono. by rewrite fn_lookup_alter.
    + by apply IH.
Qed.

Lemma stopAll_mono (ss : list nat) (store : nat -> StreamObj) (s : nat) :
  stopped (store s) = true -> stopped (stopAll store ss s) = true.
Proof.
  revert store. induction ss as [|a ss IH]; intros store Hs; [done|].
  simpl. apply IH. unfold alter, fn_alter.
  by destruct (decide (a = s)) as [->|].
Qed.

Lemma stopAll_stopped (ss : list nat) (store : nat -> StreamObj) (s : nat) :
  s ∈ ss -> stopped (stopAll store ss s) = true.
Proof.
  revert store. induction ss as [|a ss IH]; intros store Hin.
  - by apply elem_of_nil in Hin.
  - apply elem_of_cons in Hin as [->|Hin]; simpl.
    + apply stopAll_mono. by rewrite fn_lookup_alter.
    + by apply IH.
Qed.

(** The [cleanup] loop on open inboxes of registered streams, each inbox
    listed once: it closes them all and stops their streams. *)
Lemma cleanupLoop_ok (entries : list (Z * nat)) (conn : clientConnection) :
  NoDup entries.*2 ->
  (forall sid c, (sid, c) ∈ entries ->
     ch_closed (chanStore conn c) = false /\ is_Some (streams conn !! sid)) ->
  cleanupLoop entries conn
  = (Ok tt,
     set_streamStore (stopAll (streamStore conn) (streamsOf conn entries))
       (set_chanStore (closeAll (chanStore conn) entries.*2) conn)).
Proof.
  revert conn. induction entries as [|[sid c] rest IH]; intros conn Hnd Hok.
  - by destruct conn.
  - rewrite cleanupLoop_cons.
    destruct (Hok sid c) as [Hc [st Hst]]; [left|].
    rewrite Hc, Hst. cbv zeta.
    simpl in Hnd. apply NoDup_cons in Hnd as [Hnotin Hnd].
    rewrite IH; [|done|].
    + unfold streamsOf. simpl. by rewrite Hst.
    + intros sid' c' Hin. simpl.
      destruct (Hok sid' c') as [Hc' Hs']; [by right|]. split; [|done].
      rewrite fn_lookup_alter_ne; [done|].
      intros ->. apply Hnotin. apply list_elem_of_fmap.
      by exists (sid', c').
Qed.

(** The stores after the loop, entry by entry. *)
Lemma closeAll_lookup (cs : list nat) (store : nat -> Chan) (c : nat) :
  closeAll store cs c
  = if decide (c ∈ cs) then mkChan (ch_buf (store c)) true else store c.
Proof.
  revert store. induction cs as [|a cs IH]; intros store; [done|].
  simpl. rewrite IH. unfold alter, fn_alter.
  destruct (decide (c ∈ cs)) as [Hin|Hnotin];
    destruct (decide (c ∈ a :: cs)) as [Hin'|Hnotin'];
    destruct (decide (a = c)) as [->|Hne]; try done.
  - exfalso. apply Hnotin', elem_of_cons. by right.
  - exfalso. apply Hnotin', elem_of_cons. by right.
  - apply elem_of_cons in Hin' as [->|Hin']; done.
  - exfalso. apply Hnotin', elem_of_cons. by left.
Qed.

Lemma stopAll_lookup (ss : list nat) (store : nat -> StreamObj) (s : nat) :
  stopAll store ss s = if decide (s ∈ ss) then Stop (store s) else store s.
Proof.
  revert store. induction ss as [|a ss IH]; intros store; [done|].
  simpl. rewrite IH. unfold alter, fn_alter.
  destruct (decide (s ∈ ss)) as [Hin|Hnotin];
    destruct (decide (s ∈ a :: ss)) as [Hin'|Hnotin'];
    destruct (decide (a = s)) as [->|Hne]; try done.
  - exfalso. apply Hnotin', elem_of_cons. by right.
  - exfalso. apply Hnotin', elem_of_cons. by right.
  - apply elem_of_cons in Hin' as [->|Hin']; done.
  - exfalso. apply Hnotin', elem_of_cons. by left.
Qed.

(** Go visits the entries of a map in no fixed order.  On open inboxes of
    registered streams the order does not matter: any two orders of the
    same entries complete and leave the same inboxes and the same streams
    behind. *)
Lemma cleanupLoop_order (entries entries' : list (Z * nat))
    (conn : clientConnection) :
  entries ≡ₚ entries' ->
  NoDup entries.*2 ->
  (forall sid c, (sid, c) ∈ entries ->
     ch_closed (chanStore conn c) = false /\ is_Some (streams conn !! sid)) ->
  let r := cleanupLoop entries conn in
  let r' := cleanupLoop entries' conn in
  r.1 = Ok tt /\ r'.1 = Ok tt
  /\ (forall c, chanStore r.2 c = chanStore r'.2 c)
  /\ (forall s, streamStore r.2 s = streamStore r'.2 s).
Proof.
  intros Hperm Hnd Hok. cbv zeta.
  rewrite (cleanupLoop_ok entries) by done.
  rewrite (cleanupLoop_ok entries').
  - simpl. split; [done|]. split; [done|]. split.
    + intros c. rewrite !closeAll_lookup.
      destruct (decide (c ∈ entries.*2)) as [Hin|Hnotin].
      * by rewrite decide_True by (by rewrite <- Hperm).
      * by rewrite decide_False by (by rewrite <- Hperm).
    + intros s. rewrite !stopAll_lookup. unfold streamsOf.
      destruct (decide (s ∈ omap (fun e => streams conn !! e.1) entries))
        as [Hin|Hnotin].
      * by rewrite decide_True by (by rewrite <- Hperm).
      * by rewrite decide_False by (by rewrite <- Hperm).
  - by rewrite <- Hperm.
  - intros sid c Hin. apply Hok. by rewrite Hperm.
Qed.

(** [tablesOk] spelled out. *)
Lemma tablesOk_spec (conn : clientConnection) :
  tablesOk conn = true ->
  NoDup (map_to_list (streamInputs conn)).*2
  /\ (forall sid c, streamInputs conn !! sid = Some c ->
        ch_closed (chanStore conn c) = false
        /\ is_Some (streams conn !! sid))
  /\ (forall sid st, streams conn !! sid = Some st ->
        is_Some (streamInputs conn !! sid)).
Proof.
  unfold tablesOk. intros Hok.
  apply andb_true_iff in Hok as [Hok Hstreams].
  apply andb_true_iff in Hok as [Hinbox Hnd].
  apply bool_decide_eq_true in Hnd.
  rewrite forallb_forall in Hinbox. rewrite forallb_forall in Hstreams.
  split; [done|]. split.
  - intros sid c Hin. apply elem_of_map_to_list in Hin.
    apply list_elem_of_In, Hinbox in Hin. unfold inboxOk in Hin.
    apply andb_true_iff in Hin as [Hopen Hreg].
    apply negb_true_iff in Hopen. by apply bool_decide_eq_true in Hreg.
  - intros sid st Hin. apply elem_of_map_to_list in Hin.
    apply list_elem_of_In, Hstreams in Hin.
    by apply bool_decide_eq_true in Hin.
Qed.

(** [cleanup] on consistent tables: every inbox is closed, every stream is
    stopped, and both tables are emptied. *)
Lemma cleanup_ok (conn : clientConnection) :
  tablesOk conn = true ->
  exists conn',
    cleanup conn = (Ok tt, conn')
    /\ streams conn' = ∅ /\ streamInputs conn' = ∅
    /\ dataOutput conn' = dataOutput conn
    /\ (forall sid c, streamInputs conn !! sid = Some c ->
          ch_closed (chanStore conn' c) = true)
    /\ (forall sid st, streams conn !! sid = Some st ->
          stopped (streamStore conn' st) = true).
Proof.
  intros Hok. apply tablesOk_spec in Hok as (Hnd & Hinbox & Hstreams).
  rewrite cleanup_eq, cleanupLoop_ok; [|done|].
  - eexists. split; [done|]. simpl. repeat split; try done.
    + intros sid c Hin. apply closeAll_closed.
      apply list_elem_of_fmap. exists (sid, c). split; [done|].
      by apply elem_of_map_to_list.
    + intros sid st Hin. apply stopAll_stopped.
      destruct (Hstreams sid st Hin) as [c Hc].
      unfold streamsOf. apply list_elem_of_omap. exists (sid, c).
      split; [by apply elem_of_map_to_list|done].
  - intros sid c Hin. apply Hinbox. by apply elem_of_map_to_list.
Qed.

End ClientCleanup.

(** * Invariants of the runs of the client *)

Section ClientRuns.
Import Client.
Context `{PackageDecls}.

(** Closes the goals on handlers that touch neither the registry, nor the
    count, nor the keys of the tables. *)
Ltac quiet_leaf :=
  unfold quiet, noStreams, modify, ret, stop, WriteFrame; simpl;
  intuition congruence.

Lemma quiet_refl {e : res unit} (conn : clientConnection) :
  quiet conn (e, conn).
Proof. quiet_leaf. Qed.

Lemma quiet_bind (m : M clientConnection unit)
    (k : unit -> M clientConnection unit) (conn : clientConnection) :
  quiet conn (m conn) ->
  (forall conn', quiet conn' (k tt conn')) ->
  quiet conn (bind m k conn).
Proof.
  intros Hm Hk. unfold bind. destruct (m conn) as [[[]|e] conn']; [|done].
  destruct (Hk conn') as (Hk1 & Hk2 & Hk3 & Hk4 & Hk5).
  destruct Hm as (Hm1 & Hm2 & Hm3 & Hm4 & Hm5). simpl in *.
  unfold quiet. split; [congruence|]. split; [congruence|].
  split; [congruence|]. split; [congruence|]. auto.
Qed.

Lemma quiet_send (c : option nat) (frame : Frame) (conn : clientConnection) :
  quiet conn (send c frame conn).
Proof.
  unfold send. destruct c as [r|]; [|done].
  by destruct (ch_closed (chanStore conn r)).
Qed.

Lemma quiet_close (c : option nat) (conn : clientConnection) :
  quiet conn (close c conn).
Proof.
  unfold close. destruct c as [r|]; [|done].
  by destruct (ch_closed (chanStore conn r)).
Qed.

Lemma quiet_call (s : option nat) (method : StreamObj -> StreamObj)
    (conn : clientConnection) :
  quiet conn (call s method conn).
Proof. unfold call. by destruct s. Qed.

Lemma quiet_cleanupLoop (entries : list (Z * nat)) (conn : clientConnection) :
  quiet conn (cleanupLoop entries conn).
Proof.
  revert conn. induction entries as [|[sid c] rest IH]; intros conn; [done|].
  simpl. apply quiet_bind; [apply quiet_close|]. intros conn1.
  apply quiet_bind; [apply quiet_call|]. intros conn2. apply IH.
Qed.

Lemma quiet_cleanup (conn : clientConnection) : quiet conn (cleanup conn).
Proof.
  unfold cleanup. apply quiet_bind; [apply quiet_cleanupLoop|].
  intros conn1. apply quiet_bind; [quiet_leaf|]. intros conn2. quiet_leaf.
Qed.

Lemma quiet_PROTOCOL_ERROR (streamID : Z) (conn : clientConnection) :
  quiet conn (PROTOCOL_ERROR streamID conn).
Proof.
  unfold PROTOCOL_ERROR. apply quiet_bind; [done|]. intros conn1.
  apply quiet_bind; [apply quiet_cleanup|]. by intros conn2.
Qed.

Lemma quiet_closeStream (streamID : Z) (conn : clientConnection) :
  quiet conn (closeStream streamID conn).
Proof.
  unfold closeStream. destruct (streamID =? 0); [done|].
  apply quiet_bind; [apply quiet_call|]. intros conn1.
  apply quiet_bind; [apply quiet_call|]. intros conn2.
  apply quiet_bind; [apply quiet_close|]. intros conn3.
  unfold modify, quiet, noStreams. simpl.
  split; [done|]. split; [done|]. split; [done|]. split; [done|].
  intros [-> ->]. split; [apply delete_empty | done].
Qed.

Lemma quiet_cancelLoop (lastProcessed : Z) (entries : list (Z * nat))
    (conn : clientConnection) :
  quiet conn (cancelLoop lastProcessed entries conn).
Proof.
  revert conn. induction entries as [|[sid s] rest IH]; intros conn; [done|].
  simpl. apply quiet_bind; [|intros conn1; apply IH].
  destruct (_ && _); [apply quiet_call | done].
Qed.

Lemma quiet_settingsLoop (settings : list Setting) (conn : clientConnection) :
  quiet conn (settingsLoop settings conn).
Proof.
  revert conn. induction settings as [|s rest IH]; intros conn; [done|].
  simpl. apply quiet_bind; [done|]. intros conn1.
  apply quiet_bind; [|intros conn2; apply IH].
  by destruct (_ && _).
Qed.

Lemma counts_handleRstStream (frame : RstStreamFrame)
    (conn : clientConnection) :
  counts conn (handleRstStream frame conn).
Proof.
  unfold handleRstStream.
  destruct (_ =? RST_STREAM_INVALID_STREAM); [by right|].
  destruct (_ =? RST_STREAM_REFUSED_STREAM);
    [left; apply quiet_closeStream|].
  destruct (_ =? RST_STREAM_CANCEL).
  { destruct (_ =? 0); [by right | left; apply quiet_closeStream]. }
  destruct (_ =? RST_STREAM_FLOW_CONTROL_ERROR); [by right|].
  destruct (_ =? RST_STREAM_STREAM_IN_USE); [by right|].
  destruct (_ =? RST_STREAM_STREAM_ALREADY_CLOSED); [by right|].
  destruct (_ =? RST_STREAM_INVALID_CREDENTIALS); [by right|].
  left. apply quiet_PROTOCOL_ERROR.
Qed.

Lemma counts_handleDataFrame (frame : DataFrame) (conn : clientConnection) :
  counts conn (handleDataFrame frame conn).
Proof.
  unfold handleDataFrame.
  destruct (_ =? 0); [by right|]. destruct (notOpen _ _); [by right|].
  left. apply quiet_bind; [apply quiet_send|]. intros conn1.
  destruct (negb _); [apply quiet_call | done].
Qed.

Lemma counts_handleHeadersFrame (frame : HeadersFrame)
    (conn : clientConnection) :
  counts conn (handleHeadersFrame frame conn).
Proof.
  unfold handleHeadersFrame.
  destruct (_ =? 0); [by right|]. destruct (notOpen _ _); [by right|].
  left. apply quiet_bind; [apply quiet_send|]. intros conn1.
  destruct (negb _); [apply quiet_call | done].
Qed.

Lemma counts_handleWindowUpdateFrame (frame : WindowUpdateFrame)
    (conn : clientConnection) :
  counts conn (handleWindowUpdateFrame frame conn).
Proof.
  unfold handleWindowUpdateFrame.
  destruct (_ =? 0); [by right|]. destruct (notOpen _ _); [by right|].
  left. apply quiet_bind; [|intros conn1; apply quiet_send].
  destruct (_ || _); [apply quiet_PROTOCOL_ERROR | done].
Qed.

(** Every case of the type switch but PING is one of the two. *)
Lemma counts_handleFrame (frame : Frame) (conn : clientConnection) :
  (forall f, frame <> FPing f) ->
  counts conn (handleFrame frame conn).
Proof.
  intros Hping. destruct frame; simpl; try by left.
  - destruct (StatusCodeIsFatal _); [by left|]. apply counts_handleRstStream.
  - left. apply quiet_settingsLoop.
  - by destruct (Hping f).
  - left. apply quiet_bind; [apply quiet_cancelLoop | done].
  - apply counts_handleHeadersFrame.
  - apply counts_handleWindowUpdateFrame.
  - apply counts_handleDataFrame.
Qed.

Lemma counts_numBenignErrors (conn : clientConnection)
    (r : res unit * clientConnection) :
  counts conn r ->
  numBenignErrors conn <= numBenignErrors r.2 <= numBenignErrors conn + 1.
Proof. intros [(_ & _ & _ & Hn & _) | ->]; simpl; lia. Qed.

Lemma counts_pingsPending (conn : clientConnection)
    (r : res unit * clientConnection) :
  counts conn r -> pingsPending conn -> pingsPending r.2.
Proof.
  intros [(Hp & Hs & Hr & _) | ->]; [|done].
  unfold pingsPending. by rewrite Hp, Hs, Hr.
Qed.

Lemma counts_noStreams (conn : clientConnection)
    (r : res unit * clientConnection) :
  counts conn r -> noStreams conn -> noStreams r.2.
Proof. intros [(_ & _ & _ & _ & Hs) | ->]; [done|done]. Qed.

Lemma casePing_noStreams (frame : PingFrame) (conn : clientConnection) :
  noStreams conn -> noStreams (casePing frame conn).2.
Proof.
  unfold casePing. destruct (negb _); [|done].
  destruct (pings conn !! pf_PingID frame) as [c|]; [|done].
  unfold bind, sendBool, closeBool, modify.
  destruct (bc_closed (pingStore conn c)); [done|].
  destruct (bc_buf (pingStore conn c)); [|done]. simpl.
  by rewrite fn_lookup_alter.
Qed.

(** The PING case: the count moves by at most one, and the registry stays
    in order. *)
Lemma casePing_numBenignErrors (frame : PingFrame) (conn : clientConnection) :
  numBenignErrors conn <= numBenignErrors (casePing frame conn).2
  <= numBenignErrors conn + 1.
Proof.
  unfold casePing. destruct (negb _); [|simpl; lia].
  destruct (pings conn !! pf_PingID frame) as [c|]; [|simpl; lia].
  unfold bind, sendBool, closeBool, modify.
  destruct (bc_closed (pingStore conn c)); [simpl; lia|].
  destruct (bc_buf (pingStore conn c)); [|simpl; lia]. simpl.
  rewrite fn_lookup_alter. simpl. lia.
Qed.

Lemma casePing_pingsPending (frame : PingFrame) (conn : clientConnection) :
  pingsPending conn -> pingsPending (casePing frame conn).2.
Proof.
  intros [Hpending Hinj]. unfold casePing. destruct (negb _); [|done].
  destruct (pings conn !! pf_PingID frame) as [c|] eqn:Hreg; [|done].
  destruct (Hpending _ _ Hreg) as [Hfresh Hlt].
  unfold bind, sendBool, closeBool, modify. rewrite Hfresh. simpl.
  rewrite fn_lookup_alter. simpl. split.
  - intros id c' Hin. simpl in Hin.
    apply lookup_delete_Some in Hin as [Hne Hin].
    destruct (Hpending _ _ Hin) as [Hfresh' Hlt'].
    simpl. rewrite !fn_lookup_alter_ne; [done| |].
    all: intros ->; apply Hne; by apply (Hinj _ _ c').
  - intros id1 id2 c' Hin1 Hin2. simpl in Hin1, Hin2.
    apply lookup_delete_Some in Hin1 as [_ Hin1].
    apply lookup_delete_Some in Hin2 as [_ Hin2].
    by apply (Hinj _ _ c').
Qed.

Lemma Ping_pingsPending (conn : clientConnection) :
  pingsPending conn -> pingsPending (Ping conn).2.
Proof.
  intros [Hpending Hinj]. split; simpl.
  - intros id c Hin. apply lookup_insert_Some in Hin as [[_ <-] | [Hne Hin]].
    + rewrite fn_lookup_insert. split; [done | lia].
    + destruct (Hpending _ _ Hin) as [Hfresh Hlt].
      rewrite fn_lookup_insert_ne by lia. split; [done | lia].
  - intros id1 id2 c Hin1 Hin2.
    apply lookup_insert_Some in Hin1 as [[<- <-] | [Hne1 Hin1]];
      apply lookup_insert_Some in Hin2 as [[<- Hc] | [Hne2 Hin2]];
      try done.
    + destruct (Hpending _ _ Hin2) as [_ Hlt]. lia.
    + subst c. destruct (Hpending _ _ Hin1) as [_ Hlt]. lia.
    + by apply (Hinj _ _ c).
Qed.

(** One turn of the loop: the error count grows by at most one, a turn
    that completes started within budget, and the ping registry stays in
    order. *)
Lemma iteration_invariant (i : input) (conn : clientConnection) :
  let r := iteration i conn in
  numBenignErrors conn <= numBenignErrors r.2 <= numBenignErrors conn + 1
  /\ (r.1 = Ok tt -> numBenignErrors conn <= MaxBenignErrors)
  /\ (pingsPending conn -> pingsPending r.2)
  /\ (noStreams conn -> noStreams r.2).
Proof.
  cbv zeta. unfold iteration, bind, checkBenignErrors.
  destruct (MaxBenignErrors <? numBenignErrors conn) eqn:Hover.
  - pose proof (quiet_PROTOCOL_ERROR 0 conn) as Hquiet.
    destruct (PROTOCOL_ERROR_exits 0 conn) as (Hexit & _).
    unfold exited in Hexit.
    destruct (PROTOCOL_ERROR 0 conn) as [[[]|e] conn'] eqn:Hpe; [done|].
    split; [|split; [done|split]].
    + destruct Hquiet as (_ & _ & _ & Hn & _). simpl in *. lia.
    + apply (counts_pingsPending conn (Exit e, conn')). by left.
    + apply (counts_noStreams conn (Exit e, conn')). by left.
  - apply Z.ltb_ge in Hover. unfold ret.
    assert (forall r, counts conn r ->
              numBenignErrors conn <= numBenignErrors r.2
              <= numBenignErrors conn + 1
              /\ (r.1 = Ok tt -> numBenignErrors conn <= MaxBenignErrors)
              /\ (pingsPending conn -> pingsPending r.2)
              /\ (noStreams conn -> noStreams r.2)) as Hcounts.
    { intros r Hr. split; [by apply counts_numBenignErrors|].
      split; [done|]. split; [by apply counts_pingsPending|].
      by apply counts_noStreams. }
    destruct i as [frame [] | |]; try (apply Hcounts; by left).
    unfold receive. destruct (validFrameVersion frame conn); simpl negb;
      cbv iota; [|apply Hcounts; by left].
    assert ((exists f, frame = FPing f) \/ (forall f, frame <> FPing f))
      as [[f ->] | Hother]
      by (destruct frame; first [by right | left; by eexists]).
    + simpl handleFrame. split; [apply casePing_numBenignErrors|].
      split; [done|].
      split; [apply casePing_pingsPending | apply casePing_noStreams].
    + by apply Hcounts, counts_handleFrame.
Qed.

(** On every connection a run of the client reaches, the ping registry is
    in order, no stream is registered (the client has no code that enters
    one into its tables), and the error count is at most one above the
    budget (or 0, for a negative budget): the increments of the counter do
    not overflow a Go [int]. *)
Lemma reachable_invariant (conn : clientConnection) :
  reachable conn ->
  pingsPending conn
  /\ noStreams conn
  /\ 0 <= numBenignErrors conn <= Z.max 0 (MaxBenignErrors + 1).
Proof.
  induction 1
    as [v | conn Hreach (IHp & IHs & IHn) | conn i Hreach (IHp & IHs & IHn) Hok].
  - split; [|split; [done | simpl; lia]]. split; simpl.
    + intros id c Hin. by rewrite lookup_empty in Hin.
    + intros id1 id2 c Hin. by rewrite lookup_empty in Hin.
  - split; [by apply Ping_pingsPending|]. split; [done | simpl; lia].
  - destruct (iteration_invariant i conn) as (Hn & Hbudget & Hp & Hs).
    split; [by apply Hp|]. split; [by apply Hs|].
    specialize (Hbudget Hok). lia.
Qed.

(** Empty tables are consistent. *)
Lemma noStreams_tablesOk (conn : clientConnection) :
  noStreams conn -> tablesOk conn = true.
Proof.
  intros [Hs Hi]. unfold tablesOk. by rewrite Hs, Hi, map_to_list_empty.
Qed.

End ClientRuns.

Section ClientLoop.
Import Client.
Context `{PackageDecls}.

(** Within budget, a frame of the connection's version whose headers
    decompressed reaches the type switch. *)
Lemma iteration_dispatch (conn : clientConnection) (frame : Frame) :
  numBenignErrors conn <= MaxBenignErrors ->
  validFrameVersion frame conn = true ->
  iteration (InFrame frame true) conn = handleFrame frame conn.
Proof.
  intros Hbudget Hver. unfold iteration, bind, checkBenignErrors.
  apply Z.ltb_ge in Hbudget. rewrite Hbudget. unfold ret, receive.
  by rewrite Hver.
Qed.

(** Over budget, every turn of the loop is [PROTOCOL_ERROR(0)]. *)
Lemma checkBenignErrors_over (conn : clientConnection) :
  MaxBenignErrors < numBenignErrors conn ->
  checkBenignErrors conn = PROTOCOL_ERROR 0 conn.
Proof.
  intros Hover. unfold checkBenignErrors.
  apply Z.ltb_lt in Hover. by rewrite Hover.
Qed.

Lemma iteration_over (conn : clientConnection) (i : input) :
  MaxBenignErrors < numBenignErrors conn ->
  iteration i conn = PROTOCOL_ERROR 0 conn.
Proof.
  intros Hover. unfold iteration.
  rewrite bind_exited; rewrite checkBenignErrors_over by done; [done|].
  apply PROTOCOL_ERROR_exits.
Qed.

Lemma readFrames_over (conn : clientConnection) (inputs : list input) :
  MaxBenignErrors < numBenignErrors conn ->
  readFrames inputs conn = PROTOCOL_ERROR 0 conn.
Proof.
  intros Hover. destruct inputs as [|i rest]; simpl.
  - by apply checkBenignErrors_over.
  - rewrite bind_exited; rewrite iteration_over by done; [done|].
    apply PROTOCOL_ERROR_exits.
Qed.

(** C1.  Whenever [numBenignErrors] exceeds [MaxBenignErrors], the next turn
    of the ingress loop, whatever the transport delivers, is
    [PROTOCOL_ERROR(0)]: it enqueues RST_STREAM(stream 0, PROTOCOL_ERROR) on
    the outbound queue, runs [cleanup] and ends the ingress goroutine without
    handling a frame.  On every connection a run of the client reaches, and
    on every connection with consistent tables, [cleanup] closes every stream
    inbox, stops every stream and empties both tables, and the goroutine
    ends by [Goexit]. *)
Theorem client_budget_overflow (conn : clientConnection)
    (inputs : list input) :
  MaxBenignErrors < numBenignErrors conn ->
  let r := readFrames inputs conn in
  r = PROTOCOL_ERROR 0 conn
  /\ (forall i, iteration i conn = r)
  /\ exited r = true
  /\ dataOutput r.2 = dataOutput conn ++ [protocolErrorFrame conn 0]
  /\ (reachable conn \/ tablesOk conn = true ->
      r.1 = Exit Goexited
      /\ streams r.2 = ∅ /\ streamInputs r.2 = ∅
      /\ (forall sid c, streamInputs conn !! sid = Some c ->
            ch_closed (chanStore r.2 c) = true)
      /\ (forall sid st, streams conn !! sid = Some st ->
            stopped (streamStore r.2 st) = true)).
Proof.
  intros Hover r. subst r. rewrite readFrames_over by done.
  split; [done|]. split; [intros i; by apply iteration_over|].
  destruct (PROTOCOL_ERROR_exits 0 conn) as (Hexit & Hout & _ & _).
  split; [done|]. split; [done|].
  intros Hok.
  assert (tablesOk conn = true) as Hok'.
  { destruct Hok as [Hreach | Hok]; [|done].
    by apply noStreams_tablesOk, reachable_invariant. }
  clear Hok. rename Hok' into Hok. rewrite PROTOCOL_ERROR_eq.
  destruct (cleanup_ok
              (set_dataOutput (dataOutput conn ++ [protocolErrorFrame conn 0])
                              conn) Hok)
    as (conn' & -> & Hs & Hi & _ & Hclosed & Hstopped).
  done.
Qed.

End ClientLoop.

Lemma client_budget_overflow_witness :
  let r := @Client.readFrames exampleDecls [] clientOverBudget in
  @MaxBenignErrors exampleDecls < Client.numBenignErrors clientOverBudget
  /\ Client.tablesOk clientOverBudget = true
  /\ r.1 = Exit Goexited
  /\ Client.dataOutput r.2
     = [FRstStream (mkRstStream 3 0 RST_STREAM_PROTOCOL_ERROR)]
  /\ Client.streams r.2 = ∅
  /\ Client.ch_closed (Client.chanStore r.2 12%nat) = true
  /\ Client.stopped (Client.streamStore r.2 2%nat) = true.
Proof.
  assert (@MaxBenignErrors exampleDecls
          < Client.numBenignErrors clientOverBudget) as Hover
    by (vm_compute; reflexivity).
  assert (Client.tablesOk clientOverBudget = true) as Hok
    by (vm_compute; reflexivity).
  destruct (@client_budget_overflow exampleDecls clientOverBudget [] Hover)
    as (_ & _ & _ & Hout & Htables).
  destruct (Htables (or_intror Hok))
    as (Hexit & Hs & _ & Hclosed & Hstopped).
  cbv zeta. split; [exact Hover|]. split; [exact Hok|].
  split; [exact Hexit|]. split; [exact Hout|]. split; [exact Hs|].
  split; [apply (Hclosed 3); reflexivity | apply (Hstopped 3); reflexivity].
Defined.

Section ClientPing.
Import Client.
Context `{PackageDecls}.

(** [Ping] registers a fresh, open and empty notifier under the ping ID it
    sends, and moves on to the next ID of the same parity. *)
Lemma Ping_registers (conn : clientConnection) :
  exists conn',
    Ping conn = (Ok (nextRef conn), conn')
    /\ pings conn' = <[pingID conn := nextRef conn]> (pings conn)
    /\ pingStore conn' (nextRef conn) = mkBoolChan [] false
    /\ pingID conn' = wrap32 (pingID conn + 2)
    /\ dataOutput conn'
       = dataOutput conn
         ++ [FPing (mkPing (wrap16 (version conn)) (pingID conn))]
    /\ numBenignErrors conn' = numBenignErrors conn
    /\ version conn' = version conn.
Proof.
  eexists. split; [reflexivity|]. simpl.
  by rewrite fn_lookup_insert.
Qed.

(** The PING case on a reply to a registered ping whose notifier is still
    pending. *)
Lemma casePing_reply (conn : clientConnection) (frame : PingFrame) (c : nat) :
  Z.land (pf_PingID frame) 1 <> 0 ->
  pings conn !! pf_PingID frame = Some c ->
  pingStore conn c = mkBoolChan [] false ->
  exists store',
    casePing frame conn
    = (Ok tt, set_pings (delete (pf_PingID frame) (pings conn))
                (set_pingStore store' conn))
    /\ store' c = mkBoolChan [true] true
    /\ (forall c', c' <> c -> store' c' = pingStore conn c').
Proof.
  intros Hodd Hreg Hfresh. unfold casePing.
  apply Z.eqb_neq in Hodd. rewrite Hodd, Hreg. simpl.
  unfold bind, sendBool. rewrite Hfresh. simpl.
  unfold closeBool. simpl. rewrite fn_lookup_alter. simpl.
  unfold modify. eexists. split; [reflexivity|]. split.
  - by rewrite !fn_lookup_alter.
  - intros c' Hne. by rewrite !fn_lookup_alter_ne.
Qed.

Lemma casePing_unknown (conn : clientConnection) (frame : PingFrame) :
  Z.land (pf_PingID frame) 1 <> 0 ->
  pings conn !! pf_PingID frame = None ->
  casePing frame conn
  = (Ok tt, set_numBenignErrors (numBenignErrors conn + 1) conn).
Proof.
  intros Hodd Hreg. unfold casePing.
  apply Z.eqb_neq in Hodd. by rewrite Hodd, Hreg.
Qed.

Lemma casePing_echo (conn : clientConnection) (frame : PingFrame) :
  Z.land (pf_PingID frame) 1 = 0 ->
  casePing frame conn
  = (Ok tt, set_dataOutput (dataOutput conn ++ [FPing frame]) conn).
Proof.
  intros Heven. unfold casePing.
  apply Z.eqb_eq in Heven. by rewrite Heven.
Qed.

(** C5.  A PING frame received within budget and of the connection's
    version.  With an odd ID (the client's own parity) that is registered
    in [pings], on a connection a run of the client reaches or with the
    notifier still pending: the notifier receives [true] once and is closed,
    the entry is removed, nothing else changes, and a second PING with that
    ID only counts a benign error.  With an odd ID that is not registered:
    [numBenignErrors] is incremented and nothing else changes.  With an even
    ID (the peer's parity): the same frame is enqueued for sending and
    nothing else changes. *)
Theorem client_ping (conn : clientConnection) (frame : PingFrame) :
  numBenignErrors conn <= MaxBenignErrors ->
  pf_version frame = wrap16 (version conn) ->
  let id := pf_PingID frame in
  let r := iteration (InFrame (FPing frame) true) conn in
  (Z.land id 1 <> 0 ->
   forall c, pings conn !! id = Some c ->
     reachable conn \/ pingStore conn c = mkBoolChan [] false ->
     exists store',
       r = (Ok tt, set_pings (delete id (pings conn))
                     (set_pingStore store' conn))
       /\ store' c = mkBoolChan [true] true
       /\ (forall c', c' <> c -> store' c' = pingStore conn c')
       /\ iteration (InFrame (FPing frame) true) r.2
          = (Ok tt, set_numBenignErrors (numBenignErrors conn + 1) r.2))
  /\ (Z.land id 1 <> 0 -> pings conn !! id = None ->
      r = (Ok tt, set_numBenignErrors (numBenignErrors conn + 1) conn))
  /\ (Z.land id 1 = 0 ->
      r = (Ok tt, set_dataOutput (dataOutput conn ++ [FPing frame]) conn)).
Proof.
  intros Hbudget Hver id r. subst id r.
  assert (forall k, version k = version conn ->
            validFrameVersion (FPing frame) k = true) as Hvalid.
  { intros k Hk. unfold validFrameVersion. simpl. rewrite Hk, Hver.
    apply Z.eqb_refl. }
  rewrite iteration_dispatch by auto. simpl handleFrame.
  split; [|split].
  - intros Hodd c Hreg Hfresh.
    assert (pingStore conn c = mkBoolChan [] false) as Hfresh'.
    { destruct Hfresh as [Hreach | Hfresh]; [|done].
      destruct (reachable_invariant conn Hreach) as ((Hpending & _) & _).
      by destruct (Hpending _ _ Hreg). }
    clear Hfresh. rename Hfresh' into Hfresh.
    destruct (casePing_reply conn frame c Hodd Hreg Hfresh)
      as (store' & Heq & Hc & Hother).
    exists store'. rewrite Heq. repeat split; try done. simpl.
    rewrite iteration_dispatch by auto. simpl handleFrame.
    rewrite casePing_unknown; [done|done|]. simpl.
    apply lookup_delete_eq.
  - intros Hodd Hreg. by apply casePing_unknown.
  - intros Heven. by apply casePing_echo.
Qed.

End ClientPing.

Lemma client_ping_witness :
  let frame := mkPing 3 1 in
  let r := @Client.iteration exampleDecls (Client.InFrame (FPing frame) true)
             clientPinged in
  Client.numBenignErrors clientPinged <= @MaxBenignErrors exampleDecls
  /\ pf_version frame = wrap16 (Client.version clientPinged)
  /\ Client.pings clientPinged !! 1 = Some 0%nat
  /\ Client.pingStore clientPinged 0%nat = Client.mkBoolChan [] false
  /\ r.1 = Ok tt
  /\ Client.pings r.2 !! 1 = None
  /\ Client.pingStore r.2 0%nat = Client.mkBoolChan [true] true.
Proof.
  assert (Client.numBenignErrors clientPinged <= @MaxBenignErrors exampleDecls)
    as Hbudget by (vm_compute; discriminate).
  assert (pf_version (mkPing 3 1) = wrap16 (Client.version clientPinged))
    as Hver by reflexivity.
  assert (Client.pings clientPinged !! 1 = Some 0%nat) as Hreg
    by reflexivity.
  assert (Client.pingStore clientPinged 0%nat = Client.mkBoolChan [] false)
    as Hfresh by reflexivity.
  destruct (@client_ping exampleDecls clientPinged (mkPing 3 1) Hbudget Hver)
    as (Hreply & _ & _).
  destruct (Hreply ltac:(discriminate) 0%nat Hreg (or_intror Hfresh))
    as (store' & Heq & Hc & _ & _).
  cbv zeta. rewrite Heq. simpl.
  repeat split; first [assumption | apply lookup_delete_eq].
Defined.

Section ClientStreams.
Import Client.

(** [PROTOCOL_ERROR] on consistent tables: the goroutine ends by [Goexit]
    with every inbox closed, every stream stopped and both tables empty. *)
Lemma PROTOCOL_ERROR_ok (streamID : Z) (conn : clientConnection) :
  tablesOk conn = true ->
  let r := PROTOCOL_ERROR streamID conn in
  r.1 = Exit Goexited
  /\ streams r.2 = ∅ /\ streamInputs r.2 = ∅
  /\ (forall sid c, streamInputs conn !! sid = Some c ->
        ch_closed (chanStore r.2 c) = true)
  /\ (forall sid st, streams conn !! sid = Some st ->
        stopped (streamStore r.2 st) = true).
Proof.
  intros Hok. cbv zeta. rewrite PROTOCOL_ERROR_eq.
  destruct (cleanup_ok
              (set_dataOutput
                 (dataOutput conn ++ [protocolErrorFrame conn streamID])
                 conn) Hok)
    as (conn' & -> & Hs & Hi & _ & Hclosed & Hstopped).
  done.
Qed.

(** A send to the open inbox [c]. *)
Lemma send_open (conn : clientConnection) (c : nat) (frame : Frame) :
  ch_closed (chanStore conn c) = false ->
  send (Some c) frame conn
  = (Ok tt,
     set_chanStore
       (alter (fun ch => mkChan (ch_buf ch ++ [frame]) false) c
              (chanStore conn)) conn).
Proof. intros Hopen. unfold send. by rewrite Hopen. Qed.

(** [closeStream] on a registered stream with an open inbox: the stream is
    stopped, its state and its inbox are closed, and its entry leaves
    [streams]. *)
Lemma closeStream_ok (conn : clientConnection) (sid : Z) (st c : nat) :
  sid <> 0 ->
  streams conn !! sid = Some st ->
  streamInputs conn !! sid = Some c ->
  ch_closed (chanStore conn c) = false ->
  closeStream sid conn
  = (Ok tt,
     set_streams (delete sid (streams conn))
       (set_chanStore
          (alter (fun ch => mkChan (ch_buf ch) true) c (chanStore conn))
          (set_streamStore
             (alter State_Close st (alter Stop st (streamStore conn)))
             conn))).
Proof.
  intros Hsid Hst Hc Hopen. unfold closeStream.
  apply Z.eqb_neq in Hsid. rewrite Hsid.
  unfold bind, call, close, modify. rewrite Hst. simpl. rewrite Hst. simpl.
  rewrite Hc. simpl. by rewrite Hopen.
Qed.

(** C6, as the client handles it.  An RST_STREAM with status CANCEL: when
    the stream ID is odd (the client's own parity) and the stream is
    registered with an open inbox, the stream is stopped, its state and its
    inbox are closed and its entry leaves [streams], with no error counted;
    when the stream ID is even (the peer's parity), [numBenignErrors] is
    incremented and nothing else changes. *)
Theorem client_rst_cancel (conn : clientConnection) (frame : RstStreamFrame) :
  rs_StatusCode frame = RST_STREAM_CANCEL ->
  let sid := rs_streamID frame in
  let r := handleRstStream frame conn in
  (Z.land sid 1 <> 0 ->
   forall st c, streams conn !! sid = Some st ->
     streamInputs conn !! sid = Some c ->
     ch_closed (chanStore conn c) = false ->
     r.1 = Ok tt
     /\ streams r.2 = delete sid (streams conn)
     /\ stopped (streamStore r.2 st) = true
     /\ closed (streamStore r.2 st) = true
     /\ ch_closed (chanStore r.2 c) = true
     /\ numBenignErrors r.2 = numBenignErrors conn)
  /\ (Z.land sid 1 = 0 ->
      r = (Ok tt, set_numBenignErrors (numBenignErrors conn + 1) conn)).
Proof.
  intros Hcode sid r. subst sid r.
  unfold handleRstStream. rewrite Hcode. simpl. split.
  - intros Hodd st c Hst Hc Hopen.
    assert (rs_streamID frame <> 0) as Hsid by (intros E; by rewrite E in Hodd).
    apply Z.eqb_neq in Hodd. rewrite Hodd.
    rewrite (closeStream_ok conn _ st c) by done. simpl.
    by rewrite !fn_lookup_alter.
  - intros Heven. apply Z.eqb_eq in Heven. by rewrite Heven.
Qed.

(** C8.  A WINDOW_UPDATE frame with an odd stream ID that passes the
    open-stream check.  With a delta of 0 or above [MAX_DELTA_WINDOW_SIZE]
    the handler is [PROTOCOL_ERROR] on that stream: the RST_STREAM is
    enqueued, the goroutine ends, and no inbox receives the frame.  With
    [1 <= delta <= MAX_DELTA_WINDOW_SIZE] and an open inbox registered for
    the stream, the frame is appended to that inbox and nothing else
    changes. *)
Theorem client_window_update (conn : clientConnection)
    (frame : WindowUpdateFrame) :
  let sid := wu_streamID frame in
  let delta := wu_DeltaWindowSize frame in
  let r := handleWindowUpdateFrame frame conn in
  Z.land sid 1 <> 0 ->
  notOpen conn sid = false ->
  (delta = 0 \/ MAX_DELTA_WINDOW_SIZE < delta ->
   r = PROTOCOL_ERROR sid conn
   /\ exited r = true
   /\ dataOutput r.2 = dataOutput conn ++ [protocolErrorFrame conn sid]
   /\ (forall c, ch_buf (chanStore r.2 c) = ch_buf (chanStore conn c))
   /\ (tablesOk conn = true ->
       r.1 = Exit Goexited /\ streams r.2 = ∅ /\ streamInputs r.2 = ∅))
  /\ (1 <= delta <= MAX_DELTA_WINDOW_SIZE ->
      forall c, streamInputs conn !! sid = Some c ->
        ch_closed (chanStore conn c) = false ->
        exists store',
          r = (Ok tt, set_chanStore store' conn)
          /\ store' c
             = mkChan (ch_buf (chanStore conn c) ++ [FWindowUpdate frame])
                      false
          /\ (forall c', c' <> c -> store' c' = chanStore conn c')).
Proof.
  intros sid delta r Hodd Hopen. subst sid delta r.
  unfold handleWindowUpdateFrame.
  apply Z.eqb_neq in Hodd. rewrite Hodd, Hopen. split.
  - intros Hbad.
    assert ((MAX_DELTA_WINDOW_SIZE <? wu_DeltaWindowSize frame)
            || (wu_DeltaWindowSize frame <? 1) = true) as ->.
    { apply orb_true_iff. destruct Hbad as [-> | Hbig].
      - by right.
      - left. by apply Z.ltb_lt. }
    destruct (PROTOCOL_ERROR_exits (wu_streamID frame) conn)
      as (Hexit & Hout & _ & Hbuf).
    rewrite bind_exited by done.
    split; [done|]. split; [done|]. split; [done|]. split; [done|].
    intros Hok.
    destruct (PROTOCOL_ERROR_ok (wu_streamID frame) conn Hok)
      as (Hgoexit & Hs & Hi & _).
    done.
  - intros [Hlo Hhi] c Hc Hch.
    assert ((MAX_DELTA_WINDOW_SIZE <? wu_DeltaWindowSize frame)
            || (wu_DeltaWindowSize frame <? 1) = false) as ->.
    { apply orb_false_iff. split; [apply Z.ltb_ge | apply Z.ltb_ge]; lia. }
    unfold bind, ret. rewrite Hc, send_open by done.
    eexists. split; [reflexivity|]. split.
    + by rewrite fn_lookup_alter.
    + intros c' Hne. by rewrite fn_lookup_alter_ne.
Qed.

(** C9, as the client handles it.  A DATA frame never makes the client send
    a frame.  With an even stream ID, or an odd one failing the open-stream
    check, [numBenignErrors] is incremented and nothing else changes.
    Otherwise, when an open inbox is registered for the stream, the frame is
    appended to that inbox and no error is counted; when moreover FLAG_FIN
    is set and the stream is registered, its remote half is marked
    closed. *)
Theorem client_data_frame (conn : clientConnection) (frame : DataFrame) :
  let sid := df_streamID frame in
  let r := handleDataFrame frame conn in
  dataOutput r.2 = dataOutput conn
  /\ (Z.land sid 1 = 0 \/ notOpen conn sid = true ->
      r = (Ok tt, set_numBenignErrors (numBenignErrors conn + 1) conn))
  /\ (Z.land sid 1 <> 0 -> notOpen conn sid = false ->
      forall c, streamInputs conn !! sid = Some c ->
        ch_closed (chanStore conn c) = false ->
        (Z.land (df_Flags frame) FLAG_FIN = 0
         \/ is_Some (streams conn !! sid)) ->
        r.1 = Ok tt
        /\ chanStore r.2 c
           = mkChan (ch_buf (chanStore conn c) ++ [FData frame]) false
        /\ (forall c', c' <> c -> chanStore r.2 c' = chanStore conn c')
        /\ numBenignErrors r.2 = numBenignErrors conn
        /\ (Z.land (df_Flags frame) FLAG_FIN <> 0 ->
            forall st, streams conn !! sid = Some st ->
              closedThere (streamStore r.2 st) = true)).
Proof.
  intros sid r. subst sid r. unfold handleDataFrame. split; [|split].
  - destruct (Z.land (df_streamID frame) 1 =? 0); [done|].
    destruct (notOpen conn (df_streamID frame)); [done|].
    unfold bind, send, call, ret.
    destruct (streamInputs conn !! df_streamID frame) as [c|]; [|done].
    destruct (ch_closed (chanStore conn c)); [done|].
    destruct (negb (Z.land (df_Flags frame) FLAG_FIN =? 0)); [|done].
    simpl. by destruct (streams conn !! df_streamID frame).
  - intros [Heven | Hclosed].
    + apply Z.eqb_eq in Heven. by rewrite Heven.
    + rewrite Hclosed. by destruct (Z.land (df_streamID frame) 1 =? 0).
  - intros Hodd Hopen c Hc Hch Hfin.
    apply Z.eqb_neq in Hodd. rewrite Hodd, Hopen.
    unfold bind. rewrite Hc, send_open by done.
    destruct (Z.land (df_Flags frame) FLAG_FIN =? 0) eqn:Hflag; simpl.
    + apply Z.eqb_eq in Hflag.
      rewrite fn_lookup_alter. repeat split; try done.
      intros c' Hne. by rewrite fn_lookup_alter_ne.
    + apply Z.eqb_neq in Hflag. destruct Hfin as [Hfin | [st Hst]]; [done|].
      unfold call. rewrite Hst. simpl.
      rewrite fn_lookup_alter. repeat split; try done.
      * intros c' Hne. by rewrite fn_lookup_alter_ne.
      * intros _ st' Hst'. assert (st' = st) as -> by congruence.
        by rewrite fn_lookup_alter.
Qed.

End ClientStreams.

Lemma client_rst_cancel_witness :
  let frame := mkRstStream 3 3 RST_STREAM_CANCEL in
  let r := Client.handleRstStream frame clientWithStreams in
  Z.land (rs_streamID frame) 1 <> 0
  /\ Client.streams clientWithStreams !! 3 = Some 2%nat
  /\ Client.streamInputs clientWithStreams !! 3 = Some 12%nat
  /\ Client.ch_closed (Client.chanStore clientWithStreams 12%nat) = false
  /\ r.1 = Ok tt
  /\ Client.streams r.2 = delete 3 (Client.streams clientWithStreams)
  /\ Client.stopped (Client.streamStore r.2 2%nat) = true
  /\ Client.ch_closed (Client.chanStore r.2 12%nat) = true
  /\ Client.handleRstStream (mkRstStream 3 2 RST_STREAM_CANCEL)
       clientWithStreams
     = (Ok tt, Client.set_numBenignErrors 1 clientWithStreams).
Proof.
  assert (Z.land 3 1 <> 0) as Hodd by discriminate.
  destruct (client_rst_cancel clientWithStreams
              (mkRstStream 3 3 RST_STREAM_CANCEL) eq_refl) as [Hclose _].
  destruct (Hclose Hodd 2%nat 12%nat eq_refl eq_refl eq_refl)
    as (Hok & Hs & Hstop & _ & Hch & _).
  destruct (client_rst_cancel clientWithStreams
              (mkRstStream 3 2 RST_STREAM_CANCEL) eq_refl) as [_ Hbenign].
  cbv zeta.
  split; [exact Hodd|]. split; [reflexivity|]. split; [reflexivity|].
  split; [reflexivity|]. split; [exact Hok|]. split; [exact Hs|].
  split; [exact Hstop|]. split; [exact Hch|].
  exact (Hbenign eq_refl).
Defined.

(** C6 as stated fails on the client.  RST_STREAM(CANCEL) for the open
    stream 2, whose ID has the peer's (even) parity, neither closes nor
    removes the stream and counts a benign error; for the open stream 1,
    whose ID has the client's own (odd) parity, it closes and removes the
    stream and counts no error. *)
Lemma client_rst_cancel_counterexample :
  let r2 := Client.handleRstStream (mkRstStream 3 2 RST_STREAM_CANCEL)
              clientWithStreams in
  let r1 := Client.handleRstStream (mkRstStream 3 1 RST_STREAM_CANCEL)
              clientWithStreams in
  (Client.streams clientWithStreams !! 2 = Some 1%nat
   /\ r2.1 = Ok tt
   /\ Client.streams r2.2 !! 2 = Some 1%nat
   /\ Client.stopped (Client.streamStore r2.2 1%nat) = false
   /\ Client.ch_closed (Client.chanStore r2.2 11%nat) = false
   /\ Client.numBenignErrors r2.2
      = Client.numBenignErrors clientWithStreams + 1)
  /\ (Client.streams clientWithStreams !! 1 = Some 0%nat
      /\ r1.1 = Ok tt
      /\ Client.streams r1.2 !! 1 = None
      /\ Client.stopped (Client.streamStore r1.2 0%nat) = true
      /\ Client.numBenignErrors r1.2
         = Client.numBenignErrors clientWithStreams).
Proof. vm_compute. repeat split. Qed.

(** C7, where the code departs from it.  On a client whose two tables have
    the same keys, RST_STREAM(REFUSED_STREAM) for stream 1 is handled by
    [closeStream], which closes the inbox of stream 1 and deletes the entry
    of [streams] but leaves the entry of [streamInputs]: after the frame is
    handled the key sets differ, and a later [cleanup] panics on the inbox
    that is already closed. *)
Theorem client_closeStream_leaves_inbox_entry :
  let frame := FRstStream (mkRstStream 3 1 RST_STREAM_REFUSED_STREAM) in
  let r := @Client.iteration exampleDecls (Client.InFrame frame true)
             clientWithStreams in
  dom (Client.streams clientWithStreams)
  = dom (Client.streamInputs clientWithStreams)
  /\ Client.tablesOk clientWithStreams = true
  /\ r.1 = Ok tt
  /\ Client.streams r.2 !! 1 = None
  /\ Client.streamInputs r.2 !! 1 = Some 10%nat
  /\ Client.ch_closed (Client.chanStore r.2 10%nat) = true
  /\ dom (Client.streams r.2) <> dom (Client.streamInputs r.2)
  /\ (Client.cleanup r.2).1 = Exit Panicked.
Proof.
  cbv zeta. split; [|split; [|split; [|split; [|split; [|split; [|split]]]]]].
  - vm_compute. reflexivity.
  - vm_compute. reflexivity.
  - vm_compute. reflexivity.
  - vm_compute. reflexivity.
  - vm_compute. reflexivity.
  - vm_compute. reflexivity.
  - intros Hdom.
    assert (1 ∈ dom (Client.streamInputs
                       (@Client.iteration exampleDecls
                          (Client.InFrame
                             (FRstStream
                                (mkRstStream 3 1 RST_STREAM_REFUSED_STREAM))
                             true) clientWithStreams).2)) as Hin.
    { apply elem_of_dom. exists 10%nat. vm_compute. reflexivity. }
    rewrite <- Hdom in Hin. apply elem_of_dom in Hin as [st Hst].
    vm_compute in Hst. discriminate.
  - vm_compute. reflexivity.
Qed.

Lemma client_window_update_witness :
  let frame := mkWindowUpdate 3 3 1 in
  let bad := mkWindowUpdate 3 3 0 in
  Z.land (wu_streamID frame) 1 <> 0
  /\ Client.notOpen clientWithStreams (wu_streamID frame) = false
  /\ 1 <= wu_DeltaWindowSize frame <= MAX_DELTA_WINDOW_SIZE
  /\ Client.streamInputs clientWithStreams !! 3 = Some 12%nat
  /\ (Client.handleWindowUpdateFrame frame clientWithStreams).1 = Ok tt
  /\ Client.ch_buf
       (Client.chanStore
          (Client.handleWindowUpdateFrame frame clientWithStreams).2 12%nat)
     = [FWindowUpdate frame]
  /\ Client.handleWindowUpdateFrame bad clientWithStreams
     = Client.PROTOCOL_ERROR 3 clientWithStreams
  /\ (Client.handleWindowUpdateFrame bad clientWithStreams).1 = Exit Goexited
  /\ Client.ch_buf
       (Client.chanStore
          (Client.handleWindowUpdateFrame bad clientWithStreams).2 12%nat)
     = [].
Proof.
  assert (Z.land 3 1 <> 0) as Hodd by discriminate.
  assert (1 <= 1 <= MAX_DELTA_WINDOW_SIZE) as Hdelta
    by (split; discriminate).
  destruct (client_window_update clientWithStreams (mkWindowUpdate 3 3 1)
              Hodd eq_refl) as [_ Hroute].
  destruct (Hroute Hdelta 12%nat eq_refl eq_refl)
    as (store' & Heq & Hc & _).
  destruct (client_window_update clientWithStreams (mkWindowUpdate 3 3 0)
              Hodd eq_refl) as [Hreject _].
  destruct (Hreject (or_introl eq_refl))
    as (Hpe & _ & _ & Hbuf & Htables).
  destruct (Htables eq_refl) as (Hgoexit & _ & _).
  cbv zeta. rewrite Heq. simpl. rewrite Hc.
  split; [exact Hodd|]. split; [reflexivity|]. split; [exact Hdelta|].
  split; [reflexivity|]. split; [reflexivity|]. split; [reflexivity|].
  split; [exact Hpe|]. split; [exact Hgoexit|]. apply Hbuf.
Defined.

Lemma client_data_frame_witness :
  let frame := mkData 3 FLAG_FIN [104; 105] in
  let r := Client.handleDataFrame frame clientWithStreams in
  Z.land (df_streamID frame) 1 <> 0
  /\ Client.notOpen clientWithStreams (df_streamID frame) = false
  /\ Client.streamInputs clientWithStreams !! 3 = Some 12%nat
  /\ Client.streams clientWithStreams !! 3 = Some 2%nat
  /\ r.1 = Ok tt
  /\ Client.chanStore r.2 12%nat = Client.mkChan [FData frame] false
  /\ Client.closedThere (Client.streamStore r.2 2%nat) = true
  /\ Client.handleDataFrame (mkData 2 0 []) clientWithStreams
     = (Ok tt, Client.set_numBenignErrors 1 clientWithStreams).
Proof.
  assert (Z.land 3 1 <> 0) as Hodd by discriminate.
  destruct (client_data_frame clientWithStreams
              (mkData 3 FLAG_FIN [104; 105])) as (_ & _ & Hroute).
  destruct (Hroute Hodd eq_refl 12%nat eq_refl eq_refl
              (or_intror (ex_intro _ 2%nat eq_refl)))
    as (Hok & Hc & _ & _ & Hfin).
  destruct (client_data_frame clientWithStreams (mkData 2 0 []))
    as (_ & Hbenign & _).
  cbv zeta.
  split; [exact Hodd|]. split; [reflexivity|]. split; [reflexivity|].
  split; [reflexivity|]. split; [exact Hok|]. split; [exact Hc|].
  split; [apply Hfin; [discriminate | reflexivity]|].
  exact (Hbenign (or_introl eq_refl)).
Defined.

(** C8 as stated fails on the client.  On a fresh client, WINDOW_UPDATE
    for stream 1 with delta 1 passes the parity check and the open-stream
    check, and its delta is within bounds, yet the frame is not routed to an
    inbox: none is registered for stream 1, and the handler parks on the
    send with the connection unchanged. *)
Lemma client_window_update_counterexample :
  let frame := mkWindowUpdate 3 1 1 in
  let r := Client.handleWindowUpdateFrame frame client3 in
  Z.land (wu_streamID frame) 1 <> 0
  /\ Client.notOpen client3 (wu_streamID frame) = false
  /\ 1 <= wu_DeltaWindowSize frame <= MAX_DELTA_WINDOW_SIZE
  /\ Client.streamInputs client3 !! wu_streamID frame = None
  /\ r = (Exit Blocked, client3)
  /\ (forall c, Client.ch_buf (Client.chanStore r.2 c) = []).
Proof.
  cbv zeta. split; [discriminate|]. split; [reflexivity|].
  split; [split; discriminate|]. split; [reflexivity|].
  split; [reflexivity|]. intros c. reflexivity.
Qed.

(** C9 as stated fails on the client.  On a fresh client, whose tables are
    empty, DATA for stream 2 counts a benign error and DATA for stream 1
    parks the loop on a nil inbox: in neither case is an RST_STREAM
    enqueued.  On a client where stream 2 is open, DATA for stream 2 is not
    routed to its inbox. *)
Lemma client_data_frame_counterexample :
  let r2 := Client.handleDataFrame (mkData 2 0 []) client3 in
  let r1 := Client.handleDataFrame (mkData 1 0 []) client3 in
  let r := Client.handleDataFrame (mkData 2 0 []) clientWithStreams in
  (Client.streams client3 !! 2 = None
   /\ r2.1 = Ok tt
   /\ Client.dataOutput r2.2 = [])
  /\ (Client.streams client3 !! 1 = None
      /\ r1 = (Exit Blocked, client3)
      /\ Client.dataOutput r1.2 = []
      /\ Client.numBenignErrors r1.2 = 0)
  /\ (Client.streams clientWithStreams !! 2 = Some 1%nat
      /\ Client.streamInputs clientWithStreams !! 2 = Some 11%nat
      /\ r.1 = Ok tt
      /\ Client.ch_buf (Client.chanStore r.2 11%nat) = []
      /\ Client.numBenignErrors r.2 = 1).
Proof. vm_compute. repeat split. Qed.

(** * SYN_STREAM acceptance on both sides *)

Section SynStream.
Context `{PackageDecls}.

Lemma server_version_check (conn : Server.connection)
    (frame : SynStreamFrame) :
  ss_version frame = Server.version conn \/ ss_version frame <= SPDY_VERSION ->
  negb (ss_version frame =? Server.version conn)
  && (SPDY_VERSION <? ss_version frame) = false.
Proof.
  intros [-> | Hle].
  - by rewrite Z.eqb_refl.
  - apply andb_false_iff. right. by apply Z.ltb_ge.
Qed.

Lemma server_rejects_even (conn : Server.connection)
    (frame : SynStreamFrame) :
  Server.goaway conn = false ->
  (ss_version frame = Server.version conn \/ ss_version frame <= SPDY_VERSION) ->
  Z.land (ss_streamID frame) 1 = 0 ->
  Server.iteration (Server.InFrame (FSynStream frame)) conn
  = (Ok tt,
     Server.set_queue
       (Server.queue conn
        ++ [Server.rstReply frame RST_STREAM_PROTOCOL_ERROR]) conn).
Proof.
  intros Hgo Hver Heven. simpl Server.iteration. unfold Server.handleFrame.
  unfold Server.caseSynStream.
  rewrite Hgo, server_version_check by done.
  apply Z.eqb_eq in Heven. by rewrite Heven.
Qed.

Lemma server_rejects_too_large (conn : Server.connection)
    (frame : SynStreamFrame) :
  Server.goaway conn = false ->
  (ss_version frame = Server.version conn \/ ss_version frame <= SPDY_VERSION) ->
  Z.land (ss_streamID frame) 1 <> 0 ->
  ss_streamID frame = wrap32 (Server.nextClientStreamID conn + 2) ->
  MAX_STREAM_ID < ss_streamID frame ->
  Server.iteration (Server.InFrame (FSynStream frame)) conn
  = (Ok tt,
     Server.set_queue
       (Server.queue conn
        ++ [Server.rstReply frame RST_STREAM_PROTOCOL_ERROR]) conn).
Proof.
  intros Hgo Hver Hodd Hseq Hbig. simpl Server.iteration. unfold Server.handleFrame.
  unfold Server.caseSynStream.
  rewrite Hgo, server_version_check by done.
  apply Z.eqb_neq in Hodd. rewrite Hodd.
  rewrite <- Hseq, Z.eqb_refl. simpl.
  apply Z.ltb_lt in Hbig. by rewrite Hbig.
Qed.

Lemma client_handleSynStream_odd (conn : Client.clientConnection)
    (frame : SynStreamFrame) :
  Client.goaway conn = false ->
  Z.land (ss_streamID frame) 1 <> 0 ->
  Client.handleSynStream frame conn
  = (Ok tt,
     Client.set_numBenignErrors (Client.numBenignErrors conn + 1) conn).
Proof.
  intros Hgo Hodd. unfold Client.handleSynStream.
  apply Z.eqb_neq in Hodd. by rewrite Hgo, Hodd.
Qed.

Lemma client_handleSynStream_too_large (conn : Client.clientConnection)
    (frame : SynStreamFrame) :
  Client.goaway conn = false ->
  Z.land (ss_streamID frame) 1 = 0 ->
  ss_streamID frame = wrap32 (Client.nextServerStreamID conn + 2) ->
  MAX_STREAM_ID < ss_streamID frame ->
  Client.handleSynStream frame conn
  = Client.PROTOCOL_ERROR (ss_streamID frame) conn.
Proof.
  intros Hgo Heven Hseq Hbig. unfold Client.handleSynStream.
  apply Z.eqb_eq in Heven. rewrite Hgo, Heven.
  rewrite <- Hseq, Z.eqb_refl. simpl.
  apply Z.ltb_lt in Hbig. rewrite Hbig.
  apply bind_exited, PROTOCOL_ERROR_exits.
Qed.

(** C2, as the server handles it.  A SYN_STREAM frame that passes every
    acceptance check of the server (no GOAWAY, the connection's version, odd
    ID, ID equal to [nextClientStreamID + 2] in 32-bit arithmetic, ID at most
    [MAX_STREAM_ID]): the server creates a stream from the frame, stores it
    in [streams] under the frame's stream ID with its actor launched, writes
    no frame, and goes on with the loop. *)
Theorem server_syn_stream_accepted (conn : Server.connection)
    (frame : SynStreamFrame) :
  Server.goaway conn = false ->
  ss_version frame = Server.version conn ->
  Z.land (ss_streamID frame) 1 <> 0 ->
  ss_streamID frame = wrap32 (Server.nextClientStreamID conn + 2) ->
  ss_streamID frame <= MAX_STREAM_ID ->
  let r := Server.iteration (Server.InFrame (FSynStream frame)) conn in
  r.1 = Ok tt
  /\ Server.streams r.2
     = <[ss_streamID frame := Server.run (Server.newStream frame)]>
         (Server.streams conn)
  /\ Server.streams r.2 !! ss_streamID frame
     = Some {| Server.syn := frame; Server.running := true |}
  /\ Server.queue r.2 = Server.queue conn.
Proof.
  intros Hgo Hver Hodd Hseq Hmax r. subst r. simpl Server.iteration.
  unfold Server.handleFrame.
  rewrite server_caseSynStream_accept by auto. simpl.
  by rewrite lookup_insert_eq.
Qed.

(** C3, as the two sides handle it.  A SYN_STREAM frame of the wrong
    parity that reaches the parity check (no GOAWAY; on the server, a
    version the version check lets through).  The server, on an even ID,
    enqueues RST_STREAM(PROTOCOL_ERROR) for that stream ID, creates no
    stream and changes nothing else.  The client's [handleSynStream], on an
    odd ID, sends nothing, creates no stream and increments
    [numBenignErrors]. *)
Theorem syn_stream_wrong_parity :
  (forall (conn : Server.connection) (frame : SynStreamFrame),
     Server.goaway conn = false ->
     (ss_version frame = Server.version conn
      \/ ss_version frame <= SPDY_VERSION) ->
     Z.land (ss_streamID frame) 1 = 0 ->
     Server.iteration (Server.InFrame (FSynStream frame)) conn
     = (Ok tt,
        Server.set_queue
          (Server.queue conn
           ++ [FRstStream {| rs_version := SPDY_VERSION;
                             rs_streamID := ss_streamID frame;
                             rs_StatusCode := RST_STREAM_PROTOCOL_ERROR |}])
          conn))
  /\ (forall (conn : Client.clientConnection) (frame : SynStreamFrame),
        Client.goaway conn = false ->
        Z.land (ss_streamID frame) 1 <> 0 ->
        Client.handleSynStream frame conn
        = (Ok tt,
           Client.set_numBenignErrors (Client.numBenignErrors conn + 1)
             conn)).
Proof.
  split.
  - intros conn frame Hgo Hver Heven.
    by apply (server_rejects_even conn frame).
  - apply client_handleSynStream_odd.
Qed.

(** C4, as the two sides handle it.  A SYN_STREAM frame that passes the
    checks before the bound check and whose stream ID exceeds
    [MAX_STREAM_ID].  The client's [handleSynStream] is [PROTOCOL_ERROR] on
    that stream: the RST_STREAM is enqueued and the goroutine ends without
    handling anything further (by [Goexit], with both tables emptied, when
    the tables are consistent).  The server enqueues
    RST_STREAM(PROTOCOL_ERROR) for that stream ID, changes nothing else and
    goes on with the loop.  A stream ID equal to [MAX_STREAM_ID] that passes
    the earlier checks is accepted by the server. *)
Theorem syn_stream_too_large :
  (forall (conn : Client.clientConnection) (frame : SynStreamFrame),
     Client.goaway conn = false ->
     Z.land (ss_streamID frame) 1 = 0 ->
     ss_streamID frame = wrap32 (Client.nextServerStreamID conn + 2) ->
     MAX_STREAM_ID < ss_streamID frame ->
     let r := Client.handleSynStream frame conn in
     r = Client.PROTOCOL_ERROR (ss_streamID frame) conn
     /\ exited r = true
     /\ Client.dataOutput r.2
        = Client.dataOutput conn
          ++ [Client.protocolErrorFrame conn (ss_streamID frame)]
     /\ (Client.tablesOk conn = true ->
         r.1 = Exit Goexited
         /\ Client.streams r.2 = ∅ /\ Client.streamInputs r.2 = ∅))
  /\ (forall (conn : Server.connection) (frame : SynStreamFrame),
        Server.goaway conn = false ->
        (ss_version frame = Server.version conn
         \/ ss_version frame <= SPDY_VERSION) ->
        Z.land (ss_streamID frame) 1 <> 0 ->
        ss_streamID frame = wrap32 (Server.nextClientStreamID conn + 2) ->
        MAX_STREAM_ID < ss_streamID frame ->
        Server.iteration (Server.InFrame (FSynStream frame)) conn
        = (Ok tt,
           Server.set_queue
             (Server.queue conn
              ++ [FRstStream
                    {| rs_version := SPDY_VERSION;
                       rs_streamID := ss_streamID frame;
                       rs_StatusCode := RST_STREAM_PROTOCOL_ERROR |}])
             conn))
  /\ (forall (conn : Server.connection) (frame : SynStreamFrame),
        Server.goaway conn = false ->
        (ss_version frame = Server.version conn
         \/ ss_version frame <= SPDY_VERSION) ->
        ss_streamID frame = MAX_STREAM_ID ->
        ss_streamID frame = wrap32 (Server.nextClientStreamID conn + 2) ->
        Server.iteration (Server.InFrame (FSynStream frame)) conn
        = (Ok tt,
           Server.set_streams
             (<[MAX_STREAM_ID := Server.run (Server.newStream frame)]>
                (Server.streams conn)) conn)).
Proof.
  split; [|split].
  - intros conn frame Hgo Heven Hseq Hbig r. subst r.
    rewrite client_handleSynStream_too_large by done.
    destruct (PROTOCOL_ERROR_exits (ss_streamID frame) conn)
      as (Hexit & Hout & _ & _).
    split; [done|]. split; [done|]. split; [done|].
    intros Hok.
    destruct (PROTOCOL_ERROR_ok (ss_streamID frame) conn Hok)
      as (Hgoexit & Hs & Hi & _).
    done.
  - intros conn frame Hgo Hver Hodd Hseq Hbig.
    by apply (server_rejects_too_large conn frame).
  - intros conn frame Hgo Hver Hmax Hseq. simpl Server.iteration.
    unfold Server.handleFrame.
    rewrite server_caseSynStream_accept; auto.
    + by rewrite Hmax.
    + by rewrite Hmax.
    + rewrite Hmax. reflexivity.
Qed.

(** The sequence check needs no special case for the first stream.  On a
    connection without streams whose counter of remote streams is 2^32 - 1,
    before GOAWAY, the expected stream ID [nextClientStreamID + 2] wraps to
    1: a SYN_STREAM frame is accepted exactly when its stream ID is 1 and
    the version check lets it through. *)
Lemma server_sequence_check_wraps_to_one (conn : Server.connection)
    (frame : SynStreamFrame) :
  Server.goaway conn = false ->
  Server.streams conn = ∅ ->
  Server.nextClientStreamID conn = 2 ^ 32 - 1 ->
  let r := Server.iteration (Server.InFrame (FSynStream frame)) conn in
  Server.streams r.2 !! ss_streamID frame
  = Some (Server.run (Server.newStream frame))
  <-> ss_streamID frame = 1
      /\ (ss_version frame = Server.version conn
          \/ ss_version frame <= SPDY_VERSION).
Proof.
  intros Hgo Hempty Hnext r. subst r. split.
  - simpl Server.iteration. unfold Server.handleFrame, Server.caseSynStream.
    rewrite Hgo, Hnext.
    destruct (negb (ss_version frame =? Server.version conn)
              && (SPDY_VERSION <? ss_version frame)) eqn:Hver;
      [intros Hacc; simpl in Hacc; by rewrite Hempty, lookup_empty in Hacc|].
    destruct (Z.land (ss_streamID frame) 1 =? 0);
      [intros Hacc; simpl in Hacc; by rewrite Hempty, lookup_empty in Hacc|].
    destruct (ss_streamID frame =? wrap32 (2 ^ 32 - 1 + 2)) eqn:Hseq;
      [|intros Hacc; simpl in Hacc; by rewrite Hempty, lookup_empty in Hacc].
    intros _. apply Z.eqb_eq in Hseq. split; [exact Hseq|].
    apply andb_false_iff in Hver as [Heq | Hle].
    + left. apply negb_false_iff in Heq. by apply Z.eqb_eq.
    + right. by apply Z.ltb_ge.
  - intros [Hone Hver]. simpl Server.iteration. unfold Server.handleFrame.
    rewrite server_caseSynStream_accept; try done.
    + simpl. by rewrite lookup_insert_eq.
    + by rewrite Hone.
    + by rewrite Hone, Hnext.
    + by rewrite Hone.
Qed.

(** C10.  [newConn] does not build the connection the claim describes.  The
    constant expression [1 - 2] is -1 and does not convert to [uint32]
    (constants do not wrap around), so [newConn] as written has no meaning.
    And whatever value stands in place of that constant, the store through
    [tlsState], which is nil in a new [connection], panics before any
    protocol field is assigned: the connection is left at its zero value,
    with [nextClientStreamID] at 0 and not at 2^32 - 1. *)
Theorem server_newConn_never_returns (state : Server.ConnectionState) :
  constUint32 (1 - 2) = None
  /\ Server.newConn state = None
  /\ forall next,
       Server.newConnBody state next Server.new_connection
       = (Exit Panicked, Server.new_connection)
       /\ Server.nextClientStreamID
            (Server.newConnBody state next Server.new_connection).2
          = 0.
Proof.
  split; [reflexivity|]. split; [reflexivity|].
  intros next. split; reflexivity.
Qed.

End SynStream.

Lemma server_syn_stream_accepted_witness :
  let frame := mkSynStream 3 1 0 in
  let r := @Server.iteration exampleDecls
             (Server.InFrame (FSynStream frame)) serverIntended3 in
  Server.goaway serverIntended3 = false
  /\ ss_version frame = Server.version serverIntended3
  /\ Z.land (ss_streamID frame) 1 <> 0
  /\ ss_streamID frame
     = wrap32 (Server.nextClientStreamID serverIntended3 + 2)
  /\ ss_streamID frame <= MAX_STREAM_ID
  /\ r.1 = Ok tt
  /\ Server.streams r.2 !! 1
     = Some {| Server.syn := frame; Server.running := true |}
  /\ Server.queue r.2 = [].
Proof.
  assert (Z.land 1 1 <> 0) as Hodd by discriminate.
  assert (1 <= MAX_STREAM_ID) as Hmax by discriminate.
  destruct (@server_syn_stream_accepted exampleDecls
              serverIntended3 (mkSynStream 3 1 0)
              eq_refl eq_refl Hodd eq_refl Hmax)
    as (Hok & _ & Hstream & Hqueue).
  cbv zeta.
  split; [reflexivity|]. split; [reflexivity|]. split; [exact Hodd|].
  split; [reflexivity|]. split; [exact Hmax|]. split; [exact Hok|].
  split; [exact Hstream | exact Hqueue].
Defined.

(** C2 as stated fails on the server.  A SPDY/3 server that expects stream
    1 accepts SYN_STREAM with stream ID 1: the stream is stored and started,
    but [nextClientStreamID] keeps its value 2^32 - 1 and is not 1. *)
Lemma server_syn_stream_accepted_counterexample :
  let frame := mkSynStream 3 1 0 in
  let r := @Server.iteration exampleDecls
             (Server.InFrame (FSynStream frame)) serverIntended3 in
  r.1 = Ok tt
  /\ Server.streams r.2 !! 1
     = Some {| Server.syn := frame; Server.running := true |}
  /\ Server.nextClientStreamID r.2 = 4294967295
  /\ Server.nextClientStreamID r.2 <> ss_streamID frame.
Proof. vm_compute. repeat split. discriminate. Qed.

Lemma syn_stream_wrong_parity_witness :
  let even := mkSynStream 3 2 0 in
  let odd := mkSynStream 3 1 0 in
  (Server.goaway serverIntended3 = false
   /\ ss_version even = Server.version serverIntended3
   /\ Z.land (ss_streamID even) 1 = 0
   /\ @Server.iteration exampleDecls (Server.InFrame (FSynStream even))
        serverIntended3
      = (Ok tt,
         Server.set_queue
           [FRstStream (mkRstStream 3 2 RST_STREAM_PROTOCOL_ERROR)]
           serverIntended3))
  /\ (Client.goaway client3 = false
      /\ Z.land (ss_streamID odd) 1 <> 0
      /\ Client.handleSynStream odd client3
         = (Ok tt, Client.set_numBenignErrors 1 client3)).
Proof.
  assert (Z.land 1 1 <> 0) as Hodd by discriminate.
  destruct (@syn_stream_wrong_parity exampleDecls) as [Hserver Hclient].
  cbv zeta. split.
  - split; [reflexivity|]. split; [reflexivity|]. split; [reflexivity|].
    exact (Hserver serverIntended3 (mkSynStream 3 2 0)
             eq_refl (or_introl eq_refl) eq_refl).
  - split; [reflexivity|]. split; [exact Hodd|].
    exact (Hclient client3 (mkSynStream 3 1 0) eq_refl Hodd).
Defined.

(** C3 as stated fails.  On a fresh client, [handleSynStream] on the odd
    stream ID 1 enqueues no RST_STREAM and raises [numBenignErrors] from 0
    to 1.  On a server after GOAWAY, SYN_STREAM with the even stream ID 2
    is dropped without a reply. *)
Lemma syn_stream_wrong_parity_counterexample :
  let rc := Client.handleSynStream (mkSynStream 3 1 0) client3 in
  let rs := @Server.iteration exampleDecls
              (Server.InFrame (FSynStream (mkSynStream 3 2 0)))
              serverGoneAway in
  (rc.1 = Ok tt
   /\ Client.dataOutput rc.2 = []
   /\ Client.numBenignErrors client3 = 0
   /\ Client.numBenignErrors rc.2 = 1)
  /\ (rs.1 = Ok tt /\ Server.queue rs.2 = []).
Proof. vm_compute. repeat split. Qed.

Lemma syn_stream_too_large_witness :
  let big := mkSynStream 3 (MAX_STREAM_ID + 1) 0 in
  let bigOdd := mkSynStream 3 (MAX_STREAM_ID + 2) 0 in
  let last := mkSynStream 3 MAX_STREAM_ID 0 in
  (Client.goaway clientAtLimit = false
   /\ Z.land (ss_streamID big) 1 = 0
   /\ ss_streamID big = wrap32 (Client.nextServerStreamID clientAtLimit + 2)
   /\ MAX_STREAM_ID < ss_streamID big
   /\ Client.tablesOk clientAtLimit = true
   /\ (Client.handleSynStream big clientAtLimit).1 = Exit Goexited
   /\ Client.dataOutput (Client.handleSynStream big clientAtLimit).2
      = [FRstStream
           (mkRstStream 3 (MAX_STREAM_ID + 1) RST_STREAM_PROTOCOL_ERROR)])
  /\ (Z.land (ss_streamID bigOdd) 1 <> 0
      /\ ss_streamID bigOdd
         = wrap32 (Server.nextClientStreamID serverAtLimit + 2)
      /\ @Server.iteration exampleDecls (Server.InFrame (FSynStream bigOdd))
           serverAtLimit
         = (Ok tt,
            Server.set_queue
              [FRstStream
                 (mkRstStream 3 (MAX_STREAM_ID + 2)
                    RST_STREAM_PROTOCOL_ERROR)]
              serverAtLimit))
  /\ (ss_streamID last
      = wrap32 (Server.nextClientStreamID serverBelowLimit + 2)
      /\ @Server.iteration exampleDecls (Server.InFrame (FSynStream last))
           serverBelowLimit
         = (Ok tt,
            Server.set_streams
              {[MAX_STREAM_ID := Server.run (Server.newStream last)]}
              serverBelowLimit)).
Proof.
  assert (Z.land (MAX_STREAM_ID + 2) 1 <> 0) as Hodd by discriminate.
  assert (MAX_STREAM_ID < MAX_STREAM_ID + 1) as Hbig by reflexivity.
  assert (MAX_STREAM_ID < MAX_STREAM_ID + 2) as Hbig' by reflexivity.
  destruct (@syn_stream_too_large exampleDecls)
    as (Hclient & Hserver & Hbound).
  destruct (Hclient clientAtLimit (mkSynStream 3 (MAX_STREAM_ID + 1) 0)
              eq_refl eq_refl eq_refl Hbig)
    as (_ & _ & Hout & Htables).
  destruct (Htables eq_refl) as (Hgoexit & _ & _).
  cbv zeta. split; [|split].
  - split; [reflexivity|]. split; [reflexivity|]. split; [reflexivity|].
    split; [exact Hbig|]. split; [reflexivity|]. split; [exact Hgoexit|].
    exact Hout.
  - split; [exact Hodd|]. split; [reflexivity|].
    exact (Hserver serverAtLimit (mkSynStream 3 (MAX_STREAM_ID + 2) 0)
             eq_refl (or_introl eq_refl) Hodd eq_refl Hbig').
  - split; [reflexivity|].
    exact (Hbound serverBelowLimit (mkSynStream 3 MAX_STREAM_ID 0)
             eq_refl (or_introl eq_refl) eq_refl eq_refl).
Defined.

(** C4 as stated fails on the server.  On a server that expects stream ID
    [MAX_STREAM_ID + 2] next, SYN_STREAM with that ID reaches the bound
    check: the server enqueues RST_STREAM(PROTOCOL_ERROR) and the loop goes
    on, so that a second such frame is answered as well; nothing is torn
    down. *)
Lemma syn_stream_too_large_counterexample :
  let frame := FSynStream (mkSynStream 3 (MAX_STREAM_ID + 2) 0) in
  let rst := FRstStream
               (mkRstStream 3 (MAX_STREAM_ID + 2) RST_STREAM_PROTOCOL_ERROR) in
  let r := @Server.iteration exampleDecls (Server.InFrame frame)
             serverAtLimit in
  MAX_STREAM_ID < Frame_StreamID frame
  /\ r = (Ok tt, Server.set_queue [rst] serverAtLimit)
  /\ exited r = false
  /\ @Server.readFrames exampleDecls
       [Server.InFrame frame; Server.InFrame frame] serverAtLimit
     = (Ok tt, Server.set_queue [rst; rst] serverAtLimit).
Proof. vm_compute. repeat split. Qed.

(** * Scenarios *)

(** Benign budget overflow: eleven PING replies for IDs that were never
    registered exhaust the default budget of 10; at the head of the next
    turn the client enqueues RST_STREAM(stream 0, PROTOCOL_ERROR), runs
    [cleanup] and ends the ingress goroutine. *)
Example benign_budget_overflow_scenario :
  let ping := Client.InFrame (FPing (mkPing 3 7)) true in
  let r := @Client.readFrames exampleDecls (replicate 11 ping) client3 in
  r.1 = Exit Goexited
  /\ Client.numBenignErrors r.2 = 11
  /\ Client.dataOutput r.2
     = [FRstStream (mkRstStream 3 0 RST_STREAM_PROTOCOL_ERROR)]
  /\ (@Client.readFrames exampleDecls (replicate 10 ping) client3).1 = Ok tt.
Proof. vm_compute. repeat split. Qed.

(** PING echo: a PING with the peer's (even) ID is sent back as it came. *)
Example ping_echo_scenario :
  @Client.iteration exampleDecls (Client.InFrame (FPing (mkPing 3 2)) true)
    client3
  = (Ok tt, Client.set_dataOutput [FPing (mkPing 3 2)] client3).
Proof. vm_compute. reflexivity. Qed.

(** On the server, the stream-ID counter that is never advanced makes a
    second SYN_STREAM for stream 1 acceptable (nothing is sent in reply) and
    stream 3 unacceptable. *)
Example server_replay_scenario :
  let syn1 := Server.InFrame (FSynStream (mkSynStream 3 1 0)) in
  let syn3 := Server.InFrame (FSynStream (mkSynStream 3 3 0)) in
  (@Server.readFrames exampleDecls [syn1; syn1] serverIntended3).1 = Ok tt
  /\ Server.queue
       (@Server.readFrames exampleDecls [syn1; syn1] serverIntended3).2
     = []
  /\ Server.queue
       (@Server.readFrames exampleDecls [syn1; syn3]
          serverIntended3).2
     = [FRstStream (mkRstStream 3 3 RST_STREAM_PROTOCOL_ERROR)].
Proof. vm_compute. repeat split. Qed.

(** * Further properties of the server loop *)

Section ServerLoop.
Context `{PackageDecls}.

(** [readFrames] on a run of inputs is [readFrames] on its first part
    followed by [readFrames] on the rest. *)
Lemma server_readFrames_app (l1 l2 : list Server.input)
    (conn : Server.connection) :
  Server.readFrames (l1 ++ l2) conn
  = (Server.readFrames l1 >> Server.readFrames l2) conn.
Proof.
  revert conn. induction l1 as [|i l1 IH]; intros conn; simpl.
  - done.
  - unfold bind. destruct (Server.iteration i conn) as [[[]|e] c']; [|done].
    by rewrite IH.
Qed.

(** What one SYN_STREAM case does to the connection: nothing, one reply
    written, or one stream stored and started under the expected ID. *)
Lemma server_caseSynStream_cases (frame : SynStreamFrame)
    (conn : Server.connection) :
  Server.caseSynStream frame conn = (Ok tt, conn)
  \/ (exists reply, serverReply reply
        /\ Server.caseSynStream frame conn
           = (Ok tt, Server.set_queue (Server.queue conn ++ [reply]) conn))
  \/ (Server.goaway conn = false
      /\ ss_streamID frame = wrap32 (Server.nextClientStreamID conn + 2)
      /\ Z.land (ss_streamID frame) 1 <> 0
      /\ ss_streamID frame <= MAX_STREAM_ID
      /\ Server.caseSynStream frame conn
         = (Ok tt,
            Server.set_streams
              (<[ss_streamID frame := Server.run (Server.newStream frame)]>
                 (Server.streams conn)) conn)).
Proof.
  unfold Server.caseSynStream.
  destruct (Server.goaway conn) eqn:Hgo; [by left|].
  assert (forall status,
            status = RST_STREAM_PROTOCOL_ERROR
            \/ status = RST_STREAM_UNSUPPORTED_VERSION ->
            serverReply (Server.rstReply frame status)) as Hreply.
  { intros status Hstatus. by exists (ss_streamID frame), status. }
  destruct (negb _ && _) eqn:Hver.
  { right; left. eexists. split; [apply Hreply; by right | done]. }
  destruct (Z.land (ss_streamID frame) 1 =? 0) eqn:Hodd.
  { right; left. eexists. split; [apply Hreply; by left | done]. }
  destruct (ss_streamID frame =? wrap32 (Server.nextClientStreamID conn + 2))
    eqn:Hseq; simpl.
  2:{ right; left. eexists. split; [apply Hreply; by left | done]. }
  destruct (MAX_STREAM_ID <? ss_streamID frame) eqn:Hmax.
  { right; left. eexists. split; [apply Hreply; by left | done]. }
  right; right. apply Z.eqb_neq in Hodd. apply Z.eqb_eq in Hseq.
  apply Z.ltb_ge in Hmax. repeat split; try done.
  unfold bind, modify. simpl. f_equal. unfold Server.set_streams. simpl.
  f_equal. by rewrite alter_insert_eq.
Qed.

(** One turn of the server loop: a panic that leaves the connection as it
    was, or one of the three outcomes of the SYN_STREAM case. *)
Lemma server_iteration_cases (i : Server.input) (conn : Server.connection) :
  (serverKnown i = false /\ Server.iteration i conn = (Exit Panicked, conn))
  \/ (serverKnown i = true
      /\ (Server.iteration i conn = (Ok tt, conn)
          \/ (exists reply, serverReply reply
                /\ Server.iteration i conn
                   = (Ok tt,
                      Server.set_queue (Server.queue conn ++ [reply]) conn))
          \/ (exists frame,
                i = Server.InFrame (FSynStream frame)
                /\ Server.goaway conn = false
                /\ ss_streamID frame
                   = wrap32 (Server.nextClientStreamID conn + 2)
                /\ Z.land (ss_streamID frame) 1 <> 0
                /\ ss_streamID frame <= MAX_STREAM_ID
                /\ Server.iteration i conn
                   = (Ok tt,
                      Server.set_streams
                        (<[ss_streamID frame
                           := Server.run (Server.newStream frame)]>
                           (Server.streams conn)) conn)))).
Proof.
  destruct i as [frame|]; [|by left].
  destruct frame; try (right; split; [done|]; by left); [|by left].
  right. split; [done|]. simpl.
  destruct (server_caseSynStream_cases f conn)
    as [Hsame | [Hreply | (Hgo & Hseq & Hodd & Hmax & Heq)]].
  - by left.
  - right; by left.
  - right; right. by exists f.
Qed.

(** The fields no run of the server loop changes, and the queue it only
    extends by replies. *)
Lemma server_readFrames_fields (inputs : list Server.input)
    (conn : Server.connection) :
  let r := Server.readFrames inputs conn in
  Server.nextClientStreamID r.2 = Server.nextClientStreamID conn
  /\ Server.nextServerStreamID r.2 = Server.nextServerStreamID conn
  /\ Server.goaway r.2 = Server.goaway conn
  /\ Server.version r.2 = Server.version conn
  /\ Server.buffer r.2 = Server.buffer conn
  /\ exists replies,
       Server.queue r.2 = Server.queue conn ++ replies
       /\ Forall serverReply replies.
Proof.
  cbv zeta. revert conn. induction inputs as [|i rest IH]; intros conn.
  - simpl. repeat split; try done. exists []. by rewrite app_nil_r.
  - simpl. unfold bind.
    destruct (server_iteration_cases i conn)
      as [[_ ->] | [_ [-> | [(reply & Hreply & ->)
                            | (f & _ & _ & _ & _ & _ & ->)]]]].
    + simpl. repeat split; try done. exists []. by rewrite app_nil_r.
    + apply IH.
    + destruct (IH (Server.set_queue (Server.queue conn ++ [reply]) conn))
        as (H1 & H2 & H3 & H4 & H5 & replies & Hq & Hall).
      simpl in *. repeat split; try done.
      exists (reply :: replies). split; [by rewrite Hq, <- app_assoc|].
      by constructor.
    + destruct (IH (Server.set_streams
                      (<[ss_streamID f := Server.run (Server.newStream f)]>
                         (Server.streams conn)) conn))
        as (H1 & H2 & H3 & H4 & H5 & replies & Hq & Hall).
      simpl in *. repeat split; try done. by exists replies.
Qed.

(** X1.  The version check of the server's SYN_STREAM case, before GOAWAY.
    A frame whose version differs from the connection's and exceeds
    [SPDY_VERSION] is answered with RST_STREAM(UNSUPPORTED_VERSION) for its
    stream ID and nothing else changes.  A frame whose version differs but
    does not exceed [SPDY_VERSION] is only logged: it is decided exactly as
    the same frame carrying the connection's version would be (same outcome,
    same replies, the same streams started under the same IDs). *)
Theorem server_version_check_outcomes (conn : Server.connection)
    (frame : SynStreamFrame) :
  Server.goaway conn = false ->
  ss_version frame <> Server.version conn ->
  let r := Server.iteration (Server.InFrame (FSynStream frame)) conn in
  let r' := Server.iteration
              (Server.InFrame
                 (FSynStream (withVersion (Server.version conn) frame)))
              conn in
  (SPDY_VERSION < ss_version frame ->
   r = (Ok tt,
        Server.set_queue
          (Server.queue conn
           ++ [FRstStream
                 {| rs_version := SPDY_VERSION;
                    rs_streamID := ss_streamID frame;
                    rs_StatusCode := RST_STREAM_UNSUPPORTED_VERSION |}])
          conn))
  /\ (ss_version frame <= SPDY_VERSION ->
      r.1 = r'.1
      /\ Server.queue r.2 = Server.queue r'.2
      /\ Server.running <$> Server.streams r.2
         = Server.running <$> Server.streams r'.2).
Proof.
  intros Hgo Hver r r'. subst r r'. simpl Server.iteration.
  unfold Server.handleFrame, Server.caseSynStream. rewrite Hgo. simpl.
  apply Z.eqb_neq in Hver. rewrite Hver, Z.eqb_refl. simpl. split.
  - intros Hbig. apply Z.ltb_lt in Hbig. by rewrite Hbig.
  - intros Hle. apply Z.ltb_ge in Hle. rewrite Hle.
    destruct (Z.land (ss_streamID frame) 1 =? 0); [done|].
    destruct (ss_streamID frame
              =? wrap32 (Server.nextClientStreamID conn + 2)); [|done].
    simpl. destruct (MAX_STREAM_ID <? ss_streamID frame); [done|].
    unfold bind, modify. simpl. split; [done|]. split; [done|].
    by rewrite !alter_insert_eq, !fmap_insert.
Qed.

(** X2.  After GOAWAY the server loop ignores whatever it receives: a run
    on frames of the ten known kinds completes and leaves the connection
    exactly as it was (no reply, no stream). *)
Theorem server_goaway_ignores_frames (conn : Server.connection)
    (inputs : list Server.input) :
  Server.goaway conn = true ->
  forallb serverKnown inputs = true ->
  Server.readFrames inputs conn = (Ok tt, conn).
Proof.
  intros Hgo. induction inputs as [|i rest IH]; intros Hknown; [done|].
  simpl in Hknown. apply andb_true_iff in Hknown as [Hi Hrest].
  simpl. unfold bind.
  assert (Server.iteration i conn = (Ok tt, conn)) as ->; [|by apply IH].
  destruct i as [frame|]; [|done].
  destruct frame; try done. simpl. unfold Server.caseSynStream.
  by rewrite Hgo.
Qed.

(** A run of the server loop completes exactly on known inputs. *)
Lemma server_readFrames_ok (inputs : list Server.input)
    (conn : Server.connection) :
  (Server.readFrames inputs conn).1
  = if forallb serverKnown inputs then Ok tt else Exit Panicked.
Proof.
  revert conn. induction inputs as [|i inputs IH]; intros conn; [done|].
  simpl. unfold bind.
  destruct (server_iteration_cases i conn)
    as [[Hi ->] | [Hi [-> | [(reply & _ & ->)
                             | (f & _ & _ & _ & _ & _ & ->)]]]];
    rewrite Hi; simpl; try apply IH.
  done.
Qed.

(** X3.  The server loop ends in a panic exactly when the transport delivers
    a read error or a frame of no known kind: a run on known inputs
    completes, and at the first other input the loop panics with the
    connection as the inputs before it left it; nothing after it is
    handled. *)
Theorem server_loop_panics_at_bad_input (conn : Server.connection)
    (good : list Server.input) (bad : Server.input)
    (rest : list Server.input) :
  forallb serverKnown good = true ->
  serverKnown bad = false ->
  (Server.readFrames good conn).1 = Ok tt
  /\ Server.readFrames (good ++ bad :: rest) conn
     = (Exit Panicked, (Server.readFrames good conn).2).
Proof.
  intros Hgood Hbad.
  pose proof (server_readFrames_ok good conn) as Hok.
  rewrite Hgood in Hok. split; [done|].
  rewrite server_readFrames_app. unfold bind at 1.
  destruct (Server.readFrames good conn) as [[[]|e] conn']; [|done].
  simpl. unfold bind.
  destruct (server_iteration_cases bad conn') as [[_ ->] | [Hknown _]]; [done|].
  congruence.
Qed.

(** X4.  No run of the server loop changes the stream-ID counters, the
    GOAWAY flag, the version or the buffer; the queue is only extended, and
    only by RST_STREAM frames of version [SPDY_VERSION] with status
    PROTOCOL_ERROR or UNSUPPORTED_VERSION. *)
Theorem server_loop_keeps_counters (inputs : list Server.input)
    (conn : Server.connection) :
  let r := Server.readFrames inputs conn in
  Server.nextClientStreamID r.2 = Server.nextClientStreamID conn
  /\ Server.nextServerStreamID r.2 = Server.nextServerStreamID conn
  /\ Server.goaway r.2 = Server.goaway conn
  /\ Server.version r.2 = Server.version conn
  /\ Server.buffer r.2 = Server.buffer conn
  /\ exists replies,
       Server.queue r.2 = Server.queue conn ++ replies
       /\ Forall serverReply replies.
Proof. apply server_readFrames_fields. Qed.

(** Where the streams of the table come from. *)
Lemma server_readFrames_streams (inputs : list Server.input)
    (conn : Server.connection) (k : Z) (st : Server.stream) :
  Server.streams (Server.readFrames inputs conn).2 !! k = Some st ->
  Server.streams conn !! k = Some st
  \/ (k = wrap32 (Server.nextClientStreamID conn + 2)
      /\ Z.land k 1 <> 0 /\ k <= MAX_STREAM_ID
      /\ exists frame,
           Server.InFrame (FSynStream frame) ∈ inputs
           /\ ss_streamID frame = k
           /\ st = {| Server.syn := frame; Server.running := true |}).
Proof.
  revert conn. induction inputs as [|i rest IH]; intros conn; [by left|].
  simpl. unfold bind.
  destruct (server_iteration_cases i conn)
    as [[_ ->] | [_ [-> | [(reply & _ & ->)
                          | (f & -> & _ & Hseq & Hodd & Hmax & ->)]]]].
  - by left.
  - intros Hst. destruct (IH _ Hst) as [Hold | (Hk & ? & ? & f & Hin & ?)];
      [by left|].
    right. repeat split; try done. exists f. split; [by right | done].
  - intros Hst. destruct (IH _ Hst) as [Hold | (Hk & ? & ? & f & Hin & ?)];
      [by left|].
    right. repeat split; try done. exists f. split; [by right | done].
  - intros Hst. destruct (IH _ Hst) as [Hold | (Hk & ? & ? & f' & Hin & ?)].
    + simpl in Hold. apply lookup_insert_Some in Hold as [[<- <-] | [_ Hold]];
        [|by left].
      right. repeat split; try done. exists f. split; [by left | done].
    + right. simpl in Hk. repeat split; try done.
      exists f'. split; [by right | done].
Qed.

(** X5.  Every stream a run of the server loop adds to the table sits under
    the one ID the connection expected when the run began,
    [nextClientStreamID + 2] in 32-bit arithmetic, which is odd and at most
    [MAX_STREAM_ID]; it was created from a SYN_STREAM frame of the run with
    that ID, and its actor is running. *)
Theorem server_streams_come_from_syn (inputs : list Server.input)
    (conn : Server.connection) (k : Z) (st : Server.stream) :
  Server.streams (Server.readFrames inputs conn).2 !! k = Some st ->
  Server.streams conn !! k = Some st
  \/ (k = wrap32 (Server.nextClientStreamID conn + 2)
      /\ Z.land k 1 <> 0 /\ k <= MAX_STREAM_ID
      /\ exists frame,
           Server.InFrame (FSynStream frame) ∈ inputs
           /\ ss_streamID frame = k
           /\ st = {| Server.syn := frame; Server.running := true |}).
Proof. apply server_readFrames_streams. Qed.

(** X6.  The server does not notice a second SYN_STREAM for a stream it has
    accepted.  Since the counter of remote streams is not advanced, a second
    frame with the same stream ID that passes the version check passes every
    check as the first did: no RST_STREAM is sent, and the entry of the
    table under that ID becomes a stream created from the second frame and
    started; the other entries are those of before. *)
Theorem server_second_syn_replaces_stream (conn : Server.connection)
    (first second : SynStreamFrame) :
  Server.goaway conn = false ->
  (ss_version first = Server.version conn
   \/ ss_version first <= SPDY_VERSION) ->
  (ss_version second = Server.version conn
   \/ ss_version second <= SPDY_VERSION) ->
  Z.land (ss_streamID first) 1 <> 0 ->
  ss_streamID first = wrap32 (Server.nextClientStreamID conn + 2) ->
  ss_streamID first <= MAX_STREAM_ID ->
  ss_streamID second = ss_streamID first ->
  let r := Server.readFrames
             [Server.InFrame (FSynStream first);
              Server.InFrame (FSynStream second)] conn in
  r.1 = Ok tt
  /\ Server.queue r.2 = Server.queue conn
  /\ Server.streams r.2 !! ss_streamID first
     = Some (Server.run (Server.newStream second))
  /\ (forall k, k <> ss_streamID first ->
        Server.streams r.2 !! k = Server.streams conn !! k).
Proof.
  intros Hgo Hver1 Hver2 Hodd Hseq Hmax Hsame r. subst r. simpl.
  unfold bind. rewrite server_caseSynStream_accept by done.
  rewrite server_caseSynStream_accept
    by (rewrite ?Hsame; simpl; done).
  simpl. rewrite Hsame. repeat split.
  - by rewrite lookup_insert_eq.
  - intros k Hk. by rewrite !lookup_insert_ne.
Qed.

(** X7.  The sequence check, at any point of a run: a SYN_STREAM frame with
    an odd stream ID other than the ID the connection expected when the run
    began is answered with RST_STREAM(PROTOCOL_ERROR) for that ID, and
    creates no stream.  In particular stream 3 is refused on a connection
    that expected stream 1 even after stream 1 was accepted. *)
Theorem server_sequence_check_after_run (inputs : list Server.input)
    (conn : Server.connection) (frame : SynStreamFrame) :
  Server.goaway conn = false ->
  (ss_version frame = Server.version conn
   \/ ss_version frame <= SPDY_VERSION) ->
  Z.land (ss_streamID frame) 1 <> 0 ->
  ss_streamID frame <> wrap32 (Server.nextClientStreamID conn + 2) ->
  let after := (Server.readFrames inputs conn).2 in
  Server.iteration (Server.InFrame (FSynStream frame)) after
  = (Ok tt,
     Server.set_queue
       (Server.queue after
        ++ [FRstStream
              {| rs_version := SPDY_VERSION;
                 rs_streamID := ss_streamID frame;
                 rs_StatusCode := RST_STREAM_PROTOCOL_ERROR |}])
       after).
Proof.
  intros Hgo Hver Hodd Hseq after. subst after.
  destruct (server_readFrames_fields inputs conn)
    as (Hnext & _ & Hgo' & Hver' & _).
  simpl Server.iteration. unfold Server.handleFrame, Server.caseSynStream.
  rewrite Hgo', Hgo, Hver', Hnext.
  rewrite server_version_check by done.
  apply Z.eqb_neq in Hodd. rewrite Hodd.
  apply Z.eqb_neq in Hseq. by rewrite Hseq.
Qed.

End ServerLoop.

(** * How the client loop lets the connection evolve *)

Section ClientEvolution.
Import Client.
Context `{PackageDecls}.

Lemma flagsLe_refl (a : StreamObj) : flagsLe a a.
Proof. by unfold flagsLe. Qed.

Lemma flagsLe_trans (a b c : StreamObj) :
  flagsLe a b -> flagsLe b c -> flagsLe a c.
Proof. unfold flagsLe. intuition. Qed.

Lemma evolves_refl (a : clientConnection) : evolves a a.
Proof. constructor; first [done | intros s; apply flagsLe_refl]. Qed.

Lemma evolves_trans (a b c : clientConnection) :
  evolves a b -> evolves b c -> evolves a c.
Proof.
  intros Hab Hbc. constructor.
  - by rewrite (ev_version _ _ Hbc), (ev_version _ _ Hab).
  - by rewrite (ev_nextServer _ _ Hbc), (ev_nextServer _ _ Hab).
  - by rewrite (ev_nextClient _ _ Hbc), (ev_nextClient _ _ Hab).
  - by rewrite (ev_pingID _ _ Hbc), (ev_pingID _ _ Hab).
  - by rewrite (ev_nextRef _ _ Hbc), (ev_nextRef _ _ Hab).
  - by rewrite (ev_done _ _ Hbc), (ev_done _ _ Hab).
  - etrans; [apply (ev_dataOutput _ _ Hab) | apply (ev_dataOutput _ _ Hbc)].
  - etrans; [apply (ev_streams _ _ Hbc) | apply (ev_streams _ _ Hab)].
  - etrans; [apply (ev_streamInputs _ _ Hbc)
            | apply (ev_streamInputs _ _ Hab)].
  - etrans; [apply (ev_pings _ _ Hbc) | apply (ev_pings _ _ Hab)].
  - pose proof (ev_errors _ _ Hab). pose proof (ev_errors _ _ Hbc). lia.
  - intros Hgo. by apply (ev_goaway _ _ Hbc), (ev_goaway _ _ Hab).
  - intros k. etrans; [apply (ev_buf _ _ Hab) | apply (ev_buf _ _ Hbc)].
  - intros k Hk. pose proof (ev_closed _ _ Hab k Hk) as Hb.
    rewrite <- Hb. apply (ev_closed _ _ Hbc). by rewrite Hb.
  - intros s. eapply flagsLe_trans;
      [apply (ev_flags _ _ Hab) | apply (ev_flags _ _ Hbc)].
  - intros k Hk. pose proof (ev_notifier _ _ Hab k Hk) as Hb.
    rewrite <- Hb. apply (ev_notifier _ _ Hbc). by rewrite Hb.
Qed.

Lemma evolving_bind {A B} (m : M clientConnection A)
    (k : A -> M clientConnection B) :
  evolving m -> (forall a, evolving (k a)) -> evolving (bind m k).
Proof.
  intros Hm Hk conn. unfold bind. specialize (Hm conn).
  destruct (m conn) as [[a|e] conn']; [|done].
  eapply evolves_trans; [exact Hm | apply Hk].
Qed.

Lemma evolving_ret {A} (a : A) : evolving (ret a).
Proof. intros conn. apply evolves_refl. Qed.

Lemma evolving_stop {A} (e : exit) : evolving (@stop _ A e).
Proof. intros conn. apply evolves_refl. Qed.

(** Closes the goals on a single update of the connection. *)
Ltac evolves_leaf :=
  constructor; simpl;
  first [ done
        | lia
        | by apply prefix_app_r
        | intros ?; apply flagsLe_refl
        | idtac ].

Lemma evolving_WriteFrame (frame : Frame) : evolving (WriteFrame frame).
Proof. intros conn. unfold WriteFrame, modify. evolves_leaf. Qed.

Lemma evolving_benignError : evolving benignError.
Proof. intros conn. unfold benignError, modify. evolves_leaf. Qed.

Lemma evolving_send (c : option nat) (frame : Frame) :
  evolving (send c frame).
Proof.
  intros conn. unfold send. destruct c as [r|]; [|apply evolves_refl].
  destruct (ch_closed (chanStore conn r)) eqn:Hr; [apply evolves_refl|].
  evolves_leaf.
  - intros c. unfold alter, fn_alter.
    destruct (decide (r = c)) as [->|]; [by apply prefix_app_r | done].
  - intros c Hc. rewrite fn_lookup_alter_ne; [done|]. congruence.
Qed.

Lemma evolving_close (c : option nat) : evolving (close c).
Proof.
  intros conn. unfold close. destruct c as [r|]; [|apply evolves_refl].
  destruct (ch_closed (chanStore conn r)) eqn:Hr; [apply evolves_refl|].
  evolves_leaf.
  - intros c. unfold alter, fn_alter.
    by destruct (decide (r = c)) as [->|].
  - intros c Hc. rewrite fn_lookup_alter_ne; [done|]. congruence.
Qed.

Lemma evolving_sendBool (r : nat) (b : bool) : evolving (sendBool r b).
Proof.
  intros conn. unfold sendBool.
  destruct (bc_closed (pingStore conn r)) eqn:Hr; [apply evolves_refl|].
  destruct (bc_buf (pingStore conn r)); [|apply evolves_refl].
  evolves_leaf.
  intros c Hc. rewrite fn_lookup_alter_ne; [done|]. congruence.
Qed.

Lemma evolving_closeBool (r : nat) : evolving (closeBool r).
Proof.
  intros conn. unfold closeBool.
  destruct (bc_closed (pingStore conn r)) eqn:Hr; [apply evolves_refl|].
  evolves_leaf.
  intros c Hc. rewrite fn_lookup_alter_ne; [done|]. congruence.
Qed.

Lemma evolving_call (s : option nat) (method : StreamObj -> StreamObj) :
  (forall x, flagsLe x (method x)) -> evolving (call s method).
Proof.
  intros Hmethod conn. unfold call. destruct s as [r|]; [|apply evolves_refl].
  evolves_leaf.
  intros s. unfold alter, fn_alter.
  destruct (decide (r = s)) as [->|]; [apply Hmethod | apply flagsLe_refl].
Qed.

Lemma flagsLe_Stop (x : StreamObj) : flagsLe x (Stop x).
Proof. by unfold flagsLe. Qed.
Lemma flagsLe_Cancel (x : StreamObj) : flagsLe x (Cancel x).
Proof. by unfold flagsLe. Qed.
Lemma flagsLe_State_Close (x : StreamObj) : flagsLe x (State_Close x).
Proof. by unfold flagsLe. Qed.
Lemma flagsLe_State_CloseThere (x : StreamObj) :
  flagsLe x (State_CloseThere x).
Proof. by unfold flagsLe. Qed.

Lemma evolving_modify (f : clientConnection -> clientConnection) :
  (forall conn, evolves conn (f conn)) -> evolving (modify f).
Proof. intros Hf conn. apply Hf. Qed.

Lemma evolving_cleanupLoop (entries : list (Z * nat)) :
  evolving (cleanupLoop entries).
Proof.
  induction entries as [|[sid c] rest IH]; [apply evolving_ret|].
  simpl. apply evolving_bind; [apply evolving_close|]. intros _.
  apply evolving_bind; [|by intros _].
  intros conn. apply evolving_call, flagsLe_Stop.
Qed.

Lemma evolving_cleanup : evolving cleanup.
Proof.
  unfold cleanup. apply evolving_bind.
  { intros conn. apply evolving_cleanupLoop. }
  intros _. apply evolving_bind.
  - apply evolving_modify. intros conn. evolves_leaf. apply map_empty_subseteq.
  - intros _. apply evolving_modify. intros conn. evolves_leaf.
    apply map_empty_subseteq.
Qed.

Lemma evolving_PROTOCOL_ERROR (streamID : Z) :
  evolving (PROTOCOL_ERROR streamID).
Proof.
  unfold PROTOCOL_ERROR. apply evolving_bind.
  { intros conn. apply evolving_WriteFrame. }
  intros _. apply evolving_bind; [apply evolving_cleanup|].
  intros _. apply evolving_stop.
Qed.

Lemma evolving_closeStream (streamID : Z) : evolving (closeStream streamID).
Proof.
  unfold closeStream. destruct (streamID =? 0); [apply evolving_ret|].
  apply evolving_bind.
  { intros conn. apply evolving_call, flagsLe_Stop. }
  intros _. apply evolving_bind.
  { intros conn. apply evolving_call, flagsLe_State_Close. }
  intros _. apply evolving_bind.
  { intros conn. apply evolving_close. }
  intros _. apply evolving_modify. intros conn. evolves_leaf.
  apply delete_subseteq.
Qed.

Lemma evolving_handleRstStream (frame : RstStreamFrame) :
  evolving (handleRstStream frame).
Proof.
  unfold handleRstStream.
  repeat first
    [ apply evolving_benignError
    | apply evolving_closeStream
    | apply evolving_PROTOCOL_ERROR
    | match goal with |- evolving (if ?b then _ else _) => destruct b end ].
Qed.

Lemma evolving_route (sid flags : Z) (frame : Frame) :
  evolving
    ((fun c => send (streamInputs c !! sid) frame c)
     >> (if negb (Z.land flags FLAG_FIN =? 0)
         then fun c => call (streams c !! sid) State_CloseThere c
         else ret tt)).
Proof.
  apply evolving_bind.
  { intros conn. apply evolving_send. }
  intros _. destruct (negb _); [|apply evolving_ret].
  intros conn. apply evolving_call, flagsLe_State_CloseThere.
Qed.

Lemma evolving_handleDataFrame (frame : DataFrame) :
  evolving (handleDataFrame frame).
Proof.
  intros conn. unfold handleDataFrame.
  destruct (_ =? 0); [apply evolving_benignError|].
  destruct (notOpen _ _); [apply evolving_benignError|].
  apply evolving_route.
Qed.

Lemma evolving_handleHeadersFrame (frame : HeadersFrame) :
  evolving (handleHeadersFrame frame).
Proof.
  intros conn. unfold handleHeadersFrame.
  destruct (_ =? 0); [apply evolving_benignError|].
  destruct (notOpen _ _); [apply evolving_benignError|].
  apply evolving_route.
Qed.

Lemma evolving_handleWindowUpdateFrame (frame : WindowUpdateFrame) :
  evolving (handleWindowUpdateFrame frame).
Proof.
  intros conn. unfold handleWindowUpdateFrame.
  destruct (_ =? 0); [apply evolving_benignError|].
  destruct (notOpen _ _); [apply evolving_benignError|].
  apply evolving_bind.
  - destruct (_ || _); [apply evolving_PROTOCOL_ERROR | apply evolving_ret].
  - intros _ c. apply evolving_send.
Qed.

Lemma evolving_cancelLoop (lastProcessed : Z) (entries : list (Z * nat)) :
  evolving (cancelLoop lastProcessed entries).
Proof.
  induction entries as [|[sid s] rest IH]; [apply evolving_ret|].
  simpl. apply evolving_bind; [|by intros _].
  destruct (_ && _); [apply evolving_call, flagsLe_Cancel | apply evolving_ret].
Qed.

Lemma evolving_settingsLoop (settings : list Setting) :
  evolving (settingsLoop settings).
Proof.
  induction settings as [|s rest IH]; [apply evolving_ret|].
  simpl. apply evolving_bind.
  { apply evolving_modify. intros conn. evolves_leaf. }
  intros _. apply evolving_bind; [|by intros _].
  intros conn. destruct (_ && _); [|apply evolves_refl].
  unfold modify. evolves_leaf.
Qed.

Lemma evolving_casePing (frame : PingFrame) : evolving (casePing frame).
Proof.
  intros conn. unfold casePing.
  destruct (negb _); [|apply evolving_WriteFrame].
  destruct (pings conn !! pf_PingID frame) as [c|];
    [|apply evolving_benignError].
  apply evolving_bind; [apply evolving_sendBool|].
  intros _. apply evolving_bind; [apply evolving_closeBool|].
  intros _. apply evolving_modify. intros k. evolves_leaf.
  apply delete_subseteq.
Qed.

Lemma evolving_handleFrame (frame : Frame) : evolving (handleFrame frame).
Proof.
  destruct frame; simpl; try apply evolving_ret.
  - destruct (StatusCodeIsFatal _);
      [apply evolving_stop | apply evolving_handleRstStream].
  - apply evolving_settingsLoop.
  - apply evolving_casePing.
  - apply evolving_bind.
    + intros conn. apply evolving_cancelLoop.
    + intros _. apply evolving_modify. intros conn. evolves_leaf.
  - apply evolving_handleHeadersFrame.
  - apply evolving_handleWindowUpdateFrame.
  - apply evolving_handleDataFrame.
Qed.

Lemma evolving_iteration (i : input) : evolving (iteration i).
Proof.
  unfold iteration. apply evolving_bind.
  - intros conn. unfold checkBenignErrors.
    destruct (_ <? _); [apply evolving_PROTOCOL_ERROR | apply evolves_refl].
  - intros _. destruct i as [frame [] | |]; try apply evolving_stop.
    intros conn. simpl.
    destruct (negb _); [apply evolving_WriteFrame | apply evolving_handleFrame].
Qed.

(** A run of the ingress loop lets the connection evolve. *)
Lemma evolving_readFrames (inputs : list input) :
  evolving (readFrames inputs).
Proof.
  induction inputs as [|i rest IH]; simpl.
  - intros conn. unfold checkBenignErrors.
    destruct (_ <? _); [apply evolving_PROTOCOL_ERROR | apply evolves_refl].
  - apply evolving_bind; [apply evolving_iteration | by intros _].
Qed.

End ClientEvolution.

(** * Further properties of the client loop *)

Section ClientLoopProperties.
Import Client.
Context `{PackageDecls}.

(** X8.  The outbound queue is first in, first out for its producers: no
    run of the ingress loop removes or reorders a frame that was enqueued;
    the queue after the run is the queue before it followed by the frames
    the run enqueued. *)
Theorem client_outbound_queue_only_grows (inputs : list input)
    (conn : clientConnection) :
  exists sent,
    dataOutput (readFrames inputs conn).2 = dataOutput conn ++ sent.
Proof.
  destruct (ev_dataOutput _ _ (evolving_readFrames inputs conn)) as [sent Hs].
  by exists sent.
Qed.

(** X9.  No run of the ingress loop registers anything or moves a counter:
    the stream table, the inbox table and the ping registry only lose
    entries, and the version, both stream-ID counters, the next ping ID and
    the count of the wait group are left as they were. *)
Theorem client_loop_registers_nothing (inputs : list input)
    (conn : clientConnection) :
  let after := (readFrames inputs conn).2 in
  streams after ⊆ streams conn
  /\ streamInputs after ⊆ streamInputs conn
  /\ pings after ⊆ pings conn
  /\ version after = version conn
  /\ nextServerStreamID after = nextServerStreamID conn
  /\ nextClientStreamID after = nextClientStreamID conn
  /\ pingID after = pingID conn
  /\ done after = done conn.
Proof.
  pose proof (evolving_readFrames inputs conn) as Hev. cbv zeta.
  repeat split;
    [exact (ev_streams _ _ Hev) | exact (ev_streamInputs _ _ Hev)
    |exact (ev_pings _ _ Hev) | exact (ev_version _ _ Hev)
    |exact (ev_nextServer _ _ Hev) | exact (ev_nextClient _ _ Hev)
    |exact (ev_pingID _ _ Hev) | exact (ev_done _ _ Hev)].
Qed.

(** X10.  What a run of the ingress loop does to the objects behind the
    tables: an inbox only has frames appended; an inbox that is closed is
    frozen (it stays closed and receives nothing more); a ping notifier
    that is closed is frozen; and a stream that was asked to stop, to
    cancel or to close is never un-asked. *)
Theorem client_closed_objects_are_frozen (inputs : list input)
    (conn : clientConnection) :
  let after := (readFrames inputs conn).2 in
  (forall c, exists received,
     ch_buf (chanStore after c) = ch_buf (chanStore conn c) ++ received)
  /\ (forall c, ch_closed (chanStore conn c) = true ->
        chanStore after c = chanStore conn c)
  /\ (forall c, bc_closed (pingStore conn c) = true ->
        pingStore after c = pingStore conn c)
  /\ (forall s,
        (stopped (streamStore conn s) = true ->
         stopped (streamStore after s) = true)
        /\ (cancelled (streamStore conn s) = true ->
            cancelled (streamStore after s) = true)
        /\ (closed (streamStore conn s) = true ->
            closed (streamStore after s) = true)
        /\ (closedThere (streamStore conn s) = true ->
            closedThere (streamStore after s) = true)).
Proof.
  pose proof (evolving_readFrames inputs conn) as Hev. cbv zeta.
  split; [|split; [exact (ev_closed _ _ Hev)
                  |split; [exact (ev_notifier _ _ Hev)|]]].
  - intros c. destruct (ev_buf _ _ Hev c) as [received Hr].
    by exists received.
  - intros s. apply (ev_flags _ _ Hev).
Qed.

(** The head of the loop leaves the error count alone. *)
Lemma checkBenignErrors_count (conn : clientConnection) :
  numBenignErrors (checkBenignErrors conn).2 = numBenignErrors conn.
Proof.
  unfold checkBenignErrors. destruct (_ <? _); [|done].
  by destruct (quiet_PROTOCOL_ERROR 0 conn) as (_ & _ & _ & Hn & _).
Qed.

(** X11.  Over a run of the ingress loop the count of benign errors never
    decreases, and grows by at most one for each input the transport
    delivered. *)
Theorem client_errors_grow_by_input (inputs : list input)
    (conn : clientConnection) :
  let after := (readFrames inputs conn).2 in
  numBenignErrors conn <= numBenignErrors after
  <= numBenignErrors conn + Z.of_nat (length inputs).
Proof.
  cbv zeta. revert conn. induction inputs as [|i rest IH]; intros conn.
  - simpl. rewrite checkBenignErrors_count. lia.
  - simpl readFrames. unfold bind.
    destruct (iteration_invariant i conn) as (Hn & _).
    destruct (iteration i conn) as [[[]|e] conn']; simpl in Hn.
    + specialize (IH conn'). simpl length. lia.
    + simpl. simpl length. lia.
Qed.

(** X13.  The version gate of the loop, within budget.  A frame other than
    DATA whose version is not the connection's (as a 16-bit value) is not
    dispatched: the client enqueues RST_STREAM(UNSUPPORTED_VERSION) of version
    [SPDY_VERSION] for the frame's stream ID (0 for a frame that references no
    stream) and changes nothing else.  A DATA frame carries no version and
    always reaches its handler. *)
Theorem client_version_gate (conn : clientConnection) (frame : Frame) :
  numBenignErrors conn <= MaxBenignErrors ->
  let r := iteration (InFrame frame true) conn in
  ((forall f, frame <> FData f) ->
   Frame_Version frame <> wrap16 (version conn) ->
   r = (Ok tt,
        set_dataOutput
          (dataOutput conn
           ++ [FRstStream
                 {| rs_version := SPDY_VERSION;
                    rs_streamID := Frame_StreamID frame;
                    rs_StatusCode := RST_STREAM_UNSUPPORTED_VERSION |}])
          conn))
  /\ (forall f, frame = FData f -> r = handleDataFrame f conn).
Proof.
  intros Hbudget r. subst r. unfold iteration, bind, checkBenignErrors.
  apply Z.ltb_ge in Hbudget. rewrite Hbudget. unfold ret. split.
  - intros Hdata Hver. apply Z.eqb_neq in Hver. unfold receive.
    assert (validFrameVersion frame conn = false) as ->; [|done].
    destruct frame; try done. by destruct (Hdata f).
  - by intros f ->.
Qed.

(** X14.  What [handleRstStream] makes of each status code.  INVALID_STREAM,
    FLOW_CONTROL_ERROR, STREAM_IN_USE, STREAM_ALREADY_CLOSED and
    INVALID_CREDENTIALS only count a benign error: the referenced stream, if
    there is one, is left open and registered.  REFUSED_STREAM closes the
    referenced stream whatever the parity of its ID.  Every code other than
    these and CANCEL is a protocol error on the referenced stream. *)
Theorem client_rst_status_codes (conn : clientConnection)
    (frame : RstStreamFrame) :
  let code := rs_StatusCode frame in
  let r := handleRstStream frame conn in
  (code ∈ [RST_STREAM_INVALID_STREAM; RST_STREAM_FLOW_CONTROL_ERROR;
           RST_STREAM_STREAM_IN_USE; RST_STREAM_STREAM_ALREADY_CLOSED;
           RST_STREAM_INVALID_CREDENTIALS] ->
   r = (Ok tt, set_numBenignErrors (numBenignErrors conn + 1) conn))
  /\ (code = RST_STREAM_REFUSED_STREAM ->
      r = closeStream (rs_streamID frame) conn)
  /\ (code ∉ [RST_STREAM_INVALID_STREAM; RST_STREAM_REFUSED_STREAM;
              RST_STREAM_CANCEL; RST_STREAM_FLOW_CONTROL_ERROR;
              RST_STREAM_STREAM_IN_USE; RST_STREAM_STREAM_ALREADY_CLOSED;
              RST_STREAM_INVALID_CREDENTIALS] ->
      r = PROTOCOL_ERROR (rs_streamID frame) conn).
Proof.
  cbv zeta. unfold handleRstStream. split; [|split].
  - intros Hin. repeat (apply elem_of_cons in Hin as [-> | Hin]; [done|]).
    by apply elem_of_nil in Hin.
  - by intros ->.
  - intros Hnotin.
    repeat match goal with
           | |- context [rs_StatusCode frame =? ?c] =>
               destruct (Z.eqb_spec (rs_StatusCode frame) c) as [Heq|_];
               [exfalso; apply Hnotin; rewrite Heq;
                repeat first [by apply list_elem_of_here
                             | apply list_elem_of_further]|]
           end.
    done.
Qed.

(** X15.  The edges of [closeStream].  Stream 0 is refused without any
    effect.  For a stream ID that is not in [streams] the call panics (the
    method call on the missing entry) with the connection untouched.  For a
    registered stream whose inbox is missing or already closed the call
    panics after the stream was stopped and its state closed, and the stream
    stays in [streams]. *)
Theorem client_closeStream_edges (conn : clientConnection) (sid : Z) :
  (sid = 0 -> closeStream sid conn = (Ok tt, conn))
  /\ (sid <> 0 -> streams conn !! sid = None ->
      closeStream sid conn = (Exit Panicked, conn))
  /\ (sid <> 0 ->
      forall st, streams conn !! sid = Some st ->
        (streamInputs conn !! sid = None
         \/ exists c, streamInputs conn !! sid = Some c
                      /\ ch_closed (chanStore conn c) = true) ->
        closeStream sid conn
        = (Exit Panicked,
           set_streamStore
             (alter State_Close st (alter Stop st (streamStore conn))) conn)).
Proof.
  unfold closeStream. split; [|split].
  - by intros ->.
  - intros Hsid Hnone. apply Z.eqb_neq in Hsid. rewrite Hsid.
    unfold bind, call. by rewrite Hnone.
  - intros Hsid st Hst Hinbox. apply Z.eqb_neq in Hsid. rewrite Hsid.
    unfold bind, call. rewrite Hst. simpl. rewrite Hst. simpl.
    unfold close. destruct Hinbox as [-> | (c & -> & Hclosed)]; [done|].
    simpl. by rewrite Hclosed.
Qed.

(** The [cleanup] loop completes exactly on entries that are fit for it
    and listed once, and panics otherwise. *)
Lemma cleanupLoop_completes (entries : list (Z * nat))
    (conn : clientConnection) :
  ((cleanupLoop entries conn).1 = Ok tt
   \/ (cleanupLoop entries conn).1 = Exit Panicked)
  /\ ((cleanupLoop entries conn).1 = Ok tt
      <-> NoDup entries.*2
          /\ forall e, e ∈ entries -> inboxOk conn e = true).
Proof.
  revert conn. induction entries as [|[sid c] rest IH]; intros conn.
  - simpl. split; [by left|]. split; [|done]. intros _.
    split; [constructor|]. intros e He. by apply elem_of_nil in He.
  - rewrite cleanupLoop_cons.
    destruct (ch_closed (chanStore conn c)) eqn:Hc.
    { split; [by right|]. split; [done|]. intros [_ Hok].
      specialize (Hok (sid, c) ltac:(left)). unfold inboxOk in Hok.
      simpl in Hok. by rewrite Hc in Hok. }
    cbv zeta. destruct (streams conn !! sid) as [st|] eqn:Hst.
    2:{ split; [by right|]. split; [done|]. intros [_ Hok].
        specialize (Hok (sid, c) ltac:(left)). unfold inboxOk in Hok.
        simpl in Hok. by rewrite Hst, Hc in Hok. }
    match goal with |- context [cleanupLoop rest ?k] =>
      destruct (IH k) as [Hcases Hiff]; set (conn2 := k) in * end.
    split; [done|]. rewrite Hiff. clear Hiff Hcases IH.
    assert (forall e, inboxOk conn2 e = true
                      <-> inboxOk conn e = true /\ e.2 <> c) as Hstep.
    { intros [sid' c']. unfold inboxOk, conn2. simpl.
      unfold alter, fn_alter. destruct (decide (c = c')) as [->|Hne].
      - simpl. split; [done|]. by intros [_ ?].
      - split; [by intros ?|by intros [? _]]. }
    simpl fmap. rewrite NoDup_cons. split.
    + intros [Hnd Hok]. split; [split; [|done]|].
      * intros ((sid' & c') & Hc' & Hin)%list_elem_of_fmap. simpl in Hc'.
        subst c'. by destruct (proj1 (Hstep _) (Hok _ Hin)).
      * intros e [->|Hin]%elem_of_cons.
        -- unfold inboxOk. simpl. by rewrite Hc, Hst.
        -- by destruct (proj1 (Hstep _) (Hok _ Hin)).
    + intros [[Hnotin Hnd] Hok]. split; [done|].
      intros e Hin. apply Hstep. split; [apply Hok; by right|].
      intros Heq. apply Hnotin, list_elem_of_fmap. by exists e.
Qed.

(** [cleanup] completes exactly on an inbox table that is fit for it. *)
Lemma cleanup_completes (conn : clientConnection) :
  let r := cleanup conn in
  (inboxesOk conn = true ->
   r.1 = Ok tt /\ streams r.2 = ∅ /\ streamInputs r.2 = ∅)
  /\ (inboxesOk conn = false ->
      r.1 = Exit Panicked
      /\ streams r.2 = streams conn
      /\ streamInputs r.2 = streamInputs conn).
Proof.
  cbv zeta. rewrite cleanup_eq.
  destruct (cleanupLoop_completes (map_to_list (streamInputs conn)) conn)
    as [Hcases Hiff].
  destruct (cleanupLoop_frame (map_to_list (streamInputs conn)) conn)
    as (_ & _ & Hs & Hi & _).
  assert (inboxesOk conn = true
          <-> NoDup (map_to_list (streamInputs conn)).*2
              /\ forall e, e ∈ map_to_list (streamInputs conn) ->
                           inboxOk conn e = true) as Hfit.
  { unfold inboxesOk. rewrite andb_true_iff, bool_decide_eq_true.
    rewrite forallb_forall. split.
    - intros [Hall Hnd]. split; [done|]. intros e He.
      by apply Hall, list_elem_of_In.
    - intros [Hnd Hall]. split; [|done]. intros e He.
      by apply Hall, list_elem_of_In. }
  destruct (cleanupLoop (map_to_list (streamInputs conn)) conn)
    as [[[]|e] conn']; simpl in *.
  - split; [done|]. intros Hbad. rewrite <- Hiff in Hfit.
    destruct Hfit as [_ Hfit]. rewrite Hfit in Hbad; done.
  - split.
    + intros Hfit'. apply Hfit, Hiff in Hfit'. done.
    + intros _. by destruct Hcases as [? | [= ->]].
Qed.

(** X16.  When [cleanup] completes.  It completes exactly when the inbox
    table is fit for it: every inbox in it open, registered under one key
    only, and with a stream under the same key.  Otherwise it panics (on
    the close of a closed inbox, or on the stop of a missing stream) and
    both tables are left in place, not emptied. *)
Theorem client_cleanup_completes_iff (conn : clientConnection) :
  let r := cleanup conn in
  (inboxesOk conn = true ->
   r.1 = Ok tt /\ streams r.2 = ∅ /\ streamInputs r.2 = ∅)
  /\ (inboxesOk conn = false ->
      r.1 = Exit Panicked
      /\ streams r.2 = streams conn
      /\ streamInputs r.2 = streamInputs conn).
Proof. apply cleanup_completes. Qed.

(** X17.  How [closeStream] and [cleanup] compose.  A [closeStream] that
    completes for a stream other than 0 leaves the closed inbox of that
    stream in [streamInputs], so that a [cleanup] after it panics and leaves
    the tables in place.  A [cleanup] that completes leaves a connection on
    which a second [cleanup] completes too and changes nothing. *)
Theorem client_cleanup_after (conn conn' : clientConnection) :
  (forall sid, sid <> 0 -> closeStream sid conn = (Ok tt, conn') ->
     (cleanup conn').1 = Exit Panicked
     /\ streamInputs (cleanup conn').2 = streamInputs conn)
  /\ (cleanup conn = (Ok tt, conn') -> cleanup conn' = (Ok tt, conn')).
Proof.
  split.
  - intros sid Hsid Hclose.
    assert (exists st c, streams conn !! sid = Some st
                         /\ streamInputs conn !! sid = Some c
                         /\ ch_closed (chanStore conn c) = false)
      as (st & c & Hst & Hc & Hopen).
    { revert Hclose. unfold closeStream.
      apply Z.eqb_neq in Hsid. rewrite Hsid. unfold bind, call.
      destruct (streams conn !! sid) as [st|] eqn:Hst; [|done]. simpl.
      rewrite Hst. simpl.
      unfold close. destruct (streamInputs conn !! sid) as [c|]; [|done].
      simpl. destruct (ch_closed (chanStore conn c)) eqn:Hopen; [done|].
      intros _. by exists st, c. }
    rewrite (closeStream_ok conn sid st c) in Hclose by done.
    injection Hclose as <-.
    match goal with |- context [cleanup ?k] =>
      destruct (cleanup_completes k) as [_ Hbad]; set (conn1 := k) in * end.
    assert (inboxesOk conn1 = false) as Hunfit.
    { apply not_true_is_false. unfold inboxesOk. intros Hfit.
      apply andb_true_iff in Hfit as [Hall _].
      rewrite forallb_forall in Hall.
      specialize (Hall (sid, c)). unfold inboxOk, conn1 in Hall.
      simpl in Hall. rewrite fn_lookup_alter in Hall. simpl in Hall.
      assert ((false : bool) = true) as Habs; [|done].
      apply Hall, list_elem_of_In, elem_of_map_to_list. done. }
    destruct (Hbad Hunfit) as (Hpanic & _ & Hinputs). done.
  - intros Hok. rewrite cleanup_eq in Hok.
    destruct (cleanupLoop _ conn) as [[[]|e] conn1]; [|done].
    injection Hok as <-. rewrite cleanup_eq. simpl.
    by rewrite map_to_list_empty.
Qed.

End ClientLoopProperties.

(** * SETTINGS, GOAWAY, HEADERS and SYN_STREAM on the client *)

Section ClientFrames.
Import Client.
Context `{PackageDecls}.

Lemma lastSetting_cons (id : Z) (s : Setting) (rest : list Setting) :
  lastSetting id (s :: rest)
  = match lastSetting id rest with
    | Some x => Some x
    | None => if decide (set_ID s = id) then Some s else None
    end.
Proof.
  unfold lastSetting. rewrite filter_cons.
  destruct (decide (set_ID s = id)); [rewrite last_cons|];
    by destruct (last _).
Qed.

(** One turn of the SETTINGS loop. *)
Lemma settingsLoop_cons (s : Setting) (rest : list Setting)
    (conn : clientConnection) :
  settingsLoop (s :: rest) conn
  = settingsLoop rest
      (let conn1 :=
         set_receivedSettings (<[set_ID s := s]> (receivedSettings conn))
                              conn in
       if (set_ID s =? SETTINGS_INITIAL_WINDOW_SIZE) && (2 <? version conn)
       then set_initialWindowSize (set_Value s) conn1
       else conn1).
Proof.
  simpl. unfold bind, modify. simpl. by destruct (_ && _).
Qed.

(** The SETTINGS loop in closed form. *)
Lemma settingsLoop_eq (settings : list Setting) (conn : clientConnection) :
  exists m w,
    settingsLoop settings conn
    = (Ok tt, set_initialWindowSize w (set_receivedSettings m conn))
    /\ (forall id,
          m !! id = match lastSetting id settings with
                    | Some s => Some s
                    | None => receivedSettings conn !! id
                    end)
    /\ w = match lastSetting SETTINGS_INITIAL_WINDOW_SIZE settings with
           | Some s => if 2 <? version conn then set_Value s
                       else initialWindowSize conn
           | None => initialWindowSize conn
           end.
Proof.
  revert conn. induction settings as [|s rest IH]; intros conn.
  - exists (receivedSettings conn), (initialWindowSize conn).
    split; [by destruct conn | done].
  - rewrite settingsLoop_cons. cbv zeta.
    match goal with |- context [settingsLoop rest ?k] =>
      destruct (IH k) as (m & w & Heq & Hm & Hw); set (conn1 := k) in * end.
    exists m, w. split; [|split].
    + rewrite Heq. subst conn1. destruct (_ && _); reflexivity.
    + intros id. rewrite Hm, lastSetting_cons.
      destruct (lastSetting id rest); [done|].
      subst conn1. destruct (decide (set_ID s = id)) as [<-|Hne].
      * destruct (_ && _); simpl; apply lookup_insert_eq.
      * destruct (_ && _); simpl; by apply lookup_insert_ne.
    + rewrite Hw, lastSetting_cons.
      assert (version conn1 = version conn) as ->
        by (subst conn1; by destruct (_ && _)).
      subst conn1.
      destruct (lastSetting SETTINGS_INITIAL_WINDOW_SIZE rest).
      * destruct (2 <? version conn); [done|]. by rewrite andb_false_r.
      * destruct (decide (set_ID s = SETTINGS_INITIAL_WINDOW_SIZE))
          as [Hid|Hne].
        -- rewrite Hid, Z.eqb_refl. simpl. by destruct (2 <? version conn).
        -- apply Z.eqb_neq in Hne. by rewrite Hne.
Qed.

(** X18.  A SETTINGS frame is stored last-write-wins and never fails.
    After the frame, [receivedSettings] holds for each ID the last setting of
    the frame with that ID, and what it held before for the IDs the frame
    does not mention; on a connection of version above 2 the initial window
    size is the value of the frame's last SETTINGS_INITIAL_WINDOW_SIZE
    setting, if it has one; nothing else changes, and no reply is sent. *)
Theorem client_settings_last_write_wins (conn : clientConnection)
    (frame : SettingsFrame) :
  exists m w,
    handleFrame (FSettings frame) conn
    = (Ok tt, set_initialWindowSize w (set_receivedSettings m conn))
    /\ (forall id,
          m !! id = match lastSetting id (sf_Settings frame) with
                    | Some s => Some s
                    | None => receivedSettings conn !! id
                    end)
    /\ w = match lastSetting SETTINGS_INITIAL_WINDOW_SIZE (sf_Settings frame)
           with
           | Some s => if 2 <? version conn then set_Value s
                       else initialWindowSize conn
           | None => initialWindowSize conn
           end.
Proof. apply settingsLoop_eq. Qed.

Lemma cancelAll_lookup (ss : list nat) (store : nat -> StreamObj) (s : nat) :
  cancelAll store ss s
  = if decide (s ∈ ss) then Cancel (store s) else store s.
Proof.
  revert store. induction ss as [|a ss IH]; intros store; [done|].
  simpl. rewrite IH. unfold alter, fn_alter.
  destruct (decide (s ∈ ss)) as [Hin|Hnotin];
    destruct (decide (s ∈ a :: ss)) as [Hin'|Hnotin'];
    destruct (decide (a = s)) as [->|Hne]; try done.
  - exfalso. apply Hnotin', elem_of_cons. by right.
  - exfalso. apply Hnotin', elem_of_cons. by right.
  - apply elem_of_cons in Hin' as [->|Hin']; done.
  - exfalso. apply Hnotin', elem_of_cons. by left.
Qed.

(** The GOAWAY loop in closed form: it never fails. *)
Lemma cancelLoop_eq (lastProcessed : Z) (entries : list (Z * nat))
    (conn : clientConnection) :
  cancelLoop lastProcessed entries conn
  = (Ok tt,
     set_streamStore
       (cancelAll (streamStore conn) (cancelTargets lastProcessed entries))
       conn).
Proof.
  revert conn. induction entries as [|[sid s] rest IH]; intros conn.
  - by destruct conn.
  - simpl cancelLoop. unfold bind. unfold cancelTargets.
    rewrite filter_cons. simpl.
    destruct (decide (Z.land sid 1 <> 0 /\ lastProcessed < sid))
      as [[Hodd Hgt]|Hno].
    + apply Z.eqb_neq in Hodd. apply Z.ltb_lt in Hgt. rewrite Hodd, Hgt.
      simpl. by rewrite IH.
    + assert (negb (Z.land sid 1 =? 0) && (lastProcessed <? sid) = false)
        as ->.
      { apply not_true_is_false. intros Hyes. apply Hno.
        apply andb_true_iff in Hyes as [Hodd Hgt].
        apply negb_true_iff, Z.eqb_neq in Hodd. by apply Z.ltb_lt in Hgt. }
      unfold ret. by rewrite IH.
Qed.

(** X19.  A GOAWAY frame never fails and sets the GOAWAY flag.  It asks
    exactly the streams registered under an odd ID above the frame's last
    good stream ID to cancel; every other stream object, both tables, the
    outbound queue and the error count are left as they were.  From then on
    [handleSynStream] drops every SYN_STREAM without any effect. *)
Theorem client_goaway_cancels_later_streams (conn : clientConnection)
    (frame : GoawayFrame) :
  let lastGood := ga_LastGoodStreamID frame in
  exists store',
    handleFrame (FGoaway frame) conn
    = (Ok tt, set_goaway true (set_streamStore store' conn))
    /\ (forall sid s, streams conn !! sid = Some s ->
          Z.land sid 1 <> 0 -> lastGood < sid ->
          store' s = Cancel (streamStore conn s))
    /\ (forall s,
          (forall sid, streams conn !! sid = Some s ->
             Z.land sid 1 = 0 \/ sid <= lastGood) ->
          store' s = streamStore conn s)
    /\ (forall syn,
          handleSynStream syn (set_goaway true (set_streamStore store' conn))
          = (Ok tt, set_goaway true (set_streamStore store' conn))).
Proof.
  cbv zeta. eexists. split; [|split; [|split]].
  - simpl handleFrame. unfold bind. rewrite cancelLoop_eq. reflexivity.
  - intros sid s Hs Hodd Hgt. rewrite cancelAll_lookup, decide_True; [done|].
    unfold cancelTargets. apply list_elem_of_fmap. exists (sid, s).
    split; [done|]. apply list_elem_of_filter. split; [done|].
    by apply elem_of_map_to_list.
  - intros s Hs. rewrite cancelAll_lookup, decide_False; [done|].
    unfold cancelTargets.
    intros ((sid & s') & Heq & Hin)%list_elem_of_fmap. simpl in Heq. subst s'.
    apply list_elem_of_filter in Hin as [[Hodd Hgt] Hin]. simpl in *.
    apply elem_of_map_to_list in Hin.
    destruct (Hs sid Hin) as [Heven | Hle]; [done | lia].
  - intros syn. done.
Qed.

(** X20.  A HEADERS frame is handled like a DATA frame.  It never makes the
    client send a frame.  With an even stream ID, or an odd one failing the
    open-stream check, [numBenignErrors] is incremented and nothing else
    changes.  Otherwise, when an open inbox is registered for the stream,
    the frame is appended to that inbox and no error is counted; when
    moreover FLAG_FIN is set and the stream is registered, its remote half
    is marked closed.  When no inbox is registered the loop parks for good
    on the send, and when the inbox is closed the send panics. *)
Theorem client_headers_frame (conn : clientConnection) (frame : HeadersFrame) :
  let sid := hf_streamID frame in
  let r := handleHeadersFrame frame conn in
  dataOutput r.2 = dataOutput conn
  /\ (Z.land sid 1 = 0 \/ notOpen conn sid = true ->
      r = (Ok tt, set_numBenignErrors (numBenignErrors conn + 1) conn))
  /\ (Z.land sid 1 <> 0 -> notOpen conn sid = false ->
      (streamInputs conn !! sid = None -> r = (Exit Blocked, conn))
      /\ (forall c, streamInputs conn !! sid = Some c ->
            ch_closed (chanStore conn c) = true ->
            r = (Exit Panicked, conn))
      /\ (forall c, streamInputs conn !! sid = Some c ->
            ch_closed (chanStore conn c) = false ->
            (Z.land (hf_Flags frame) FLAG_FIN = 0
             \/ is_Some (streams conn !! sid)) ->
            r.1 = Ok tt
            /\ chanStore r.2 c
               = mkChan (ch_buf (chanStore conn c) ++ [FHeaders frame]) false
            /\ (forall c', c' <> c -> chanStore r.2 c' = chanStore conn c')
            /\ numBenignErrors r.2 = numBenignErrors conn
            /\ (Z.land (hf_Flags frame) FLAG_FIN <> 0 ->
                forall st, streams conn !! sid = Some st ->
                  closedThere (streamStore r.2 st) = true))).
Proof.
  intros sid r. subst sid r. unfold handleHeadersFrame. split; [|split].
  - destruct (Z.land (hf_streamID frame) 1 =? 0); [done|].
    destruct (notOpen conn (hf_streamID frame)); [done|].
    unfold bind, send, call, ret.
    destruct (streamInputs conn !! hf_streamID frame) as [c|]; [|done].
    destruct (ch_closed (chanStore conn c)); [done|].
    destruct (negb (Z.land (hf_Flags frame) FLAG_FIN =? 0)); [|done].
    simpl. by destruct (streams conn !! hf_streamID frame).
  - intros [Heven | Hclosed].
    + apply Z.eqb_eq in Heven. by rewrite Heven.
    + rewrite Hclosed. by destruct (Z.land (hf_streamID frame) 1 =? 0).
  - intros Hodd Hopen.
    apply Z.eqb_neq in Hodd. rewrite Hodd, Hopen. unfold bind.
    split; [|split].
    + by intros ->.
    + intros c -> Hc. unfold send. by rewrite Hc.
    + intros c Hc Hch Hfin. rewrite Hc, send_open by done.
      destruct (Z.land (hf_Flags frame) FLAG_FIN =? 0) eqn:Hflag; simpl.
      * apply Z.eqb_eq in Hflag.
        rewrite fn_lookup_alter. repeat split; try done.
        intros c' Hne. by rewrite fn_lookup_alter_ne.
      * apply Z.eqb_neq in Hflag.
        destruct Hfin as [Hfin | [st Hst]]; [done|].
        unfold call. rewrite Hst. simpl.
        rewrite fn_lookup_alter. repeat split; try done.
        -- intros c' Hne. by rewrite fn_lookup_alter_ne.
        -- intros _ st' Hst'. assert (st' = st) as -> by congruence.
           by rewrite fn_lookup_alter.
Qed.

(** X21.  What the client's [handleSynStream] makes of a SYN_STREAM before
    GOAWAY, when the stream ID is even.  An ID other than
    [nextServerStreamID + 2] (in 32-bit arithmetic) counts a benign error and
    changes nothing else.  The expected ID, when it is at most
    [MAX_STREAM_ID], only adds one to the wait group: no stream is entered
    into the tables and the counter of remote streams is not advanced, so
    that the same frame is accepted again. *)
Theorem client_handleSynStream_outcomes (conn : clientConnection)
    (frame : SynStreamFrame) :
  goaway conn = false ->
  Z.land (ss_streamID frame) 1 = 0 ->
  let expected := wrap32 (nextServerStreamID conn + 2) in
  (ss_streamID frame <> expected ->
   handleSynStream frame conn
   = (Ok tt, set_numBenignErrors (numBenignErrors conn + 1) conn))
  /\ (ss_streamID frame = expected -> ss_streamID frame <= MAX_STREAM_ID ->
      handleSynStream frame conn = (Ok tt, set_done (done conn + 1) conn)
      /\ (handleSynStream frame >> handleSynStream frame) conn
         = (Ok tt, set_done (done conn + 1 + 1) conn)).
Proof.
  intros Hgo Heven expected. subst expected.
  apply Z.eqb_eq in Heven. split.
  - intros Hne. unfold handleSynStream. apply Z.eqb_neq in Hne.
    by rewrite Hgo, Heven, Hne.
  - intros Heq Hmax. apply Z.ltb_ge in Hmax.
    assert (forall k, goaway k = false ->
              nextServerStreamID k = nextServerStreamID conn ->
              handleSynStream frame k = (Ok tt, set_done (done k + 1) k))
      as Haccept.
    { intros k Hk Hnext. unfold handleSynStream.
      rewrite Hk, Heven, Hnext. cbv zeta. simpl negb. cbv iota.
      by rewrite <- Heq, Z.eqb_refl, Hmax. }
    split; [by apply Haccept|].
    unfold bind. rewrite Haccept by done. by rewrite Haccept.
Qed.

End ClientFrames.

(** * Runs of the client, pings and [run] *)

Section ClientRunsMore.
Import Client.
Context `{PackageDecls}.

Lemma land_1_mod (x : Z) : Z.land x 1 = x mod 2.
Proof. apply (Z.land_ones x 1). lia. Qed.

(** Adding 2 in 32-bit arithmetic keeps the parity. *)
Lemma wrap32_add2_parity (x : Z) : Z.land (wrap32 (x + 2)) 1 = Z.land x 1.
Proof.
  rewrite !land_1_mod. unfold wrap32.
  rewrite Z.mod_mod_divide by (exists (2 ^ 31); reflexivity).
  replace (x + 2) with (x + 1 * 2) by lia. apply Z_mod_plus_full.
Qed.

(** On every connection a run of the client reaches, the stream-ID
    counters are still 0, the wait group is empty and the next ping ID is
    odd. *)
Lemma reachable_counters (conn : clientConnection) :
  reachable conn ->
  nextClientStreamID conn = 0
  /\ nextServerStreamID conn = 0
  /\ done conn = 0
  /\ Z.land (pingID conn) 1 = 1.
Proof.
  induction 1 as [v | conn Hreach (Hc & Hs & Hd & Hp)
                    | conn i Hreach (Hc & Hs & Hd & Hp) Hok].
  - done.
  - simpl. by rewrite wrap32_add2_parity.
  - pose proof (evolving_iteration i conn) as Hev.
    by rewrite (ev_nextClient _ _ Hev), (ev_nextServer _ _ Hev),
      (ev_done _ _ Hev), (ev_pingID _ _ Hev).
Qed.

(** X22.  On every connection a run of the client reaches, no frame is ever
    delivered to a stream: within budget, a DATA frame, and a HEADERS frame
    of the connection's version, with an even stream ID only counts a benign
    error, and with an odd stream ID parks the ingress loop for good on the
    send to an inbox that does not exist, the connection unchanged. *)
Theorem client_run_never_routes (conn : clientConnection) :
  reachable conn ->
  numBenignErrors conn <= MaxBenignErrors ->
  (forall frame : DataFrame,
     iteration (InFrame (FData frame) true) conn
     = if Z.land (df_streamID frame) 1 =? 0
       then (Ok tt, set_numBenignErrors (numBenignErrors conn + 1) conn)
       else (Exit Blocked, conn))
  /\ (forall frame : HeadersFrame,
        hf_version frame = wrap16 (version conn) ->
        iteration (InFrame (FHeaders frame) true) conn
        = if Z.land (hf_streamID frame) 1 =? 0
          then (Ok tt, set_numBenignErrors (numBenignErrors conn + 1) conn)
          else (Exit Blocked, conn)).
Proof.
  intros Hreach Hbudget.
  destruct (reachable_counters conn Hreach) as (Hnext & _).
  destruct (reachable_invariant conn Hreach) as (_ & [_ Hinputs] & _).
  assert (forall sid, notOpen conn sid = false) as Hopen.
  { intros sid. unfold notOpen. rewrite Hnext. simpl.
    by rewrite andb_false_r. }
  split.
  - intros frame. rewrite iteration_dispatch by done. simpl.
    unfold handleDataFrame.
    destruct (Z.land (df_streamID frame) 1 =? 0); [done|].
    rewrite Hopen. unfold bind. by rewrite Hinputs, lookup_empty.
  - intros frame Hver. rewrite iteration_dispatch; [|done|].
    + simpl. unfold handleHeadersFrame.
      destruct (Z.land (hf_streamID frame) 1 =? 0); [done|].
      rewrite Hopen. unfold bind. by rewrite Hinputs, lookup_empty.
    + simpl. rewrite Hver. apply Z.eqb_refl.
Qed.

(** X23.  On every connection a run of the client reaches, a peer ends the
    ingress loop with one frame: within budget, an RST_STREAM of the
    connection's version whose status is not fatal and is REFUSED_STREAM (for
    a stream other than 0) or CANCEL (for an odd stream ID) makes
    [closeStream] call a method on a stream that is not registered; the loop
    panics, with the connection unchanged. *)
Theorem client_run_rst_panics (conn : clientConnection)
    (frame : RstStreamFrame) :
  reachable conn ->
  numBenignErrors conn <= MaxBenignErrors ->
  rs_version frame = wrap16 (version conn) ->
  StatusCodeIsFatal (rs_StatusCode frame) = false ->
  (rs_StatusCode frame = RST_STREAM_REFUSED_STREAM /\ rs_streamID frame <> 0)
  \/ (rs_StatusCode frame = RST_STREAM_CANCEL
      /\ Z.land (rs_streamID frame) 1 <> 0) ->
  iteration (InFrame (FRstStream frame) true) conn = (Exit Panicked, conn).
Proof.
  intros Hreach Hbudget Hver Hfatal Hcode.
  destruct (reachable_invariant conn Hreach) as (_ & [Hstreams _] & _).
  rewrite iteration_dispatch; [|done|].
  2:{ simpl. rewrite Hver. apply Z.eqb_refl. }
  simpl. rewrite Hfatal. unfold handleRstStream.
  assert (rs_streamID frame <> 0 ->
          closeStream (rs_streamID frame) conn = (Exit Panicked, conn))
    as Hclose.
  { intros Hsid. unfold closeStream. apply Z.eqb_neq in Hsid. rewrite Hsid.
    unfold bind, call. by rewrite Hstreams, lookup_empty. }
  destruct Hcode as [[-> Hsid] | [-> Hodd]]; simpl.
  - by apply Hclose.
  - assert (rs_streamID frame <> 0) as Hsid
      by (intros E; by rewrite E in Hodd).
    apply Z.eqb_neq in Hodd. rewrite Hodd. by apply Hclose.
Qed.

(** X24.  A ping and its reply.  On a connection a run of the client
    reaches, within budget, [Ping] enqueues a PING frame with an odd ID and
    returns a fresh notifier; when that same frame comes back from the peer,
    the notifier receives [true] and is closed, the registry of pings is
    what it was before the ping (without any older entry under that ID), the
    error count is unchanged and nothing further is sent. *)
Theorem client_ping_round_trip (conn : clientConnection) :
  reachable conn ->
  numBenignErrors conn <= MaxBenignErrors ->
  let ping := mkPing (wrap16 (version conn)) (pingID conn) in
  let c := nextRef conn in
  exists conn1 conn2,
    Ping conn = (Ok c, conn1)
    /\ dataOutput conn1 = dataOutput conn ++ [FPing ping]
    /\ Z.land (pf_PingID ping) 1 = 1
    /\ iteration (InFrame (FPing ping) true) conn1 = (Ok tt, conn2)
    /\ pingStore conn2 c = mkBoolChan [true] true
    /\ pings conn2 = delete (pingID conn) (pings conn)
    /\ dataOutput conn2 = dataOutput conn1
    /\ numBenignErrors conn2 = numBenignErrors conn.
Proof.
  intros Hreach Hbudget ping c. subst ping c.
  destruct (reachable_counters conn Hreach) as (_ & _ & _ & Hodd).
  destruct (Ping_registers conn)
    as (conn1 & HPing & Hpings & Hfresh & _ & Hout & Hn & Hv).
  assert (Z.land (pingID conn) 1 <> 0) as Hodd' by (rewrite Hodd; lia).
  destruct (casePing_reply conn1
              (mkPing (wrap16 (version conn)) (pingID conn)) (nextRef conn))
    as (store' & Heq & Hc & _); [done| |done|].
  { simpl. rewrite Hpings. apply lookup_insert_eq. }
  exists conn1. eexists. split; [done|]. split; [done|]. split; [done|].
  split.
  - rewrite iteration_dispatch; [exact Heq|lia|].
    simpl. rewrite Hv. apply Z.eqb_refl.
  - simpl. split; [done|]. split; [|done].
    rewrite Hpings. apply delete_insert_eq.
Qed.











End ClientRunsMore.

(** * The further properties at concrete connections *)

Lemma server_version_check_outcomes_witness :
  let conn := serverIntended3 in
  let newer := mkSynStream 4 1 0 in
  let older := mkSynStream 2 1 0 in
  Server.goaway conn = false
  /\ ss_version newer <> Server.version conn
  /\ @SPDY_VERSION exampleDecls < ss_version newer
  /\ @Server.iteration exampleDecls (Server.InFrame (FSynStream newer)) conn
     = (Ok tt,
        Server.set_queue
          [FRstStream (mkRstStream 3 1 RST_STREAM_UNSUPPORTED_VERSION)] conn)
  /\ ss_version older <= @SPDY_VERSION exampleDecls
  /\ Server.running
     <$> Server.streams
           (@Server.iteration exampleDecls
              (Server.InFrame (FSynStream older)) conn).2
     = {[1 := true]}.
Proof.
  assert (4 <> 3) as Hne4 by discriminate.
  assert (2 <> 3) as Hne2 by discriminate.
  destruct (@server_version_check_outcomes exampleDecls
              serverIntended3 (mkSynStream 4 1 0) eq_refl Hne4)
    as [Hnewer _].
  destruct (@server_version_check_outcomes exampleDecls
              serverIntended3 (mkSynStream 2 1 0) eq_refl Hne2)
    as [_ Holder].
  destruct (Holder ltac:(discriminate)) as (_ & _ & Hstreams).
  cbv zeta. split; [reflexivity|]. split; [exact Hne4|].
  split; [reflexivity|]. split; [exact (Hnewer eq_refl)|].
  split; [discriminate|]. rewrite Hstreams. vm_compute. reflexivity.
Defined.

Lemma server_goaway_ignores_frames_witness :
  let inputs := [synInput 1; Server.InFrame (FPing (mkPing 3 1)); synInput 2] in
  Server.goaway serverGoneAway = true
  /\ forallb serverKnown inputs = true
  /\ @Server.readFrames exampleDecls inputs serverGoneAway
     = (Ok tt, serverGoneAway).
Proof.
  cbv zeta. split; [reflexivity|]. split; [reflexivity|].
  exact (@server_goaway_ignores_frames exampleDecls serverGoneAway
           [synInput 1; Server.InFrame (FPing (mkPing 3 1)); synInput 2]
           eq_refl eq_refl).
Defined.

Lemma server_loop_panics_at_bad_input_witness :
  let conn := serverIntended3 in
  forallb serverKnown [synInput 1] = true
  /\ serverKnown Server.InError = false
  /\ @Server.readFrames exampleDecls
       ([synInput 1] ++ Server.InError :: [synInput 1]) conn
     = (Exit Panicked,
        (@Server.readFrames exampleDecls [synInput 1] conn).2).
Proof.
  cbv zeta. split; [reflexivity|]. split; [reflexivity|].
  exact (proj2 (@server_loop_panics_at_bad_input exampleDecls
                  serverIntended3 [synInput 1] Server.InError
                  [synInput 1] eq_refl eq_refl)).
Defined.

Lemma server_streams_come_from_syn_witness :
  let conn := serverIntended3 in
  let st := {| Server.syn := mkSynStream 3 1 0; Server.running := true |} in
  Server.streams
    (@Server.readFrames exampleDecls [synInput 1; synInput 3] conn).2 !! 1
  = Some st
  /\ (Server.streams conn !! 1 = Some st
      \/ (1 = wrap32 (Server.nextClientStreamID conn + 2)
          /\ Z.land 1 1 <> 0 /\ 1 <= MAX_STREAM_ID
          /\ exists frame,
               Server.InFrame (FSynStream frame)
               ∈ [synInput 1; synInput 3]
               /\ ss_streamID frame = 1
               /\ st = {| Server.syn := frame; Server.running := true |})).
Proof.
  assert (Server.streams
            (@Server.readFrames exampleDecls [synInput 1; synInput 3]
               serverIntended3).2 !! 1
          = Some {| Server.syn := mkSynStream 3 1 0;
                    Server.running := true |}) as Hst
    by (vm_compute; reflexivity).
  cbv zeta. split; [exact Hst|].
  exact (@server_streams_come_from_syn exampleDecls
           [synInput 1; synInput 3] serverIntended3 1 _ Hst).
Defined.

Lemma server_second_syn_replaces_stream_witness :
  let conn := serverIntended3 in
  let first := mkSynStream 3 1 0 in
  let second := mkSynStream 3 1 FLAG_FIN in
  let r := @Server.readFrames exampleDecls
             [Server.InFrame (FSynStream first);
              Server.InFrame (FSynStream second)] conn in
  Server.goaway conn = false
  /\ Z.land (ss_streamID first) 1 <> 0
  /\ ss_streamID first = wrap32 (Server.nextClientStreamID conn + 2)
  /\ ss_streamID first <= MAX_STREAM_ID
  /\ ss_streamID second = ss_streamID first
  /\ r.1 = Ok tt
  /\ Server.queue r.2 = []
  /\ Server.streams r.2 !! 1
     = Some {| Server.syn := second; Server.running := true |}.
Proof.
  assert (Z.land 1 1 <> 0) as Hodd by discriminate.
  assert (1 <= MAX_STREAM_ID) as Hmax by discriminate.
  destruct (@server_second_syn_replaces_stream exampleDecls serverIntended3
              (mkSynStream 3 1 0) (mkSynStream 3 1 FLAG_FIN)
              eq_refl (or_introl eq_refl) (or_introl eq_refl)
              Hodd eq_refl Hmax eq_refl)
    as (Hok & Hqueue & Hentry & _).
  cbv zeta. split; [reflexivity|]. split; [exact Hodd|].
  split; [reflexivity|]. split; [exact Hmax|]. split; [reflexivity|].
  split; [exact Hok|]. split; [exact Hqueue | exact Hentry].
Defined.

Lemma server_sequence_check_after_run_witness :
  let conn := serverIntended3 in
  let after := (@Server.readFrames exampleDecls [synInput 1] conn).2 in
  Server.goaway conn = false
  /\ Z.land 3 1 <> 0
  /\ 3 <> wrap32 (Server.nextClientStreamID conn + 2)
  /\ Server.streams after !! 1
     = Some {| Server.syn := mkSynStream 3 1 0; Server.running := true |}
  /\ @Server.iteration exampleDecls (synInput 3) after
     = (Ok tt,
        Server.set_queue
          [FRstStream (mkRstStream 3 3 RST_STREAM_PROTOCOL_ERROR)] after).
Proof.
  assert (Z.land 3 1 <> 0) as Hodd by discriminate.
  assert (3 <> wrap32 (Server.nextClientStreamID serverIntended3
                       + 2)) as Hseq by discriminate.
  cbv zeta. split; [reflexivity|]. split; [exact Hodd|].
  split; [exact Hseq|]. split; [vm_compute; reflexivity|].
  exact (@server_sequence_check_after_run exampleDecls [synInput 1]
           serverIntended3 (mkSynStream 3 3 0)
           eq_refl (or_introl eq_refl) Hodd Hseq).
Defined.

Lemma client_version_gate_witness :
  let frame := FPing (mkPing 2 2) in
  Client.numBenignErrors client3 <= @MaxBenignErrors exampleDecls
  /\ Frame_Version frame <> wrap16 (Client.version client3)
  /\ @Client.iteration exampleDecls (Client.InFrame frame true) client3
     = (Ok tt,
        Client.set_dataOutput
          [FRstStream (mkRstStream 3 0 RST_STREAM_UNSUPPORTED_VERSION)]
          client3).
Proof.
  assert (Client.numBenignErrors client3 <= @MaxBenignErrors exampleDecls)
    as Hbudget by discriminate.
  assert (Frame_Version (FPing (mkPing 2 2))
          <> wrap16 (Client.version client3)) as Hver by discriminate.
  cbv zeta. split; [exact Hbudget|]. split; [exact Hver|].
  exact (proj1 (@client_version_gate exampleDecls client3
                  (FPing (mkPing 2 2)) Hbudget)
           ltac:(discriminate) Hver).
Defined.

Lemma client_rst_status_codes_witness :
  let flow := mkRstStream 3 1 RST_STREAM_FLOW_CONTROL_ERROR in
  let unknown := mkRstStream 3 1 99 in
  Client.handleRstStream flow clientWithStreams
  = (Ok tt, Client.set_numBenignErrors 1 clientWithStreams)
  /\ Client.handleRstStream unknown clientWithStreams
     = Client.PROTOCOL_ERROR 1 clientWithStreams.
Proof.
  destruct (client_rst_status_codes clientWithStreams
              (mkRstStream 3 1 RST_STREAM_FLOW_CONTROL_ERROR))
    as (Hbenign & _ & _).
  destruct (client_rst_status_codes clientWithStreams (mkRstStream 3 1 99))
    as (_ & _ & Hunknown).
  cbv zeta. split.
  - apply Hbenign. apply list_elem_of_further, list_elem_of_here.
  - apply Hunknown. intros Hin.
    repeat (apply elem_of_cons in Hin as [Heq | Hin]; [discriminate|]).
    by apply elem_of_nil in Hin.
Defined.

Lemma client_closeStream_edges_witness :
  Client.streams clientWithStreams !! 5 = None
  /\ Client.closeStream 5 clientWithStreams
     = (Exit Panicked, clientWithStreams)
  /\ Client.streams clientStaleInbox !! 1 = Some 0%nat
  /\ Client.streamInputs clientStaleInbox !! 1 = Some 10%nat
  /\ Client.ch_closed (Client.chanStore clientStaleInbox 10%nat) = true
  /\ (Client.closeStream 1 clientStaleInbox).1 = Exit Panicked
  /\ Client.streams (Client.closeStream 1 clientStaleInbox).2 !! 1
     = Some 0%nat
  /\ Client.stopped
       (Client.streamStore (Client.closeStream 1 clientStaleInbox).2 0%nat)
     = true.
Proof.
  destruct (client_closeStream_edges clientWithStreams 5)
    as (_ & Hmissing & _).
  destruct (client_closeStream_edges clientStaleInbox 1) as (_ & _ & Hstale).
  split; [reflexivity|].
  split; [exact (Hmissing ltac:(discriminate) eq_refl)|].
  split; [reflexivity|]. split; [reflexivity|]. split; [reflexivity|].
  rewrite (Hstale ltac:(discriminate) 0%nat eq_refl
             (or_intror (ex_intro _ 10%nat (conj eq_refl eq_refl)))).
  split; [reflexivity|]. split; reflexivity.
Defined.

Lemma client_cleanup_completes_iff_witness :
  inboxesOk clientWithStreams = true
  /\ (Client.cleanup clientWithStreams).1 = Ok tt
  /\ Client.streamInputs (Client.cleanup clientWithStreams).2 = ∅
  /\ inboxesOk clientStaleInbox = false
  /\ (Client.cleanup clientStaleInbox).1 = Exit Panicked
  /\ Client.streamInputs (Client.cleanup clientStaleInbox).2
     = Client.streamInputs clientStaleInbox.
Proof.
  assert (inboxesOk clientWithStreams = true) as Hfit
    by (vm_compute; reflexivity).
  assert (inboxesOk clientStaleInbox = false) as Hunfit
    by (vm_compute; reflexivity).
  destruct (proj1 (client_cleanup_completes_iff clientWithStreams) Hfit)
    as (Hok & _ & Hi).
  destruct (proj2 (client_cleanup_completes_iff clientStaleInbox) Hunfit)
    as (Hpanic & _ & Hi').
  split; [exact Hfit|]. split; [exact Hok|]. split; [exact Hi|].
  split; [exact Hunfit|]. split; [exact Hpanic | exact Hi'].
Defined.

Lemma client_cleanup_after_witness :
  let closed := (Client.closeStream 1 clientWithStreams).2 in
  let cleaned := (Client.cleanup clientWithStreams).2 in
  Client.closeStream 1 clientWithStreams = (Ok tt, closed)
  /\ (Client.cleanup closed).1 = Exit Panicked
  /\ Client.cleanup clientWithStreams = (Ok tt, cleaned)
  /\ Client.cleanup cleaned = (Ok tt, cleaned).
Proof.
  assert (Client.closeStream 1 clientWithStreams
          = (Ok tt, (Client.closeStream 1 clientWithStreams).2)) as Hclose
    by (vm_compute; reflexivity).
  assert (Client.cleanup clientWithStreams
          = (Ok tt, (Client.cleanup clientWithStreams).2)) as Hclean
    by (vm_compute; reflexivity).
  cbv zeta. split; [exact Hclose|].
  split;
    [exact (proj1 (proj1 (client_cleanup_after clientWithStreams _) 1
                     ltac:(discriminate) Hclose))|].
  split; [exact Hclean|].
  exact (proj2 (client_cleanup_after clientWithStreams _) Hclean).
Defined.

Lemma client_goaway_cancels_later_streams_witness :
  let r := @Client.handleFrame exampleDecls (FGoaway (mkGoaway 3 1))
             clientWithStreams in
  r.1 = Ok tt
  /\ Client.goaway r.2 = true
  /\ Client.cancelled (Client.streamStore r.2 2%nat) = true
  /\ Client.cancelled (Client.streamStore r.2 0%nat) = false
  /\ Client.cancelled (Client.streamStore r.2 1%nat) = false.
Proof.
  destruct (@client_goaway_cancels_later_streams exampleDecls
              clientWithStreams (mkGoaway 3 1))
    as (store' & Heq & Hcancel & Hkeep & _).
  cbv zeta. rewrite Heq. simpl.
  split; [reflexivity|]. split; [reflexivity|].
  split; [by rewrite (Hcancel 3 2%nat)|].
  assert (forall sid s,
            Client.streams clientWithStreams !! sid = Some s ->
            (sid = 1 /\ s = 0%nat) \/ (sid = 2 /\ s = 1%nat)
            \/ (sid = 3 /\ s = 2%nat)) as Htable.
  { intros sid s Hs. simpl in Hs.
    destruct (decide (sid = 1)) as [->|Hne1];
      [rewrite lookup_insert_eq in Hs; left; by simplify_eq|].
    rewrite lookup_insert_ne in Hs by done.
    destruct (decide (sid = 2)) as [->|Hne2];
      [rewrite lookup_insert_eq in Hs; right; left; by simplify_eq|].
    rewrite lookup_insert_ne in Hs by done.
    destruct (decide (sid = 3)) as [->|Hne3];
      [rewrite lookup_singleton_eq in Hs; right; right; by simplify_eq|].
    by rewrite lookup_singleton_ne in Hs. }
  split.
  - rewrite Hkeep; [reflexivity|]. intros sid Hs.
    destruct (Htable sid _ Hs) as [[-> _] | [[_ ?] | [_ ?]]];
      [by right | done | done].
  - rewrite Hkeep; [reflexivity|]. intros sid Hs.
    destruct (Htable sid _ Hs) as [[_ ?] | [[-> _] | [_ ?]]];
      [done | by left | done].
Defined.

Lemma client_headers_frame_witness :
  let frame := mkHeaders 3 3 FLAG_FIN in
  let r := Client.handleHeadersFrame frame clientWithStreams in
  r.1 = Ok tt
  /\ Client.chanStore r.2 12%nat = Client.mkChan [FHeaders frame] false
  /\ Client.numBenignErrors r.2 = 0
  /\ Client.closedThere (Client.streamStore r.2 2%nat) = true
  /\ Client.handleHeadersFrame (mkHeaders 3 2 FLAG_FIN) clientWithStreams
     = (Ok tt, Client.set_numBenignErrors 1 clientWithStreams).
Proof.
  destruct (client_headers_frame clientWithStreams (mkHeaders 3 3 FLAG_FIN))
    as (_ & _ & Hodd).
  destruct (Hodd ltac:(discriminate) eq_refl) as (_ & _ & Hopen).
  destruct (Hopen 12%nat eq_refl eq_refl
              (or_intror (ex_intro _ 2%nat eq_refl)))
    as (Hok & Hinbox & _ & Herrors & Hfin).
  destruct (client_headers_frame clientWithStreams (mkHeaders 3 2 FLAG_FIN))
    as (_ & Heven & _).
  cbv zeta. split; [exact Hok|]. split; [exact Hinbox|].
  split; [exact Herrors|].
  split; [exact (Hfin ltac:(discriminate) 2%nat eq_refl)|].
  exact (Heven (or_introl eq_refl)).
Defined.

Lemma client_handleSynStream_outcomes_witness :
  let expected := mkSynStream 3 2 0 in
  let early := mkSynStream 3 4 0 in
  Client.goaway client3 = false
  /\ Client.handleSynStream expected client3
     = (Ok tt, Client.set_done 1 client3)
  /\ (Client.handleSynStream expected >> Client.handleSynStream expected)
       client3
     = (Ok tt, Client.set_done 2 client3)
  /\ Client.handleSynStream early client3
     = (Ok tt, Client.set_numBenignErrors 1 client3).
Proof.
  assert (Client.goaway client3 = false) as Hgo by reflexivity.
  destruct (client_handleSynStream_outcomes client3 (mkSynStream 3 2 0)
              Hgo eq_refl) as (_ & Haccept).
  destruct (Haccept eq_refl ltac:(discriminate)) as (Hone & Htwo).
  destruct (client_handleSynStream_outcomes client3 (mkSynStream 3 4 0)
              Hgo eq_refl) as (Hbenign & _).
  cbv zeta. split; [exact Hgo|]. split; [exact Hone|]. split; [exact Htwo|].
  exact (Hbenign ltac:(discriminate)).
Defined.

Lemma client_run_never_routes_witness :
  @reachable exampleDecls client3
  /\ Client.numBenignErrors client3 <= @MaxBenignErrors exampleDecls
  /\ @Client.iteration exampleDecls
       (Client.InFrame (FData (mkData 1 0 [104; 105])) true) client3
     = (Exit Blocked, client3)
  /\ @Client.iteration exampleDecls
       (Client.InFrame (FData (mkData 2 0 [104; 105])) true) client3
     = (Ok tt, Client.set_numBenignErrors 1 client3)
  /\ @Client.iteration exampleDecls
       (Client.InFrame (FHeaders (mkHeaders 3 1 0)) true) client3
     = (Exit Blocked, client3).
Proof.
  assert (@reachable exampleDecls client3) as Hreach
    by exact (@reachable_new exampleDecls 3).
  assert (Client.numBenignErrors client3 <= @MaxBenignErrors exampleDecls)
    as Hbudget by discriminate.
  destruct (@client_run_never_routes exampleDecls client3 Hreach Hbudget)
    as (Hdata & Hheaders).
  split; [exact Hreach|]. split; [exact Hbudget|].
  split; [exact (Hdata (mkData 1 0 [104; 105]))|].
  split; [exact (Hdata (mkData 2 0 [104; 105]))|].
  exact (Hheaders (mkHeaders 3 1 0) eq_refl).
Defined.

Lemma client_run_rst_panics_witness :
  let refused := mkRstStream 3 1 RST_STREAM_REFUSED_STREAM in
  let cancel := mkRstStream 3 1 RST_STREAM_CANCEL in
  @reachable exampleDecls client3
  /\ Client.numBenignErrors client3 <= @MaxBenignErrors exampleDecls
  /\ @StatusCodeIsFatal exampleDecls RST_STREAM_REFUSED_STREAM = false
  /\ @Client.iteration exampleDecls
       (Client.InFrame (FRstStream refused) true) client3
     = (Exit Panicked, client3)
  /\ @Client.iteration exampleDecls
       (Client.InFrame (FRstStream cancel) true) client3
     = (Exit Panicked, client3).
Proof.
  assert (@reachable exampleDecls client3) as Hreach
    by exact (@reachable_new exampleDecls 3).
  assert (Client.numBenignErrors client3 <= @MaxBenignErrors exampleDecls)
    as Hbudget by discriminate.
  assert (@StatusCodeIsFatal exampleDecls RST_STREAM_REFUSED_STREAM = false)
    as Hrefused by (vm_compute; reflexivity).
  assert (@StatusCodeIsFatal exampleDecls RST_STREAM_CANCEL = false)
    as Hcancel by (vm_compute; reflexivity).
  assert (3 = wrap16 (Client.version client3)) as Hver
    by (vm_compute; reflexivity).
  assert (1 <> 0) as Hsid by discriminate.
  assert (Z.land 1 1 <> 0) as Hodd by discriminate.
  cbv zeta. split; [exact Hreach|]. split; [exact Hbudget|].
  split; [exact Hrefused|]. split.
  - apply (@client_run_rst_panics exampleDecls client3
             (mkRstStream 3 1 RST_STREAM_REFUSED_STREAM) Hreach Hbudget
             Hver Hrefused).
    left. split; [reflexivity | exact Hsid].
  - apply (@client_run_rst_panics exampleDecls client3
             (mkRstStream 3 1 RST_STREAM_CANCEL) Hreach Hbudget
             Hver Hcancel).
    right. split; [reflexivity | exact Hodd].
Defined.

Lemma client_ping_round_trip_witness :
  @reachable exampleDecls client3
  /\ Client.numBenignErrors client3 <= @MaxBenignErrors exampleDecls
  /\ exists conn1 conn2,
       Client.Ping client3 = (Ok 0%nat, conn1)
       /\ Client.dataOutput conn1 = [FPing (mkPing 3 1)]
       /\ @Client.iteration exampleDecls
            (Client.InFrame (FPing (mkPing 3 1)) true) conn1
          = (Ok tt, conn2)
       /\ Client.pingStore conn2 0%nat = Client.mkBoolChan [true] true
       /\ Client.pings conn2 = delete 1 (Client.pings client3)
       /\ Client.dataOutput conn2 = Client.dataOutput conn1
       /\ Client.numBenignErrors conn2 = 0.
Proof.
  assert (@reachable exampleDecls client3) as Hreach
    by exact (@reachable_new exampleDecls 3).
  assert (Client.numBenignErrors client3 <= @MaxBenignErrors exampleDecls)
    as Hbudget by discriminate.
  split; [exact Hreach|]. split; [exact Hbudget|].
  destruct (@client_ping_round_trip exampleDecls client3 Hreach Hbudget)
    as (conn1 & conn2 & HPing & Hout & _ & Hiter & Hc & Hpings & Hout2 & Hn).
  exists conn1, conn2.
  split; [exact HPing|]. split; [exact Hout|]. split; [exact Hiter|].
  split; [exact Hc|]. split; [exact Hpings|]. split; [exact Hout2|].
  exact Hn.
Defined.

